(** * use-url-storage-state: the storage hook and the URL binder

    A shallow embedding of the hook [useStorage] and of [kebabize] (the
    modules use-storage.ts and url-helper.ts, whose text is lines 192-292
    and 294-298 of src/src/use-storage/use-storage.test.tsx) and of the
    hook [useUrlStorageState]
    (src/src/use-url-storage-state/use-url-storage-state.ts), with the
    properties the specification states about them.

    The host platform is modelled, not embedded: [JSON.stringify] and
    [JSON.parse] on the JSON data model, the two browser storage areas as
    finite maps from keys to strings, the router history as a stack of
    locations whose query is the decoded parameter list that
    [URLSearchParams] exposes, React as the cells an instance keeps
    between renders and the effects that run after a render when one of
    their dependencies changed. Every call that leaves a hook (storage
    reads and writes, the caller's callbacks, navigations) is recorded in
    a chronological trace. *)

From Stdlib Require Import ZArith String Ascii List Bool Lia.
From Stdlib Require Import DecimalString DecimalPos DecimalFacts.
From stdpp Require Import base option gmap strings list.

Import ListNotations.
Set Warnings "-register-all".
Local Open Scope string_scope.
Local Open Scope list_scope.

(* ===================================================================== *)
(** ** JavaScript values of the JSON data model *)
(* ===================================================================== *)

Module Js.

(** The values [JSON.stringify] and [JSON.parse] exchange. Numbers are
    the (safe) integers; strings are sequences of code units below 256;
    an object is the list of its members in enumeration order. *)
Inductive value : Type :=
| JNull
| JBool (b : bool)
| JNum (z : Z)
| JStr (s : string)
| JArr (items : list value)
| JObj (members : list (string * value)).

(** Truthiness of a string operand, as in [if (s)] and [!s]. *)
Definition truthy (s : string) : bool :=
  match s with
  | EmptyString => false
  | String _ _ => true
  end.

(** Truthiness of [string | null]. *)
Definition truthy_opt (s : option string) : bool :=
  match s with
  | None => false
  | Some s => truthy s
  end.

(** *** [JSON.stringify]

    The text ECMA-262 prescribes for a value of the data model, with no
    indentation: literals, decimal integers, quoted strings, bracketed
    lists. *)

Definition dquote : ascii := "034"%char.
Definition backslash : ascii := "\"%char.

Definition hex_digit (n : nat) : ascii :=
  nth n (list_ascii_of_string "0123456789abcdef") "0"%char.

(** QuoteJSONString, one code unit at a time. *)
Definition escape_char (c : ascii) : string :=
  if (c =? dquote)%char then String backslash (String dquote "")
  else if (c =? backslash)%char then String backslash (String backslash "")
  else if (c =? "008")%char then "\b"
  else if (c =? "012")%char then "\f"
  else if (c =? "010")%char then "\n"
  else if (c =? "013")%char then "\r"
  else if (c =? "009")%char then "\t"
  else if (nat_of_ascii c <? 32)%nat then
    "\u00" +:+ String (hex_digit (nat_of_ascii c / 16))
                (String (hex_digit (nat_of_ascii c mod 16)) "")
  else String c "".

Fixpoint escape (s : string) : string :=
  match s with
  | EmptyString => ""
  | String c r => escape_char c +:+ escape r
  end.

Definition quote (s : string) : string :=
  String dquote (escape s +:+ String dquote "").

Definition show_Z (z : Z) : string :=
  match z with
  | Z0 => "0"
  | Zpos p => NilEmpty.string_of_uint (Pos.to_uint p)
  | Zneg p => "-" +:+ NilEmpty.string_of_uint (Pos.to_uint p)
  end.

Fixpoint stringify (v : value) : string :=
  match v with
  | JNull => "null"
  | JBool true => "true"
  | JBool false => "false"
  | JNum z => show_Z z
  | JStr s => quote s
  | JArr items =>
      "[" +:+
      match items with
      | [] => ""
      | x :: more =>
          stringify x +:+
          (fix rest (l : list value) : string :=
             match l with
             | [] => ""
             | y :: l' => "," +:+ stringify y +:+ rest l'
             end) more
      end +:+ "]"
  | JObj members =>
      "{" +:+
      match members with
      | [] => ""
      | (k, x) :: more =>
          quote k +:+ ":" +:+ stringify x +:+
          (fix rest (l : list (string * value)) : string :=
             match l with
             | [] => ""
             | (k', y) :: l' => "," +:+ quote k' +:+ ":" +:+ stringify y +:+ rest l'
             end) more
      end +:+ "}"
  end.

Definition JSON_stringify (v : value) : string := stringify v.

(** The two local loops of [stringify], by name: the text of the items
    and of the members after the first. *)
Definition stringify_items (l : list value) : string :=
  (fix rest (l : list value) : string :=
     match l with
     | [] => ""
     | y :: l' => "," +:+ stringify y +:+ rest l'
     end) l.

Definition stringify_members (l : list (string * value)) : string :=
  (fix rest (l : list (string * value)) : string :=
     match l with
     | [] => ""
     | (k', y) :: l' => "," +:+ quote k' +:+ ":" +:+ stringify y +:+ rest l'
     end) l.

(** *** [JSON.parse]

    A recursive-descent reader of JSON text. It ends in one of three
    ways: it has read a value of the data model; it has met a
    [SyntaxError]; or it has met text that denotes something beyond the
    data model, and stops following it there. Beyond the data model are
    number literals with a fraction or an exponent, integers that are not
    safe, [-0], [\u] escapes of code units from 256 on, and objects with
    repeated keys or with array-index keys, which an engine merges and
    reorders. Where the reader stops, a recogniser of the JSON grammar
    goes over the whole text and tells whether [JSON.parse] throws on it
    after all ([JSON_parse], below). *)

Inductive Parsed (A : Type) : Type :=
| Read (a : A)
| SyntaxError
| Unmodelled.

Arguments Read {A} a.
Arguments SyntaxError {A}.
Arguments Unmodelled {A}.

Definition is_ws (c : ascii) : bool :=
  ((c =? " ") || (c =? "009") || (c =? "010") || (c =? "013"))%char.

Fixpoint skip_ws (s : string) : string :=
  match s with
  | String c r => if is_ws c then skip_ws r else s
  | EmptyString => s
  end.

(** [strip pre s]: [s] without its prefix [pre]. *)
Fixpoint strip (pre s : string) : option string :=
  match pre with
  | EmptyString => Some s
  | String a pre' =>
      match s with
      | String b s' => if (a =? b)%char then strip pre' s' else None
      | EmptyString => None
      end
  end.

Definition hex_val (c : ascii) : option nat :=
  let n := nat_of_ascii c in
  if ((48 <=? n) && (n <=? 57))%nat then Some (n - 48)
  else if ((97 <=? n) && (n <=? 102))%nat then Some (n - 87)
  else if ((65 <=? n) && (n <=? 70))%nat then Some (n - 55)
  else None.

Definition hex4 (a b c d : ascii) : option nat :=
  match hex_val a, hex_val b, hex_val c, hex_val d with
  | Some x, Some y, Some z, Some t => Some (((x * 16 + y) * 16 + z) * 16 + t)
  | _, _, _, _ => None
  end.

Definition unescape (e : ascii) : option ascii :=
  if (e =? dquote)%char then Some dquote
  else if (e =? backslash)%char then Some backslash
  else if (e =? "/")%char then Some "/"%char
  else if (e =? "b")%char then Some "008"%char
  else if (e =? "f")%char then Some "012"%char
  else if (e =? "n")%char then Some "010"%char
  else if (e =? "r")%char then Some "013"%char
  else if (e =? "t")%char then Some "009"%char
  else None.

Definition cons_char (c : ascii) (r : Parsed (string * string)) :
    Parsed (string * string) :=
  match r with
  | Read (s, rest) => Read (String c s, rest)
  | SyntaxError => SyntaxError
  | Unmodelled => Unmodelled
  end.

(** The characters of a string literal after its opening quote, up to and
    including the closing quote. *)
Fixpoint parse_chars (s : string) : Parsed (string * string) :=
  match s with
  | EmptyString => SyntaxError
  | String c r =>
      if (c =? dquote)%char then Read ("", r)
      else if (c =? backslash)%char then
        match r with
        | String e r1 =>
            if (e =? "u")%char then
              match r1 with
              | String h1 (String h2 (String h3 (String h4 r2))) =>
                  match hex4 h1 h2 h3 h4 with
                  | Some n =>
                      if (n <? 256)%nat
                      then cons_char (ascii_of_nat n) (parse_chars r2)
                      else Unmodelled
                  | None => SyntaxError
                  end
              | _ => SyntaxError
              end
            else
              match unescape e with
              | Some c' => cons_char c' (parse_chars r1)
              | None => SyntaxError
              end
        | EmptyString => SyntaxError
        end
      else if (nat_of_ascii c <? 32)%nat then SyntaxError
      else cons_char c (parse_chars r)
  end.

Definition digit_of_char (c : ascii) : option (Decimal.uint -> Decimal.uint) :=
  if (c =? "0")%char then Some Decimal.D0
  else if (c =? "1")%char then Some Decimal.D1
  else if (c =? "2")%char then Some Decimal.D2
  else if (c =? "3")%char then Some Decimal.D3
  else if (c =? "4")%char then Some Decimal.D4
  else if (c =? "5")%char then Some Decimal.D5
  else if (c =? "6")%char then Some Decimal.D6
  else if (c =? "7")%char then Some Decimal.D7
  else if (c =? "8")%char then Some Decimal.D8
  else if (c =? "9")%char then Some Decimal.D9
  else None.

(** The longest run of digits at the head of [s]. *)
Fixpoint lex_digits (s : string) : Decimal.uint * string :=
  match s with
  | String c r =>
      match digit_of_char c with
      | Some d => let (u, r') := lex_digits r in (d u, r')
      | None => (Decimal.Nil, s)
      end
  | EmptyString => (Decimal.Nil, s)
  end.

(** Does a fraction or an exponent follow? *)
Definition continues_number (s : string) : bool :=
  match s with
  | String c _ => ((c =? ".") || (c =? "e") || (c =? "E"))%char
  | EmptyString => false
  end.

(** May a number literal start with [c]? May it end in front of [s]? *)
Definition starts_number (c : ascii) : bool :=
  match digit_of_char c with
  | Some _ => true
  | None => (c =? "-")%char
  end.

Definition delimits (s : string) : bool :=
  match s with
  | String c _ =>
      match digit_of_char c with
      | Some _ => false
      | None => negb (continues_number s)
      end
  | EmptyString => true
  end.

(** A digit run that is a JSON integer: not empty, no leading zero. *)
Definition plain_digits (u : Decimal.uint) : bool :=
  match u with
  | Decimal.Nil => false
  | Decimal.D0 Decimal.Nil => true
  | Decimal.D0 _ => false
  | _ => true
  end.

(** [Number.MAX_SAFE_INTEGER]: the integers up to it, of either sign, are
    numbers that print as their decimal digits. *)
Definition MAX_SAFE_INTEGER : Z := 9007199254740991.

Definition safe_integer (z : Z) : bool := (Z.abs z <=? MAX_SAFE_INTEGER)%Z.

Definition parse_number (s : string) : Parsed (value * string) :=
  let (negative, s1) :=
    match s with
    | String c r => if (c =? "-")%char then (true, r) else (false, s)
    | EmptyString => (false, s)
    end in
  let (u, r) := lex_digits s1 in
  if plain_digits u then
    if continues_number r then Unmodelled
    else
      let z := Z.of_uint u in
      if safe_integer z && negb (negative && (z =? 0)%Z)
      then Read (JNum (if negative then - z else z)%Z, r)
      else Unmodelled
  else SyntaxError.

(** An array index as a property key: [0], or digits with no leading
    zero, below [2^32 - 1]. *)
Definition is_index_key (k : string) : bool :=
  let (u, r) := lex_digits k in
  match r with
  | EmptyString => plain_digits u && (Z.of_uint u <? 4294967295)%Z
  | String _ _ => false
  end.

Fixpoint distinct (ks : list string) : bool :=
  match ks with
  | [] => true
  | k :: ks' => negb (existsb (String.eqb k) ks') && distinct ks'
  end.

(** The member lists that are the own properties of an object, in the
    order an engine enumerates them. *)
Definition object_keys_ok (members : list (string * value)) : bool :=
  distinct (map fst members)
  && forallb (fun kv => negb (is_index_key (fst kv))) members.

Fixpoint parse_value (fuel : nat) (s : string) : Parsed (value * string) :=
  match fuel with
  | O => Unmodelled
  | S fuel =>
      match skip_ws s with
      | EmptyString => SyntaxError
      | String c r as s' =>
          if (c =? "n")%char then
            match strip "null" s' with
            | Some r' => Read (JNull, r')
            | None => SyntaxError
            end
          else if (c =? "t")%char then
            match strip "true" s' with
            | Some r' => Read (JBool true, r')
            | None => SyntaxError
            end
          else if (c =? "f")%char then
            match strip "false" s' with
            | Some r' => Read (JBool false, r')
            | None => SyntaxError
            end
          else if (c =? dquote)%char then
            match parse_chars r with
            | Read (str, r') => Read (JStr str, r')
            | SyntaxError => SyntaxError
            | Unmodelled => Unmodelled
            end
          else if (c =? "[")%char then
            match skip_ws r with
            | String c' r' =>
                if (c' =? "]")%char then Read (JArr [], r')
                else
                  match parse_elements fuel r with
                  | Read (items, r'') => Read (JArr items, r'')
                  | SyntaxError => SyntaxError
                  | Unmodelled => Unmodelled
                  end
            | EmptyString => SyntaxError
            end
          else if (c =? "{")%char then
            match skip_ws r with
            | String c' r' =>
                if (c' =? "}")%char then Read (JObj [], r')
                else
                  match parse_members fuel r with
                  | Read (members, r'') =>
                      if object_keys_ok members then Read (JObj members, r'')
                      else Unmodelled
                  | SyntaxError => SyntaxError
                  | Unmodelled => Unmodelled
                  end
            | EmptyString => SyntaxError
            end
          else parse_number s'
      end
  end

with parse_elements (fuel : nat) (s : string) : Parsed (list value * string) :=
  match fuel with
  | O => Unmodelled
  | S fuel =>
      match parse_value fuel s with
      | Read (v, r) =>
          match skip_ws r with
          | String c r' =>
              if (c =? ",")%char then
                match parse_elements fuel r' with
                | Read (vs, r'') => Read (v :: vs, r'')
                | SyntaxError => SyntaxError
                | Unmodelled => Unmodelled
                end
              else if (c =? "]")%char then Read ([v], r')
              else SyntaxError
          | EmptyString => SyntaxError
          end
      | SyntaxError => SyntaxError
      | Unmodelled => Unmodelled
      end
  end

with parse_members (fuel : nat) (s : string) :
    Parsed (list (string * value) * string) :=
  match fuel with
  | O => Unmodelled
  | S fuel =>
      match skip_ws s with
      | String q r0 =>
          if (q =? dquote)%char then
            match parse_chars r0 with
            | Read (k, r1) =>
                match skip_ws r1 with
                | String colon r2 =>
                    if (colon =? ":")%char then
                      match parse_value fuel r2 with
                      | Read (v, r) =>
                          match skip_ws r with
                          | String c r' =>
                              if (c =? ",")%char then
                                match parse_members fuel r' with
                                | Read (ms, r'') => Read ((k, v) :: ms, r'')
                                | SyntaxError => SyntaxError
                                | Unmodelled => Unmodelled
                                end
                              else if (c =? "}")%char then Read ([(k, v)], r')
                              else SyntaxError
                          | EmptyString => SyntaxError
                          end
                      | SyntaxError => SyntaxError
                      | Unmodelled => Unmodelled
                      end
                    else SyntaxError
                | EmptyString => SyntaxError
                end
            | SyntaxError => SyntaxError
            | Unmodelled => Unmodelled
            end
          else SyntaxError
      | EmptyString => SyntaxError
      end
  end.

(** *** The JSON grammar (ECMA-404), for text beyond the data model

    The recogniser follows the grammar and builds nothing. Each function
    answers with the text after what it has gone over. *)

(** The characters of a string literal after its opening quote, up to and
    including the closing quote: any code unit from 32 on but the quote
    and the backslash, or one of the escapes, [\u] with four hexadecimal
    digits of any value. *)
Fixpoint skip_chars (s : string) : option string :=
  match s with
  | EmptyString => None
  | String c r =>
      if (c =? dquote)%char then Some r
      else if (c =? backslash)%char then
        match r with
        | String e r1 =>
            if (e =? "u")%char then
              match r1 with
              | String h1 (String h2 (String h3 (String h4 r2))) =>
                  match hex4 h1 h2 h3 h4 with
                  | Some _ => skip_chars r2
                  | None => None
                  end
              | _ => None
              end
            else
              match unescape e with
              | Some _ => skip_chars r1
              | None => None
              end
        | EmptyString => None
        end
      else if (nat_of_ascii c <? 32)%nat then None
      else skip_chars r
  end.

(** One digit or more. *)
Definition skip_digits (s : string) : option string :=
  match lex_digits s with
  | (Decimal.Nil, _) => None
  | (_, r) => Some r
  end.

(** A number literal: an optional minus; the integer part, which is
    [0] or a digit from 1 to 9 and any digits; an optional fraction, a
    point and one digit or more; an optional exponent, [e] or [E], an
    optional sign and one digit or more. After the integer part [0] no
    further digit belongs to the literal. *)
Definition skip_number (s : string) : option string :=
  let unsigned :=
    match s with
    | String c r => if (c =? "-")%char then r else s
    | EmptyString => s
    end in
  let integer :=
    match unsigned with
    | String c r =>
        if (c =? "0")%char then Some r else skip_digits unsigned
    | EmptyString => None
    end in
  let fraction :=
    match integer with
    | Some (String c r as after) =>
        if (c =? ".")%char then skip_digits r else Some after
    | other => other
    end in
  match fraction with
  | Some (String c r as after) =>
      if ((c =? "e") || (c =? "E"))%char then
        match r with
        | String sign r' =>
            if ((sign =? "+") || (sign =? "-"))%char then skip_digits r'
            else skip_digits r
        | EmptyString => None
        end
      else Some after
  | other => other
  end.

(** A value, the elements of an array after its bracket, the members of
    an object after its brace. [Unmodelled] stands for fuel that has run
    out. *)
Fixpoint skip_value (fuel : nat) (s : string) : Parsed string :=
  match fuel with
  | O => Unmodelled
  | S fuel =>
      match skip_ws s with
      | EmptyString => SyntaxError
      | String c r as s' =>
          if (c =? "n")%char then
            match strip "null" s' with
            | Some r' => Read r'
            | None => SyntaxError
            end
          else if (c =? "t")%char then
            match strip "true" s' with
            | Some r' => Read r'
            | None => SyntaxError
            end
          else if (c =? "f")%char then
            match strip "false" s' with
            | Some r' => Read r'
            | None => SyntaxError
            end
          else if (c =? dquote)%char then
            match skip_chars r with
            | Some r' => Read r'
            | None => SyntaxError
            end
          else if (c =? "[")%char then
            match skip_ws r with
            | String c' r' =>
                if (c' =? "]")%char then Read r' else skip_elements fuel r
            | EmptyString => SyntaxError
            end
          else if (c =? "{")%char then
            match skip_ws r with
            | String c' r' =>
                if (c' =? "}")%char then Read r' else skip_members fuel r
            | EmptyString => SyntaxError
            end
          else
            match skip_number s' with
            | Some r' => Read r'
            | None => SyntaxError
            end
      end
  end

with skip_elements (fuel : nat) (s : string) : Parsed string :=
  match fuel with
  | O => Unmodelled
  | S fuel =>
      match skip_value fuel s with
      | Read r =>
          match skip_ws r with
          | String c r' =>
              if (c =? ",")%char then skip_elements fuel r'
              else if (c =? "]")%char then Read r'
              else SyntaxError
          | EmptyString => SyntaxError
          end
      | SyntaxError => SyntaxError
      | Unmodelled => Unmodelled
      end
  end

with skip_members (fuel : nat) (s : string) : Parsed string :=
  match fuel with
  | O => Unmodelled
  | S fuel =>
      match skip_ws s with
      | String q r0 =>
          if (q =? dquote)%char then
            match skip_chars r0 with
            | Some r1 =>
                match skip_ws r1 with
                | String colon r2 =>
                    if (colon =? ":")%char then
                      match skip_value fuel r2 with
                      | Read r =>
                          match skip_ws r with
                          | String c r' =>
                              if (c =? ",")%char then skip_members fuel r'
                              else if (c =? "}")%char then Read r'
                              else SyntaxError
                          | EmptyString => SyntaxError
                          end
                      | SyntaxError => SyntaxError
                      | Unmodelled => Unmodelled
                      end
                    else SyntaxError
                | EmptyString => SyntaxError
                end
            | None => SyntaxError
            end
          else SyntaxError
      | EmptyString => SyntaxError
      end
  end.

(** Is the whole text one value of the grammar between white space?
    [Read true]: it is; [Read false]: it is not, [JSON.parse] throws. *)
Definition json_text (fuel : nat) (text : string) : Parsed bool :=
  match skip_value fuel text with
  | Read r =>
      match skip_ws r with
      | EmptyString => Read true
      | String _ _ => Read false
      end
  | SyntaxError => Read false
  | Unmodelled => Unmodelled
  end.

(** [JSON.parse(text)]: one value, then nothing but white space. Two units
    of fuel per character, and one for the empty text, cover every descent
    of the reader and of the recogniser. A value of the data model is
    [Read]; where the reader has stopped at text beyond the data model,
    the answer is [SyntaxError] when the text is not JSON text, as for
    [1.2.3] or [2.], and [Unmodelled] when it is, as for [1.5]. *)
Definition JSON_parse (text : string) : Parsed value :=
  let fuel := S (2 * String.length text) in
  match parse_value fuel text with
  | Read (v, r) =>
      match skip_ws r with
      | EmptyString => Read v
      | String _ _ => SyntaxError
      end
  | SyntaxError => SyntaxError
  | Unmodelled =>
      match json_text fuel text with
      | Read true => Unmodelled
      | Read false => SyntaxError
      | _ => Unmodelled
      end
  end.

(** The values that are JavaScript values: safe integers, and member lists
    that are the properties of an object. *)
Fixpoint representable (v : value) : bool :=
  match v with
  | JNull | JBool _ | JStr _ => true
  | JNum z => safe_integer z
  | JArr items => forallb representable items
  | JObj members =>
      object_keys_ok members
      && forallb (fun kv => representable (snd kv)) members
  end.

(** The reader, given two units of fuel per character, reads [v] back
    from its text, whatever delimiter follows. *)
Definition reads_back (v : value) : Prop :=
  ∀ fuel rest,
    (2 * String.length (stringify v +:+ rest) ≤ fuel)%nat →
    delimits rest = true →
    parse_value fuel (stringify v +:+ rest) = Read (v, rest).

End Js.

(* ===================================================================== *)
(** ** The platform: storage areas, history, trace *)
(* ===================================================================== *)

(** The [Storage] objects a page can hold a reference to. *)
Inductive Area : Type :=
| LocalStorage     (* window.localStorage *)
| SessionStorage.  (* window.sessionStorage *)

Global Instance Area_eq_dec : EqDecision Area.
Proof. solve_decision. Defined.

(** The decoded query of a URL, as [URLSearchParams] iterates it. *)
Definition Query : Type := list (string * string).

Record Location : Type := mkLocation {
  pathname : string;
  search : Query
}.

(** Everything the hooks do to their environment, in order. *)
Inductive Event : Type :=
| GetItem (a : Area) (k : string)
| SetItem (a : Area) (k v : string)
| RemoveItem (a : Area) (k : string)
| CallForceInit (raw : string)
| CallDeserialize (raw : string)
| CallDefaultProducer
| CallUpdater (prev : Js.value)
| ConsoleLog (v : Js.value)
| Navigate (q : Query) (replace : bool).

Record World : Type := mkWorld {
  localStorage : gmap string string;
  sessionStorage : gmap string string;
  current : Location;            (* the active history entry *)
  back : list Location;          (* the entries behind it *)
  trace : list Event
}.

Definition area (a : Area) (w : World) : gmap string string :=
  match a with
  | LocalStorage => localStorage w
  | SessionStorage => sessionStorage w
  end.

Definition with_area (a : Area) (m : gmap string string) (w : World) : World :=
  match a with
  | LocalStorage =>
      mkWorld m (sessionStorage w) (current w) (back w) (trace w)
  | SessionStorage =>
      mkWorld (localStorage w) m (current w) (back w) (trace w)
  end.

Definition record (e : Event) (w : World) : World :=
  mkWorld (localStorage w) (sessionStorage w) (current w) (back w)
          (trace w ++ [e]).

(** Effectful code threads the world. *)
Definition Eff (A : Type) : Type := World -> A * World.

Definition ret {A} (a : A) : Eff A := fun w => (a, w).

Definition bind {A B} (m : Eff A) (k : A -> Eff B) : Eff B :=
  fun w => let (a, w') := m w in k a w'.

Declare Scope eff_scope.
Delimit Scope eff_scope with eff.
Notation "x <- m ;; k" := (bind m (fun x => k))
  (at level 100, m at next level, right associativity) : eff_scope.
Notation "m ;;; k" := (bind m (fun _ => k))
  (at level 100, right associativity) : eff_scope.
Local Open Scope eff_scope.

Definition emit (e : Event) : Eff unit := fun w => (tt, record e w).

(** [storage.getItem(key)]: [None] is JavaScript's [null]. *)
Definition getItem (a : Area) (k : string) : Eff (option string) :=
  fun w => (area a w !! k, record (GetItem a k) w).

(** [storage.setItem(key, value)]. *)
Definition setItem (a : Area) (k v : string) : Eff unit :=
  fun w => (tt, record (SetItem a k v) (with_area a (<[k := v]> (area a w)) w)).

(** [storage.removeItem(key)]. *)
Definition removeItem (a : Area) (k : string) : Eff unit :=
  fun w => (tt, record (RemoveItem a k) (with_area a (delete k (area a w)) w)).

(* ===================================================================== *)
(** ** use-storage.ts *)
(* ===================================================================== *)

Module UseStorage.
Section Hook.

Context {V : Type} `{EqDecision V}.

(** [defaultValue: (() => ValueType) | ValueType]. *)
Inductive DefaultValue : Type :=
| Plain (v : V)
| Producer (f : unit -> V).

(** [StorageProps<ValueType>] with the defaults of the parameter list
    resolved. [deserialize] answers [None] where the JavaScript function
    throws. *)
Record StorageProps : Type := mkProps {
  key : string;
  defaultValue : DefaultValue;
  storage : Area;
  live : bool;
  serialize : V -> string;
  deserialize : string -> option V;
  forceInit : string -> bool
}.

(** An argument that may be left out: [undefined], [null] or a string. *)
Inductive Arg : Type :=
| Undefined
| Null
| Str (s : string).

(** [function never() { return false; }] *)
Definition never (_ : string) : bool := false.

(** [getDefaultValue(value)]:
    [typeof value === 'function' ? value() : value]. *)
Definition getDefaultValue (d : DefaultValue) : Eff V :=
  match d with
  | Producer f => emit CallDefaultProducer ;;; ret (f tt)
  | Plain v => ret v
  end.

(** The value [getDefaultValue] yields, and the calls it makes. *)
Definition resolved (d : DefaultValue) : V :=
  match d with
  | Producer f => f tt
  | Plain v => v
  end.

Definition default_events (d : DefaultValue) : list Event :=
  match d with
  | Producer _ => [CallDefaultProducer]
  | Plain _ => []
  end.

(** [initFromStorage(storedValue = storage.getItem(key))]. The default
    parameter is evaluated only for [undefined]; [null] stays [null]. *)
Definition initFromStorage (p : StorageProps) (storedValue : Arg) : Eff V :=
  valueInLocalStorage <-
    match storedValue with
    | Undefined => getItem (storage p) (key p)
    | Null => ret None
    | Str s => ret (Some s)
    end ;;
  match valueInLocalStorage with
  | Some raw =>
      if Js.truthy raw then
        forced <- (emit (CallForceInit raw) ;;; ret (forceInit p raw)) ;;
        if negb forced then
          parsed <- (emit (CallDeserialize raw) ;;; ret (deserialize p raw)) ;;
          match parsed with
          | Some v => ret v
          | None =>
              (* catch (error) *)
              removeItem (storage p) (key p) ;;;
              getDefaultValue (defaultValue p)
          end
        else getDefaultValue (defaultValue p)
      else getDefaultValue (defaultValue p)
  | None => getDefaultValue (defaultValue p)
  end.

(** The cells one mounted instance keeps between renders: the [useState]
    cell, the [useRef] cell and the dependencies the storing effect last
    ran with ([None] before the first run). Of its dependency array
    [[key, value, serialize, storage]] the functions and the storage
    reference are stable for an instance, and values are compared by
    the decidable equality of [V]. That is React's [Object.is] for
    strings, numbers and booleans; two objects of equal content are one
    value here and two for React, so where a render rests on two values
    being the same, the properties below allow for both outcomes. *)
Record Instance : Type := mkInstance {
  value : V;
  prevKeyRef : string;
  storedWith : option (string * V)
}.

Global Instance StorageInstance_eq_dec : EqDecision Instance.
Proof. solve_decision. Defined.

(** The body of the first [useEffect]. *)
Definition storeEffect (p : StorageProps) (i : Instance) : Eff Instance :=
  let prevKey := prevKeyRef i in
  (if decide (prevKey = key p) then ret tt
   else removeItem (storage p) prevKey) ;;;
  setItem (storage p) (key p) (serialize p (value i)) ;;;
  ret (mkInstance (value i) (key p) (Some (key p, value i))).

(** The effects React runs after committing a render of the instance
    under props [p]: the storing effect, when a dependency changed. *)
Definition commit (p : StorageProps) (i : Instance) : Eff Instance :=
  if decide (storedWith i = Some (key p, value i)) then ret i
  else storeEffect p i.

(** First render: [useState(initFromStorage)], [useRef(key)], then the
    effects. *)
Definition mount (p : StorageProps) : Eff Instance :=
  v <- initFromStorage p Undefined ;;
  commit p (mkInstance v (key p) None).

(** A later render under (possibly new) props. *)
Definition rerender (p : StorageProps) (i : Instance) : Eff Instance :=
  commit p i.

(** [fromStorage(storedValue?)]. *)
Definition fromStorage (p : StorageProps) (storedValue : Arg) : Eff V :=
  initFromStorage p storedValue.

(** A [StorageEvent]: every field is nullable. *)
Record StorageEvent : Type := mkStorageEvent {
  ev_key : option string;
  ev_oldValue : option string;
  ev_newValue : option string;
  ev_storageArea : option Area
}.

Definition arg_of_nullable (s : option string) : Arg :=
  match s with
  | None => Null
  | Some s => Str s
  end.

(** [storageChanged(event)], closed over the props and the value of the
    render that registered it. The result is the instance after
    [setValue], or the instance as it was when the handler returns
    early. *)
Definition storageChanged (p : StorageProps) (i : Instance)
    (event : StorageEvent) : Eff Instance :=
  if (bool_decide (ev_storageArea event ≠ Some LocalStorage)
      || bool_decide (ev_key event ≠ Some (key p))
      || bool_decide (ev_newValue event = Some (serialize p (value i))))%bool
  then ret i
  else
    v <- fromStorage p (arg_of_nullable (ev_newValue event)) ;;
    ret (mkInstance v (prevKeyRef i) (storedWith i)).

(** The window dispatches a storage event to a mounted instance: the
    listener is registered only when [live]; a state change re-renders
    and the effects of that render run. *)
Definition dispatch (p : StorageProps) (i : Instance)
    (event : StorageEvent) : Eff Instance :=
  if live p then
    i' <- storageChanged p i event ;;
    rerender p i'
  else ret i.

(** The caller's [setValue(v)], followed by the render it causes. *)
Definition setValue (p : StorageProps) (i : Instance) (v : V) : Eff Instance :=
  rerender p (mkInstance v (prevKeyRef i) (storedWith i)).

(** An instance whose last render ran under the key [k]: the ref holds
    [k], and so does the dependency record of the storing effect once it
    has run. The value may have been set since. *)
Definition rendered_under (k : string) (i : Instance) : Prop :=
  prevKeyRef i = k ∧ ∀ k' v, storedWith i = Some (k', v) → k' = k.

(** An instance whose last render ran under [p] and whose effects are
    done: the ref holds the key and the storing effect has seen the
    current key and value. *)
Definition at_rest (p : StorageProps) (i : Instance) : Prop :=
  prevKeyRef i = key p ∧ storedWith i = Some (key p, value i).

End Hook.

Arguments DefaultValue V : clear implicits.
Arguments StorageProps V : clear implicits.
Arguments Instance V : clear implicits.

End UseStorage.

(* ===================================================================== *)
(** ** url-helper.ts *)
(* ===================================================================== *)

Module UrlHelper.

Definition is_upper (c : ascii) : bool :=
  ((65 <=? nat_of_ascii c) && (nat_of_ascii c <=? 90))%nat.

Definition is_lower_or_digit (c : ascii) : bool :=
  (((97 <=? nat_of_ascii c) && (nat_of_ascii c <=? 122))
   || ((48 <=? nat_of_ascii c) && (nat_of_ascii c <=? 57)))%nat.

(** [.replace(/([a-z0-9]|(?=[A-Z]))([A-Z])/g, '$1-$2')]: scanning from the
    left, a lower-case letter or digit followed by a capital is one match
    of two characters, a capital elsewhere is a match of one. *)
Fixpoint hyphenate (s : string) : string :=
  match s with
  | EmptyString => ""
  | String c r =>
      match r with
      | String d r' =>
          if is_lower_or_digit c && is_upper d
          then String c (String "-" (String d (hyphenate r')))
          else if is_upper c then String "-" (String c (hyphenate r))
          else String c (hyphenate r)
      | EmptyString =>
          if is_upper c then String "-" (String c "") else String c ""
      end
  end.

(** [String.prototype.toLowerCase] on code units below 256. *)
Definition lower_char (c : ascii) : ascii :=
  let n := nat_of_ascii c in
  if (((65 <=? n) && (n <=? 90))
      || ((192 <=? n) && (n <=? 222) && negb (n =? 215)))%nat
  then ascii_of_nat (n + 32)
  else c.

Fixpoint toLowerCase (s : string) : string :=
  match s with
  | EmptyString => ""
  | String c r => String (lower_char c) (toLowerCase r)
  end.

Definition kebabize (cameCaseString : string) : string :=
  toLowerCase (hyphenate cameCaseString).

End UrlHelper.

(* ===================================================================== *)
(** ** The router and [URLSearchParams] *)
(* ===================================================================== *)

Global Instance Location_eq_dec : EqDecision Location.
Proof. solve_decision. Defined.

(** [searchParams.get(name)]: the first value under [name], or [null]. *)
Fixpoint params_get (name : string) (q : Query) : option string :=
  match q with
  | [] => None
  | (n, v) :: q' => if String.eqb n name then Some v else params_get name q'
  end.

Definition params_delete (name : string) (q : Query) : Query :=
  List.filter (fun nv => negb (String.eqb (fst nv) name)) q.

(** [searchParams.set(name, value)]: the first pair under [name] takes the
    value and the others go; with no such pair, one is appended. *)
Fixpoint params_set (name value : string) (q : Query) : Query :=
  match q with
  | [] => [(name, value)]
  | (n, v) :: q' =>
      if String.eqb n name then (n, value) :: params_delete name q'
      else (n, v) :: params_set name value q'
  end.

(** [useLocation()]. *)
Definition useLocation : Eff Location := fun w => (current w, w).

(** [navigate({ search: `?${searchParams.toString()}` }, { replace })]:
    the path stays; a replace overwrites the active history entry, a push
    puts a new entry in front of it. *)
Definition navigate (q : Query) (replace : bool) : Eff unit :=
  fun w =>
    let target := mkLocation (pathname (current w)) q in
    (tt, mkWorld (localStorage w) (sessionStorage w) target
           (if replace then back w else current w :: back w)
           (trace w ++ [Navigate q replace])).

(** The user follows a link or edits the address bar: a new entry with
    the query [q] on the same path, not made by the hook. *)
Definition externalNavigation (q : Query) (w : World) : World :=
  mkWorld (localStorage w) (sessionStorage w)
    (mkLocation (pathname (current w)) q) (current w :: back w) (trace w).

(** The user follows a link to another location, path included, while
    the component stays mounted (a route element without a [key] of its
    own is kept by React across routes): a new entry, not made by the
    hook. *)
Definition externalVisit (target : Location) (w : World) : World :=
  mkWorld (localStorage w) (sessionStorage w) target (current w :: back w)
    (trace w).

(** The number of entries of the history stack. *)
Definition history_length (w : World) : nat := S (length (back w)).

(* ===================================================================== *)
(** ** use-url-storage-state.ts *)
(* ===================================================================== *)

Module UseUrlStorageState.

Import UrlHelper.

(** [useUrlStorageStateParams<T>], [T] ranging over the JSON data model. *)
Record Params : Type := mkParams {
  key : string;
  defaultValue : Js.value;
  prefix : option string;
  storage : option Area
}.

(** [serializeState(state)]. *)
Definition serializeState (state : Js.value) : string :=
  match state with
  | Js.JStr s => s
  | _ => Js.JSON_stringify state
  end.

(** [prefix ? `${prefix}_${key}` : `urlStorage_${location.pathname}_${key}`]. *)
Definition storageKey (p : Params) (location : Location) : string :=
  match prefix p with
  | Some pre =>
      if Js.truthy pre then pre +:+ "_" +:+ key p
      else "urlStorage_" +:+ pathname location +:+ "_" +:+ key p
  | None => "urlStorage_" +:+ pathname location +:+ "_" +:+ key p
  end.

(** The configuration handed to [useStorage]; its value type is [string].
    A left-out [storage] takes the default of [useStorage]'s parameter
    list, [window.localStorage]. *)
Definition storageProps (p : Params) (location : Location) :
    UseStorage.StorageProps string :=
  UseStorage.mkProps
    (storageKey p location)
    (UseStorage.Plain (serializeState (defaultValue p)))
    (match storage p with Some a => a | None => LocalStorage end)
    false
    (fun s => serializeState (Js.JStr s))
    (fun s => Some s)
    UseStorage.never.

(** The cells of one mounted instance: those of the inner [useStorage],
    the dependencies the two effects last ran with, [[storageState, key,
    navigate, location.search]] and [[key, setStorageState,
    location.search]] ([setStorageState] is stable, and so is [navigate]
    as long as the path is; the properties below that change the path
    change the query with it), and
    what the last render saw: its location and the content of the state
    cell, which the callbacks of that render are closed over. *)
Record Binding : Type := mkBinding {
  inner : UseStorage.Instance string;
  urlFilledWith : option (string * string * Query);
  storageSyncedWith : option (string * Query);
  seenLocation : Location;
  seenStorageState : string
}.

Global Instance Binding_eq_dec : EqDecision Binding.
Proof. solve_decision. Defined.

(** The body of the effect that fills the URL from the storage state. *)
Definition fillUrl (p : Params) (location : Location) (storageState : string) :
    Eff unit :=
  let searchParams := search location in
  let keyParam := params_get (kebabize (key p)) searchParams in
  if negb (Js.truthy_opt keyParam) then
    navigate (params_set (kebabize (key p)) storageState searchParams) true
  else ret tt.

(** The body of the effect that hands the URL parameter to
    [setStorageState]: the next content of the state cell. *)
Definition syncStorage (p : Params) (location : Location)
    (storageState : string) : string :=
  let searchParams := search location in
  let keyParam := params_get (kebabize (key p)) searchParams in
  match keyParam with
  | Some u => if negb (Js.truthy u) then storageState else u
  | None => storageState
  end.

(** The [useMemo] that computes the returned state; [None] stands for a
    value beyond the data model. *)
Definition state (p : Params) (location : Location) : option Js.value :=
  let urlParam := params_get (kebabize (key p)) (search location) in
  match urlParam with
  | Some u =>
      if negb (Js.truthy u) then Some (defaultValue p)
      else
        match Js.JSON_parse u with
        | Js.Read v => Some v
        | Js.SyntaxError => Some (Js.JStr u)   (* catch *)
        | Js.Unmodelled => None
        end
  | None => Some (defaultValue p)
  end.

(** The effects after a render that saw [location] and the state cell of
    [i], in the order of their declaration: the storing effect of
    [useStorage], then the two effects of this hook, each when one of its
    dependencies changed. *)
Definition effects (p : Params) (location : Location) (i : Binding) :
    Eff Binding :=
  let storageState := UseStorage.value (inner i) in
  stored <- UseStorage.commit (storageProps p location) (inner i) ;;
  let fillDeps := Some (storageState, key p, search location) in
  (if decide (urlFilledWith i = fillDeps) then ret tt
   else fillUrl p location storageState) ;;;
  let syncDeps := Some (key p, search location) in
  let next :=
    if decide (storageSyncedWith i = syncDeps) then storageState
    else syncStorage p location storageState in
  ret (mkBinding
         (UseStorage.mkInstance next (UseStorage.prevKeyRef stored)
            (UseStorage.storedWith stored))
         fillDeps syncDeps location storageState).

(** One render of a mounted instance and its effects; the first component
    is the state the render returned. *)
Definition render (p : Params) (i : Binding) : Eff (option Js.value * Binding) :=
  location <- useLocation ;;
  i' <- effects p location i ;;
  ret (state p location, i').

(** The first render: the state cell is initialised from storage. *)
Definition firstRender (p : Params) : Eff (option Js.value * Binding) :=
  location <- useLocation ;;
  v <- UseStorage.initFromStorage (storageProps p location) UseStorage.Undefined ;;
  i' <- effects p location
          (mkBinding (UseStorage.mkInstance v (storageKey p location) None)
             None None location v) ;;
  ret (state p location, i').

(** Has anything the last render read changed since? *)
Definition stale (i : Binding) (w : World) : bool :=
  negb (bool_decide (current w = seenLocation i
                     ∧ UseStorage.value (inner i) = seenStorageState i)).

(** React renders again while the effects of a render changed the state
    cell or the location. The result is the instance at rest with the
    state its last render returned; [None] when it is still changing as
    the fuel runs out. *)
Fixpoint settle (fuel : nat) (p : Params) (r : option Js.value * Binding) :
    Eff (option (option Js.value * Binding)) :=
  fun w =>
    if stale (snd r) w then
      match fuel with
      | O => (None, w)
      | S fuel => let (r', w') := render p (snd r) w in settle fuel p r' w'
      end
    else (Some r, w).

(** Mounting, then every render that follows from it. *)
Definition mounted (fuel : nat) (p : Params) :
    Eff (option (option Js.value * Binding)) :=
  r <- firstRender p ;; settle fuel p r.

(** An instance whose last render saw the current location and state
    cell, whose effects have all run for them, and whose state cell is
    what storage holds under the derived key. *)
Definition settled (p : Params) (i : Binding) (w : World) : Prop :=
  let sp := storageProps p (current w) in
  seenLocation i = current w
  ∧ seenStorageState i = UseStorage.value (inner i)
  ∧ UseStorage.at_rest sp (inner i)
  ∧ urlFilledWith i
    = Some (UseStorage.value (inner i), key p, search (current w))
  ∧ storageSyncedWith i = Some (key p, search (current w))
  ∧ area (UseStorage.storage sp) w !! UseStorage.key sp
    = Some (UseStorage.value (inner i)).

(** What a run of the hook leaves alone between the world [w] it starts
    in and the world [w'] it ends in: every storage entry but the one
    under the derived key in the configured area, the path, the history
    entries behind the active one, and every query parameter but the
    hook's own. *)
Definition leaves_alone (p : Params) (w w' : World) : Prop :=
  let a := UseStorage.storage (storageProps p (current w)) in
  let k := storageKey p (current w) in
  (∀ b k', b ≠ a ∨ k' ≠ k → area b w' !! k' = area b w !! k')
  ∧ pathname (current w') = pathname (current w)
  ∧ back w' = back w
  ∧ (∀ name', name' ≠ kebabize (key p) →
              params_get name' (search (current w'))
              = params_get name' (search (current w))).

(** The argument of the returned setter. *)
Inductive SetStateAction : Type :=
| NewValue (v : Js.value)
| Updater (f : Js.value -> Js.value).

(** How a call ends: it returns, or the [SyntaxError] of [JSON.parse]
    leaves it, or it goes on with a value beyond the data model. *)
Inductive Outcome (A : Type) : Type :=
| Returned (a : A)
| ThrewSyntaxError
| BeyondModel.

Arguments Returned {A} a.
Arguments ThrewSyntaxError {A}.
Arguments BeyondModel {A}.

(** [updateState(newValue)], closed over the location and the storage
    state of the render that created it. [JSON.parse] is not guarded: its
    exception leaves the function. *)
Definition updateState (p : Params) (location : Location)
    (storageState : string) (newValue : SetStateAction) : Eff (Outcome unit) :=
  let searchParams := search location in
  newValueToSet <-
    match newValue with
    | Updater f =>
        match Js.JSON_parse storageState with
        | Js.Read prev => emit (CallUpdater prev) ;;; ret (Returned (f prev))
        | Js.SyntaxError => ret ThrewSyntaxError
        | Js.Unmodelled => ret BeyondModel
        end
    | NewValue v => ret (Returned v)
    end ;;
  match newValueToSet with
  | Returned v =>
      emit (ConsoleLog v) ;;;
      navigate (params_set (kebabize (key p)) (serializeState v) searchParams)
               false ;;;
      ret (Returned tt)
  | ThrewSyntaxError => ret ThrewSyntaxError
  | BeyondModel => ret BeyondModel
  end.

End UseUrlStorageState.

(* ===================================================================== *)
(** ** Scenarios of the test suites *)
(* ===================================================================== *)

Module Scenarios.

Import UseStorage.

(** A browser at path [/] with the given local storage and query. *)
Definition browser (stored : list (string * string)) (q : Query) : World :=
  mkWorld (list_to_map stored) ∅ (mkLocation "/" q) [] [].

(** [useStorage({ key, defaultValue, serialize: identity, deserialize:
    identity, live: true })] over strings, as in "when storage is cleared,
    value should reset". *)
Definition identityProps (k d : string) (a : Area) : StorageProps string :=
  mkProps k (Plain d) a true (fun s => s) (fun s => Some s) never.

(** [useStorage({ key, defaultValue })] with the defaults of the
    parameter list: [JSON.stringify], [JSON.parse], [never],
    [window.localStorage], not live; for stored texts of the data model
    (text beyond it is taken as unreadable). *)
Definition jsonProps (k : string) (d : Js.value) : StorageProps Js.value :=
  mkProps k (Plain d) LocalStorage false Js.JSON_stringify
    (fun s => match Js.JSON_parse s with
              | Js.Read v => Some v
              | _ => None
              end)
    never.

(** [defaultParams] of use-url-storage-state.test.tsx. *)
Definition defaultParams : UseUrlStorageState.Params :=
  UseUrlStorageState.mkParams "key" (Js.JStr "default") None None.

Definition storageEvent (k : string) (newValue : option string) (a : Area) :
    StorageEvent :=
  mkStorageEvent (Some k) None newValue (Some a).

(** [useStorage<number>({ key, defaultValue, live: true, forceInit })]
    with the [JSON.stringify] and [JSON.parse] of the parameter list, for
    stored texts that are integers or that [JSON.parse] rejects. *)
Definition numberProps (k : string) (d : Z) (forceInit : string -> bool) :
    StorageProps Z :=
  mkProps k (Plain d) LocalStorage true
    (fun z => Js.JSON_stringify (Js.JNum z))
    (fun s => match Js.JSON_parse s with
              | Js.Read (Js.JNum z) => Some z
              | _ => None
              end)
    forceInit.

(** A [forceInit] in the manner of "new version deleted old stored
    value": the stored number is below 2. *)
Definition olderThan2 (stored : string) : bool :=
  match Js.JSON_parse stored with
  | Js.Read (Js.JNum version) => (version <? 2)%Z
  | _ => false
  end.

(** The params of "updates state and URL correctly"; the [undefined]
    member of the default is none in the data model. *)
Definition objectParams : UseUrlStorageState.Params :=
  UseUrlStorageState.mkParams "key"
    (Js.JObj [("test", Js.JStr "initialValue")]) None None.

(** A binding of [p] (with the default storage) at rest on [path], and
    its world: storage and the URL parameter hold the serialized default,
    as the hook leaves them after mounting in an empty browser. *)
Definition restingBinding (p : UseUrlStorageState.Params) (path : string) :
    UseUrlStorageState.Binding :=
  let d := UseUrlStorageState.serializeState (UseUrlStorageState.defaultValue p) in
  let q := [(UrlHelper.kebabize (UseUrlStorageState.key p), d)] in
  let loc := mkLocation path q in
  let k := UseUrlStorageState.storageKey p loc in
  UseUrlStorageState.mkBinding (mkInstance d k (Some (k, d)))
    (Some (d, UseUrlStorageState.key p, q))
    (Some (UseUrlStorageState.key p, q)) loc d.

Definition restingWorld (p : UseUrlStorageState.Params) (path : string) : World :=
  let d := UseUrlStorageState.serializeState (UseUrlStorageState.defaultValue p) in
  let loc := mkLocation path [(UrlHelper.kebabize (UseUrlStorageState.key p), d)] in
  mkWorld {[ UseUrlStorageState.storageKey p loc := d ]} ∅ loc [] [].

End Scenarios.

(* ===================================================================== *)
(** * Properties of [useStorage] *)
(* ===================================================================== *)

Module UseStorageFacts.
Section Facts.

Import UseStorage.
Context {V : Type} `{EqDecision V}.
Implicit Types (p : StorageProps V) (i : Instance V) (w : World).

Local Ltac run :=
  unfold initFromStorage, fromStorage, getDefaultValue, storeEffect, commit,
    rerender, mount, bind, ret, emit, getItem, setItem, removeItem, record;
  cbn [fst snd trace localStorage sessionStorage current back].

Lemma area_with_area a m w : area a (with_area a m w) = m.
Proof. by destruct a. Qed.

Lemma area_record a e w : area a (record e w) = area a w.
Proof. by destruct a. Qed.

Lemma trace_with_area a m w : trace (with_area a m w) = trace w.
Proof. by destruct a. Qed.

Lemma truthy_nonempty (s : string) : Js.truthy s = true ↔ s ≠ "".
Proof. destruct s; cbn; split; congruence. Qed.

(** [getDefaultValue] never touches storage and logs the producer call. *)
Lemma getDefaultValue_run (d : DefaultValue V) w :
  getDefaultValue d w =
  (resolved d,
   mkWorld (localStorage w) (sessionStorage w) (current w) (back w)
     (trace w ++ default_events d)).
Proof.
  destruct d, w; run; cbn; by rewrite ?app_nil_r.
Qed.

(** What [initFromStorage] does on each kind of stored content. *)
Lemma initFromStorage_run p arg w :
  let a := storage p in
  let d := defaultValue p in
  let (stored, read) :=
    match arg with
    | Undefined => (area a w !! key p, [GetItem a (key p)])
    | Null => (None, [])
    | Str s => (Some s, [])
    end in
  initFromStorage p arg w =
  match stored with
  | Some raw =>
      if Js.truthy raw then
        if forceInit p raw then
          (resolved d,
           mkWorld (localStorage w) (sessionStorage w) (current w) (back w)
             (trace w ++ read ++ [CallForceInit raw] ++ default_events d))
        else
          match deserialize p raw with
          | Some v =>
              (v,
               mkWorld (localStorage w) (sessionStorage w) (current w) (back w)
                 (trace w ++ read ++ [CallForceInit raw; CallDeserialize raw]))
          | None =>
              (resolved d,
               let w' := with_area a (delete (key p) (area a w)) w in
               mkWorld (localStorage w') (sessionStorage w') (current w) (back w)
                 (trace w ++ read
                    ++ [CallForceInit raw; CallDeserialize raw;
                        RemoveItem a (key p)] ++ default_events d))
          end
      else
        (resolved d,
         mkWorld (localStorage w) (sessionStorage w) (current w) (back w)
           (trace w ++ read ++ default_events d))
  | None =>
      (resolved d,
       mkWorld (localStorage w) (sessionStorage w) (current w) (back w)
         (trace w ++ read ++ default_events d))
  end.
Proof.
  destruct p as [k d a lv ser de fi], w as [ls ss cur bk tr]; cbn.
  destruct arg; unfold initFromStorage; cbn [key storage defaultValue forceInit deserialize].
  all: unfold bind at 1; unfold getItem, ret at 1; cbn.
  1: destruct (area a _ !! k) as [raw|] eqn:Hs.
  all: try destruct (Js.truthy _) eqn:Ht.
  all: try (unfold bind at 1; unfold emit, ret at 1; cbn;
            destruct (fi _) eqn:Hf; cbn).
  all: try (unfold bind at 1; unfold emit, ret at 1; cbn;
            destruct (de _) eqn:Hd; cbn).
  all: rewrite ?getDefaultValue_run; unfold bind, ret, removeItem, record; cbn;
       rewrite ?getDefaultValue_run; cbn.
  all: repeat rewrite <- ?app_assoc; cbn; try reflexivity.
  all: destruct a; cbn; repeat rewrite <- ?app_assoc; cbn; try reflexivity.
Qed.

Local Ltac ends_with :=
  cbn [snd trace]; repeat first [apply suffix_app_r | apply suffix_cons_r];
  reflexivity.

(** C1 (amended). On first load, [initFromStorage] returns
    [deserialize(raw)] when [storage.getItem(key)] yields a non-empty raw
    string, [forceInit(raw)] is false and [deserialize(raw)] succeeds, and
    the producer is not called. When there is no raw string, or it is the
    empty string, or [forceInit(raw)] is true, or [deserialize(raw)]
    throws, it returns the resolved default, and the call of the producer,
    when the default is one, is the last thing it does. *)
Theorem initFromStorage_first_load p w :
  let stored := area (storage p) w !! key p in
  let result := initFromStorage p Undefined w in
  (∀ raw v,
      stored = Some raw → raw ≠ "" → forceInit p raw = false →
      deserialize p raw = Some v →
      fst result = v
      ∧ trace (snd result) =
        trace w ++ [GetItem (storage p) (key p); CallForceInit raw;
                    CallDeserialize raw])
  ∧ (stored = None ∨ stored = Some ""
     ∨ (∃ raw, stored = Some raw
               ∧ (forceInit p raw = true ∨ deserialize p raw = None)) →
     fst result = resolved (defaultValue p)
     ∧ suffix (default_events (defaultValue p)) (trace (snd result))).
Proof.
  intros stored result. subst result.
  pose proof (initFromStorage_run p Undefined w) as Hrun. cbn zeta in Hrun.
  fold stored in Hrun. split.
  - intros raw v Hs Hne Hf Hd. rewrite Hrun, Hs.
    apply truthy_nonempty in Hne. by rewrite Hne, Hf, Hd.
  - intros Hcase. rewrite Hrun.
    destruct stored as [raw|]; [|split; [done | ends_with]].
    destruct (Js.truthy raw) eqn:Ht; [|split; [done | ends_with]].
    destruct (forceInit p raw) eqn:Hf; [split; [done | ends_with]|].
    destruct (deserialize p raw) eqn:Hd.
    + exfalso. destruct Hcase as [?|[Hempty|(raw' & Hraw & Hor)]]; try done.
      * injection Hempty as ->. discriminate.
      * injection Hraw as <-. destruct Hor; congruence.
    + split; [done | ends_with].
Qed.

(** C5 (amended). A non-empty stored raw string on which [deserialize]
    throws, [forceInit] being false on it: the exception is caught, the
    entry at the current key is removed and nothing else in storage
    changes, and the call returns the resolved default. *)
Theorem initFromStorage_corrupt p w raw :
  area (storage p) w !! key p = Some raw →
  raw ≠ "" →
  forceInit p raw = false →
  deserialize p raw = None →
  let result := initFromStorage p Undefined w in
  fst result = resolved (defaultValue p)
  ∧ area (storage p) (snd result) = delete (key p) (area (storage p) w)
  ∧ area (storage p) (snd result) !! key p = None
  ∧ (∀ a, a ≠ storage p → area a (snd result) = area a w)
  ∧ trace (snd result) =
    trace w ++ [GetItem (storage p) (key p); CallForceInit raw;
                CallDeserialize raw; RemoveItem (storage p) (key p)]
            ++ default_events (defaultValue p).
Proof.
  intros Hs Hne Hf Hd result. subst result.
  pose proof (initFromStorage_run p Undefined w) as Hrun. cbn zeta in Hrun.
  rewrite Hs in Hrun. apply truthy_nonempty in Hne.
  rewrite Hne, Hf, Hd in Hrun. rewrite Hrun. cbn [fst snd trace].
  assert (Harea : ∀ a,
    area a
      (mkWorld
         (localStorage (with_area (storage p) (delete (key p) (area (storage p) w)) w))
         (sessionStorage (with_area (storage p) (delete (key p) (area (storage p) w)) w))
         (current w) (back w)
         (trace w ++ [GetItem (storage p) (key p)]
            ++ [CallForceInit raw; CallDeserialize raw;
                RemoveItem (storage p) (key p)]
            ++ default_events (defaultValue p)))
    = if decide (a = storage p) then delete (key p) (area (storage p) w)
      else area a w).
  { intros a. destruct a, (storage p); by cbn. }
  repeat split.
  - rewrite Harea. by rewrite decide_True.
  - rewrite Harea, decide_True by done. apply lookup_delete_eq.
  - intros a Ha. rewrite Harea. by rewrite decide_False.
Qed.

(** C10. When [storage.getItem(key)] returns the empty string,
    [initFromStorage] returns the resolved default; it calls neither
    [forceInit] nor [deserialize], and both storage areas are as they
    were: the entry is not removed. *)
Theorem initFromStorage_treats_empty_as_absent p w :
  area (storage p) w !! key p = Some "" →
  let result := initFromStorage p Undefined w in
  fst result = resolved (defaultValue p)
  ∧ trace (snd result) =
    trace w ++ [GetItem (storage p) (key p)] ++ default_events (defaultValue p)
  ∧ localStorage (snd result) = localStorage w
  ∧ sessionStorage (snd result) = sessionStorage w
  ∧ area (storage p) (snd result) !! key p = Some "".
Proof.
  intros Hs result. subst result.
  pose proof (initFromStorage_run p Undefined w) as Hrun. cbn zeta in Hrun.
  rewrite Hs in Hrun. cbn [Js.truthy] in Hrun. rewrite Hrun.
  repeat split. cbn [snd]. by destruct (storage p).
Qed.

(** The guard of the event handler: an event from another area than
    [window.localStorage], for another key, or carrying the serialized
    current value leaves instance and world as they are. *)
Lemma storageChanged_ignored p i (ev : StorageEvent) w :
  ev_storageArea ev ≠ Some LocalStorage
  ∨ ev_key ev ≠ Some (key p)
  ∨ ev_newValue ev = Some (serialize p (value i)) →
  storageChanged p i ev w = (i, w).
Proof.
  intros Hguard. unfold storageChanged.
  destruct Hguard as [Ha|[Hk|Hv]].
  - by rewrite (bool_decide_eq_true_2 _ Ha).
  - rewrite (bool_decide_eq_true_2 _ Hk). by rewrite orb_true_r.
  - rewrite (bool_decide_eq_true_2 _ Hv). by rewrite orb_true_r.
Qed.

(** Rendering an instance at rest again under the same props does
    nothing. *)
Lemma rerender_at_rest p i w : at_rest p i → rerender p i w = (i, w).
Proof.
  intros [_ Hdeps]. unfold rerender, commit. by rewrite decide_True.
Qed.

Lemma dispatch_ignored p i (ev : StorageEvent) w :
  at_rest p i →
  ev_storageArea ev ≠ Some LocalStorage
  ∨ ev_key ev ≠ Some (key p)
  ∨ ev_newValue ev = Some (serialize p (value i)) →
  dispatch p i ev w = (i, w).
Proof.
  intros Hrest Hguard. unfold dispatch. destruct (live p); [|done].
  unfold bind. rewrite storageChanged_ignored by done.
  by apply rerender_at_rest.
Qed.

(** The storing effect, run. *)
Lemma storeEffect_run p i w :
  let a := storage p in
  let w1 :=
    if decide (prevKeyRef i = key p) then w
    else record (RemoveItem a (prevKeyRef i))
           (with_area a (delete (prevKeyRef i) (area a w)) w) in
  storeEffect p i w =
  (mkInstance (value i) (key p) (Some (key p, value i)),
   record (SetItem a (key p) (serialize p (value i)))
     (with_area a (<[key p := serialize p (value i)]> (area a w1)) w1)).
Proof.
  cbn zeta. unfold storeEffect, bind, ret, setItem, removeItem.
  by destruct (decide (prevKeyRef i = key p)).
Qed.

Lemma mount_at_rest p w : at_rest p (fst (mount p w)).
Proof.
  unfold mount, bind. destruct (initFromStorage p Undefined w) as [v w1].
  unfold commit. cbn [storedWith]. rewrite decide_False by done.
  by rewrite storeEffect_run.
Qed.

Lemma at_rest_rendered_under p i : at_rest p i → rendered_under (key p) i.
Proof. intros [Href Hdeps]. split; [done|]. intros k' v. rewrite Hdeps. congruence. Qed.

(** Every render leaves the instance rendered under the key of its
    props. *)
Lemma rerender_rendered_under p k i w :
  rendered_under k i → rendered_under (key p) (fst (rerender p i w)).
Proof.
  intros [Href Hdeps]. unfold rerender, commit.
  destruct (decide (storedWith i = Some (key p, value i))) as [Hs|Hs].
  - cbn [fst ret]. split; [|intros k' v; rewrite Hs; congruence].
    rewrite Href. symmetry. by apply (Hdeps _ _ Hs).
  - rewrite storeEffect_run. cbn zeta. cbn [fst]. split; [done|].
    cbn [storedWith]. intros k' v [= <- _]. reflexivity.
Qed.

(** C6. A render under a new key K2 of an instance last rendered under K1
    removes the entry at K1 and then writes the serialized current value
    under K2, in that order and once each; afterwards K1 is absent, K2
    holds the serialized value, the value is unchanged and the instance is
    at rest under K2. A render of an instance whose ref holds the current
    key removes nothing: it writes at most the entry of that key. *)
Theorem key_migration p1 p2 i w :
  rendered_under (key p1) i →
  key p1 ≠ key p2 →
  let a := storage p2 in
  let r := rerender p2 i w in
  trace (snd r) =
    trace w ++ [RemoveItem a (key p1);
                SetItem a (key p2) (serialize p2 (value i))]
  ∧ area a (snd r) !! key p1 = None
  ∧ area a (snd r) !! key p2 = Some (serialize p2 (value i))
  ∧ value (fst r) = value i
  ∧ at_rest p2 (fst r)
  ∧ (∀ j w',
        prevKeyRef j = key p2 →
        let r' := rerender p2 j w' in
        prevKeyRef (fst r') = key p2
        ∧ (trace (snd r') = trace w'
           ∨ trace (snd r') =
             trace w' ++ [SetItem a (key p2) (serialize p2 (value j))])).
Proof.
  intros [Href Hdeps] Hne a r. subst r.
  assert (Hfresh : storedWith i ≠ Some (key p2, value i)).
  { intros Hs. apply Hne. symmetry. by apply (Hdeps _ _ Hs). }
  split_and!.
  1-5: unfold rerender, commit; rewrite decide_False by done;
       rewrite storeEffect_run; cbn zeta; rewrite Href, decide_False by done;
       cbn [fst snd value].
  - unfold record; cbn [trace]. rewrite trace_with_area. cbn [trace].
    rewrite trace_with_area. by rewrite <- app_assoc.
  - rewrite area_record, area_with_area, area_record, area_with_area.
    rewrite lookup_insert_ne by done. apply lookup_delete_eq.
  - rewrite area_record, area_with_area. apply lookup_insert_eq.
  - done.
  - done.
  - intros j w' Hj r'. subst r'. unfold rerender, commit.
    destruct (decide (storedWith j = Some (key p2, value j))); [by auto|].
    rewrite storeEffect_run. cbn zeta. rewrite decide_True by done.
    split; [done|]. right. unfold record; cbn [snd trace].
    by rewrite trace_with_area.
Qed.

(** C7 (amended). Live sync on [window.localStorage]: an event from that
    area for the current key whose new value is absent or empty, and is
    not the serialized current value, resets the value to the resolved
    default. The handler calls nothing but the default producer: the empty
    string is not deserialized. *)
Theorem storageChanged_cleared p i (ev : StorageEvent) w :
  live p = true →
  storage p = LocalStorage →
  ev_storageArea ev = Some (storage p) →
  ev_key ev = Some (key p) →
  ev_newValue ev = None ∨ ev_newValue ev = Some "" →
  ev_newValue ev ≠ Some (serialize p (value i)) →
  value (fst (dispatch p i ev w)) = resolved (defaultValue p)
  ∧ fst (storageChanged p i ev w) =
    mkInstance (resolved (defaultValue p)) (prevKeyRef i) (storedWith i)
  ∧ trace (snd (storageChanged p i ev w)) =
    trace w ++ default_events (defaultValue p).
Proof.
  intros Hlive Hst Ha Hk Hnew Hne.
  assert (Hsc : storageChanged p i ev w =
    (mkInstance (resolved (defaultValue p)) (prevKeyRef i) (storedWith i),
     mkWorld (localStorage w) (sessionStorage w) (current w) (back w)
       (trace w ++ default_events (defaultValue p)))).
  { unfold storageChanged. rewrite Hst in Ha.
    rewrite (bool_decide_eq_false_2 (ev_storageArea ev ≠ Some LocalStorage))
      by (intros Hc; by apply Hc).
    rewrite (bool_decide_eq_false_2 (ev_key ev ≠ Some (key p)))
      by (intros Hc; by apply Hc).
    rewrite (bool_decide_eq_false_2 _ Hne). cbn [orb].
    unfold fromStorage, bind.
    destruct Hnew as [Hn|Hn]; rewrite Hn; cbn [arg_of_nullable].
    - pose proof (initFromStorage_run p Null w) as Hrun. cbn zeta in Hrun.
      rewrite Hrun. by rewrite app_nil_l.
    - pose proof (initFromStorage_run p (Str "") w) as Hrun. cbn zeta in Hrun.
      rewrite Hrun. cbn [Js.truthy]. by rewrite app_nil_l. }
  split_and!; [|by rewrite Hsc|by rewrite Hsc].
  unfold dispatch, bind. rewrite Hlive, Hsc.
  unfold rerender, commit. cbn [storedWith value].
  destruct (decide _); [done|]. by rewrite storeEffect_run.
Qed.

End Facts.
End UseStorageFacts.

Module UseStorageCases.

Import UseStorage Scenarios UseStorageFacts.

(** "initial state is the stored one": [{"saved":true}] is stored, the
    default is another object; and with nothing stored the default is
    returned. *)
Lemma initFromStorage_first_load_witness :
  let saved := Js.JObj [("saved", Js.JBool true)] in
  let p := jsonProps "some-key" (Js.JObj [("overrides", Js.JBool false)]) in
  fst (initFromStorage p Undefined
         (browser [("some-key", Js.JSON_stringify saved)] [])) = saved
  ∧ fst (initFromStorage p Undefined (browser [] []))
    = Js.JObj [("overrides", Js.JBool false)].
Proof.
  intros saved p. split.
  - refine (proj1 (proj1 (initFromStorage_first_load p
                            (browser [("some-key", Js.JSON_stringify saved)] []))
                     (Js.JSON_stringify saved) saved _ _ _ _)).
    + vm_compute. reflexivity.
    + vm_compute. discriminate.
    + reflexivity.
    + vm_compute. reflexivity.
  - refine (proj1 (proj2 (initFromStorage_first_load p (browser [] [])) _)).
    left. vm_compute. reflexivity.
Defined.

(** C1 fails on the empty string: it is a stored raw string, [forceInit]
    is false on it and [deserialize] (the identity) succeeds on it, yet
    the call returns the default and not [deserialize("")]. *)
Lemma empty_string_is_not_deserialized :
  let p := identityProps "some-key" "initial value" LocalStorage in
  let w := browser [("some-key", "")] [] in
  area (storage p) w !! key p = Some ""
  ∧ forceInit p "" = false
  ∧ deserialize p "" = Some ""
  ∧ fst (initFromStorage p Undefined w) = "initial value"
  ∧ fst (initFromStorage p Undefined w) ≠ "".
Proof. vm_compute. split_and!; try reflexivity. discriminate. Qed.

(** A stored text [JSON.parse] rejects is removed. *)
Lemma initFromStorage_corrupt_witness :
  let p := jsonProps "some-key" Js.JNull in
  let w := browser [("some-key", "{saved")] [] in
  fst (initFromStorage p Undefined w) = Js.JNull
  ∧ area LocalStorage (snd (initFromStorage p Undefined w)) !! "some-key" = None.
Proof.
  intros p w.
  assert (Hstored : area (storage p) w !! key p = Some "{saved")
    by (vm_compute; reflexivity).
  assert (Hne : "{saved" ≠ "") by discriminate.
  assert (Hforce : forceInit p "{saved" = false) by reflexivity.
  assert (Hthrows : deserialize p "{saved" = None) by (vm_compute; reflexivity).
  pose proof (initFromStorage_corrupt p w "{saved" Hstored Hne Hforce Hthrows)
    as (Hv & _ & Hgone & _).
  split; [exact Hv | exact Hgone].
Defined.

(** C5 fails on the empty string: [JSON.parse] throws on it and
    [forceInit] is false, but the entry stays in storage. *)
Lemma empty_string_is_not_removed :
  let p := jsonProps "some-key" Js.JNull in
  let w := browser [("some-key", "")] [] in
  area (storage p) w !! key p = Some ""
  ∧ deserialize p "" = None
  ∧ forceInit p "" = false
  ∧ area (storage p) (snd (initFromStorage p Undefined w)) !! key p = Some ""
  ∧ area (storage p) (snd (initFromStorage p Undefined w)) !! key p ≠ None.
Proof. vm_compute. split_and!; try reflexivity. discriminate. Qed.

Lemma initFromStorage_treats_empty_as_absent_witness :
  let p := identityProps "some-key" "initial value" LocalStorage in
  let w := browser [("some-key", "")] [] in
  fst (initFromStorage p Undefined w) = "initial value"
  ∧ trace (snd (initFromStorage p Undefined w)) = [GetItem LocalStorage "some-key"].
Proof.
  intros p w.
  assert (Hstored : area (storage p) w !! key p = Some "")
    by (vm_compute; reflexivity).
  pose proof (initFromStorage_treats_empty_as_absent p w Hstored) as (Hv & Ht & _).
  split; [exact Hv | exact Ht].
Defined.

(** C2 on an instance configured with [sessionStorage]: an event of
    [window.localStorage], which is not the configured backend, for the
    same key replaces the value, and the render that follows writes it to
    [sessionStorage]. *)
Theorem storageChanged_adopts_foreign_area :
  let p := identityProps "some-key" "initial value" SessionStorage in
  let w0 := mkWorld ∅ {["some-key" := "current"]} (mkLocation "/" []) [] [] in
  let ev := storageEvent "some-key" (Some "other") LocalStorage in
  let mounted := mount p w0 in
  let after := dispatch p (fst mounted) ev (snd mounted) in
  ev_storageArea ev ≠ Some (storage p)
  ∧ value (fst mounted) = "current"
  ∧ value (fst after) = "other"
  ∧ sessionStorage (snd after) !! "some-key" = Some "other"
  ∧ trace (snd after) =
    trace (snd mounted)
      ++ [CallForceInit "other"; CallDeserialize "other";
          SetItem SessionStorage "some-key" "other"].
Proof. vm_compute. split_and!; try reflexivity. discriminate. Qed.

(** "deletes old storage when key is dynamic". *)
Lemma key_migration_witness :
  let p1 := identityProps "initial-key" "default value" LocalStorage in
  let p2 := identityProps "changed-key" "default value" LocalStorage in
  let m := mount p1 (browser [("initial-key", "pre saved")] []) in
  let r := rerender p2 (fst m) (snd m) in
  localStorage (snd r) !! "initial-key" = None
  ∧ localStorage (snd r) !! "changed-key" = Some "pre saved".
Proof.
  intros p1 p2 m r.
  assert (Hne : key p1 ≠ key p2) by discriminate.
  assert (Hunder : rendered_under (key p1) (fst m)).
  { split; [reflexivity|]. intros k' v. vm_compute. intros [= <- _]. reflexivity. }
  pose proof (key_migration p1 p2 (fst m) (snd m) Hunder Hne)
    as (_ & Hold & Hnew & _).
  split; [exact Hold | exact Hnew].
Defined.

(** "when storage is cleared, value should reset". *)
Lemma storageChanged_cleared_witness :
  let p := identityProps "some-key" "initial value" LocalStorage in
  let m := mount p (browser [("some-key", "old value")] []) in
  let ev := storageEvent "some-key" (Some "") LocalStorage in
  value (fst (dispatch p (fst m) ev (snd m))) = "initial value".
Proof.
  intros p m ev.
  refine (proj1 (storageChanged_cleared p (fst m) ev (snd m) _ _ _ _ _ _)).
  - reflexivity.
  - reflexivity.
  - reflexivity.
  - reflexivity.
  - right. reflexivity.
  - vm_compute. discriminate.
Defined.

(** C7 fails when the current value already serializes to the empty
    string: the event with an empty new value is ignored and the value is
    not reset to the default. *)
Lemma storageChanged_empty_echo_is_ignored :
  let p := identityProps "some-key" "initial value" LocalStorage in
  let m := mount p (browser [("some-key", "old value")] []) in
  let s := setValue p (fst m) "" (snd m) in
  let ev := storageEvent "some-key" (Some "") LocalStorage in
  let r := dispatch p (fst s) ev (snd s) in
  live p = true
  ∧ ev_key ev = Some (key p)
  ∧ ev_storageArea ev = Some (storage p)
  ∧ ev_newValue ev = Some ""
  ∧ resolved (defaultValue p) = "initial value"
  ∧ value (fst r) = ""
  ∧ value (fst r) ≠ resolved (defaultValue p).
Proof. vm_compute. split_and!; try reflexivity. discriminate. Qed.

End UseStorageCases.

(* ===================================================================== *)
(** * [JSON.parse] reads back what [JSON.stringify] writes *)
(* ===================================================================== *)

Module JsonFacts.

Import Js.

Lemma app_cons c s t : String c s +:+ t = String c (s +:+ t).
Proof. reflexivity. Qed.

Lemma app_empty t : "" +:+ t = t.
Proof. reflexivity. Qed.

Lemma app_assoc_s (a b c : string) : (a +:+ b) +:+ c = a +:+ (b +:+ c).
Proof. induction a as [|x a IH]; [done|]. by rewrite !app_cons, IH. Qed.

Lemma length_app (a b : string) :
  String.length (a +:+ b) = String.length a + String.length b.
Proof. induction a as [|x a IH]; [done|]. rewrite app_cons. cbn. by rewrite IH. Qed.

(** An induction principle that reaches the values inside lists. *)
Lemma value_rect_nested (P : value → Prop) :
  P JNull →
  (∀ b, P (JBool b)) →
  (∀ z, P (JNum z)) →
  (∀ s, P (JStr s)) →
  (∀ l, Forall P l → P (JArr l)) →
  (∀ l, Forall (λ kv, P (snd kv)) l → P (JObj l)) →
  ∀ v, P v.
Proof.
  intros HNull HBool HNum HStr HArr HObj. fix IH 1. intros [|b|z|s|l|l].
  - exact HNull.
  - apply HBool.
  - apply HNum.
  - apply HStr.
  - apply HArr. induction l as [|x l IHl]; constructor; [apply IH | exact IHl].
  - apply HObj. induction l as [|[k x] l IHl]; constructor; [apply IH | exact IHl].
Qed.

(** *** Strings *)

Lemma parse_chars_escape_char c t :
  parse_chars (escape_char c +:+ t) = cons_char c (parse_chars t).
Proof.
  destruct c as [[] [] [] [] [] [] [] []]; reflexivity.
Qed.

Lemma parse_chars_escape s rest :
  parse_chars (escape s +:+ String dquote rest) = Read (s, rest).
Proof.
  induction s as [|c s IH]; [reflexivity|].
  cbn [escape]. rewrite app_assoc_s, parse_chars_escape_char, IH. reflexivity.
Qed.

(** *** Numbers *)

Lemma lex_digits_stop rest : delimits rest = true → lex_digits rest = (Decimal.Nil, rest).
Proof.
  destruct rest as [|c r]; [done|]. cbn. by destruct (digit_of_char c).
Qed.

Lemma lex_digits_print u rest :
  delimits rest = true →
  lex_digits (NilEmpty.string_of_uint u +:+ rest) = (u, rest).
Proof.
  intros Hrest. induction u; cbn [NilEmpty.string_of_uint];
    rewrite ?app_cons, ?app_empty; [by apply lex_digits_stop|..];
    cbn [lex_digits]; rewrite IHu; reflexivity.
Qed.

Lemma to_uint_no_leading_zero p d : Pos.to_uint p ≠ Decimal.D0 d.
Proof.
  intros Hd.
  pose proof (Unsigned.to_of (Pos.to_uint p)) as Hnorm.
  rewrite Unsigned.of_to in Hnorm. cbn [N.to_uint] in Hnorm.
  unfold Decimal.unorm in Hnorm.
  destruct (Decimal.nzhead (Pos.to_uint p)) eqn:Hz;
    try (apply (nzhead_nonzero (Pos.to_uint p) d); congruence).
  by apply (Unsigned.to_uint_nonzero p).
Qed.

Lemma of_to_uint p : Z.of_uint (Pos.to_uint p) = Zpos p.
Proof. unfold Z.of_uint. by rewrite Unsigned.of_to. Qed.

Lemma string_of_uint_head u :
  u ≠ Decimal.Nil →
  ∃ c r, NilEmpty.string_of_uint u = String c r
         ∧ starts_number c = true ∧ (c =? "-")%char = false.
Proof. destruct u; [done|..]; intros _; eexists _, _; by split_and!. Qed.

Lemma plain_digits_to_uint p : plain_digits (Pos.to_uint p) = true.
Proof.
  pose proof (to_uint_no_leading_zero p) as Hlead.
  pose proof (Unsigned.to_uint_nonnil p) as Hnil.
  destruct (Pos.to_uint p) as [|u|u|u|u|u|u|u|u|u|u]; try done.
  by destruct (Hlead u).
Qed.

Lemma delimits_continues rest : delimits rest = true → continues_number rest = false.
Proof.
  destruct rest as [|c r]; [done|]. unfold delimits.
  destruct (digit_of_char c); [done|]. by intros ?%negb_true_iff.
Qed.

Lemma parse_number_negative s :
  parse_number (String "-" s) =
  let (u, r) := lex_digits s in
  if plain_digits u then
    if continues_number r then Unmodelled
    else if safe_integer (Z.of_uint u) && negb (Z.of_uint u =? 0)%Z
         then Read (JNum (- Z.of_uint u), r) else Unmodelled
  else SyntaxError.
Proof. reflexivity. Qed.

Lemma parse_number_positive c s :
  (c =? "-")%char = false →
  parse_number (String c s) =
  let (u, r) := lex_digits (String c s) in
  if plain_digits u then
    if continues_number r then Unmodelled
    else if safe_integer (Z.of_uint u)
         then Read (JNum (Z.of_uint u), r) else Unmodelled
  else SyntaxError.
Proof.
  intros Hc. unfold parse_number. rewrite Hc.
  destruct (lex_digits (String c s)) as [u r]. cbn [andb negb].
  by rewrite andb_true_r.
Qed.

Lemma safe_integer_neg p : safe_integer (Z.neg p) = safe_integer (Z.pos p).
Proof. unfold safe_integer. simpl Z.abs. reflexivity. Qed.

Lemma parse_number_show z rest :
  safe_integer z = true →
  delimits rest = true →
  parse_number (show_Z z +:+ rest) = Read (JNum z, rest).
Proof.
  intros Hsafe Hrest. pose proof (delimits_continues rest Hrest) as Hcont.
  destruct z as [|p|p]; cbn [show_Z].
  - rewrite app_cons, app_empty, parse_number_positive by done.
    change (String "0" rest)
      with (NilEmpty.string_of_uint (Decimal.D0 Decimal.Nil) +:+ rest).
    rewrite lex_digits_print by done. cbn [plain_digits]. by rewrite Hcont.
  - destruct (string_of_uint_head (Pos.to_uint p) (Unsigned.to_uint_nonnil p))
      as (c & r & Hs & _ & Hminus).
    pose proof (lex_digits_print (Pos.to_uint p) rest Hrest) as Hlex.
    rewrite Hs, app_cons in *. rewrite parse_number_positive, Hlex by done.
    by rewrite plain_digits_to_uint, Hcont, of_to_uint, Hsafe.
  - rewrite app_assoc_s, app_cons, app_empty, parse_number_negative.
    rewrite lex_digits_print by done.
    rewrite plain_digits_to_uint, Hcont, of_to_uint.
    by rewrite <- safe_integer_neg, Hsafe.
Qed.

Lemma show_Z_head z :
  ∃ c r, show_Z z = String c r ∧ starts_number c = true.
Proof.
  destruct z as [|p|p]; cbn [show_Z].
  - by eexists _, _.
  - destruct (string_of_uint_head _ (Unsigned.to_uint_nonnil p))
      as (c & r & -> & Hc & _). by eexists _, _.
  - by eexists _, _.
Qed.

(** *** The equations of the reader *)

Lemma skip_ws_head c r : is_ws c = false → skip_ws (String c r) = String c r.
Proof. intros Hc. cbn [skip_ws]. by rewrite Hc. Qed.

Lemma starts_number_plain c :
  starts_number c = true →
  is_ws c = false ∧ (c =? "]")%char = false ∧ (c =? "}")%char = false.
Proof. destruct c as [[] [] [] [] [] [] [] []]; intros Hc; try discriminate Hc; done. Qed.

Lemma parse_value_number f c r :
  starts_number c = true →
  parse_value (S f) (String c r) = parse_number (String c r).
Proof.
  destruct c as [[] [] [] [] [] [] [] []]; intros Hc; try discriminate Hc;
    reflexivity.
Qed.

Lemma parse_value_string f r :
  parse_value (S f) (String dquote r) =
  match parse_chars r with
  | Read (str, r') => Read (JStr str, r')
  | SyntaxError => SyntaxError
  | Unmodelled => Unmodelled
  end.
Proof. reflexivity. Qed.

Lemma parse_value_array f r :
  parse_value (S f) (String "[" r) =
  match skip_ws r with
  | String c' r' =>
      if (c' =? "]")%char then Read (JArr [], r')
      else
        match parse_elements f r with
        | Read (items, r'') => Read (JArr items, r'')
        | SyntaxError => SyntaxError
        | Unmodelled => Unmodelled
        end
  | EmptyString => SyntaxError
  end.
Proof. reflexivity. Qed.

Lemma parse_value_object f r :
  parse_value (S f) (String "{" r) =
  match skip_ws r with
  | String c' r' =>
      if (c' =? "}")%char then Read (JObj [], r')
      else
        match parse_members f r with
        | Read (members, r'') =>
            if object_keys_ok members then Read (JObj members, r'')
            else Unmodelled
        | SyntaxError => SyntaxError
        | Unmodelled => Unmodelled
        end
  | EmptyString => SyntaxError
  end.
Proof. reflexivity. Qed.

Lemma parse_elements_eq f s :
  parse_elements (S f) s =
  match parse_value f s with
  | Read (v, r) =>
      match skip_ws r with
      | String c r' =>
          if (c =? ",")%char then
            match parse_elements f r' with
            | Read (vs, r'') => Read (v :: vs, r'')
            | SyntaxError => SyntaxError
            | Unmodelled => Unmodelled
            end
          else if (c =? "]")%char then Read ([v], r')
          else SyntaxError
      | EmptyString => SyntaxError
      end
  | SyntaxError => SyntaxError
  | Unmodelled => Unmodelled
  end.
Proof. reflexivity. Qed.

Lemma parse_members_eq f r0 :
  parse_members (S f) (String dquote r0) =
  match parse_chars r0 with
  | Read (k, r1) =>
      match skip_ws r1 with
      | String colon r2 =>
          if (colon =? ":")%char then
            match parse_value f r2 with
            | Read (v, r) =>
                match skip_ws r with
                | String c r' =>
                    if (c =? ",")%char then
                      match parse_members f r' with
                      | Read (ms, r'') => Read ((k, v) :: ms, r'')
                      | SyntaxError => SyntaxError
                      | Unmodelled => Unmodelled
                      end
                    else if (c =? "}")%char then Read ([(k, v)], r')
                    else SyntaxError
                | EmptyString => SyntaxError
                end
            | SyntaxError => SyntaxError
            | Unmodelled => Unmodelled
            end
          else SyntaxError
      | EmptyString => SyntaxError
      end
  | SyntaxError => SyntaxError
  | Unmodelled => Unmodelled
  end.
Proof. reflexivity. Qed.

(** *** The text of a value *)

Lemma quote_app k t : quote k +:+ t = String dquote (escape k +:+ String dquote t).
Proof. unfold quote. by rewrite app_cons, app_assoc_s, app_cons, app_empty. Qed.

Lemma stringify_array x l rest :
  stringify (JArr (x :: l)) +:+ rest =
  String "[" (stringify x +:+ stringify_items l +:+ String "]" rest).
Proof.
  change (stringify (JArr (x :: l)))
    with (String "[" ((stringify x +:+ stringify_items l) +:+ "]")).
  by rewrite app_cons, !app_assoc_s.
Qed.

Lemma stringify_items_cons y l rest :
  stringify_items (y :: l) +:+ rest =
  String "," (stringify y +:+ stringify_items l +:+ rest).
Proof.
  change (stringify_items (y :: l))
    with (String "," (stringify y +:+ stringify_items l)).
  by rewrite app_cons, app_assoc_s.
Qed.

Lemma stringify_object k x l rest :
  stringify (JObj ((k, x) :: l)) +:+ rest =
  String "{" (quote k +:+ String ":" (stringify x +:+ stringify_members l
                                      +:+ String "}" rest)).
Proof.
  change (stringify (JObj ((k, x) :: l)))
    with (String "{" ((quote k +:+ ":" +:+ stringify x +:+ stringify_members l)
                      +:+ "}")).
  by rewrite app_cons, !app_assoc_s.
Qed.

Lemma stringify_members_cons k y l rest :
  stringify_members ((k, y) :: l) +:+ rest =
  String "," (quote k +:+ String ":" (stringify y +:+ stringify_members l
                                      +:+ rest)).
Proof.
  change (stringify_members ((k, y) :: l))
    with (String "," (quote k +:+ ":" +:+ stringify y +:+ stringify_members l)).
  by rewrite app_cons, !app_assoc_s.
Qed.

(** The text of a value starts with a character that is neither white
    space nor a closing bracket. *)
Lemma stringify_head v :
  ∃ c r, stringify v = String c r
         ∧ is_ws c = false ∧ (c =? "]")%char = false ∧ (c =? "}")%char = false.
Proof.
  destruct v as [|[]|z|s|l|l]; try (by eexists _, _).
  destruct (show_Z_head z) as (c & r & Hz & Hc).
  exists c, r. split; [exact Hz | by apply starts_number_plain].
Qed.

Lemma stringify_nonempty v : (1 ≤ String.length (stringify v))%nat.
Proof. destruct (stringify_head v) as (c & r & -> & _). cbn. lia. Qed.

(** *** Reading back *)

Local Ltac lengths :=
  repeat (progress (rewrite ?length_app in *; cbn [String.length] in * ));
  lia.

Lemma parse_elements_print l :
  Forall reads_back l →
  ∀ x, reads_back x →
  ∀ fuel rest,
    (2 * String.length (stringify x +:+ stringify_items l +:+ String "]" rest) + 1
     ≤ fuel)%nat →
    parse_elements fuel (stringify x +:+ stringify_items l +:+ String "]" rest)
    = Read (x :: l, rest).
Proof.
  induction 1 as [|y l Hy Hl IH]; intros x Hx fuel rest Hfuel;
    (destruct fuel as [|fuel]; [lia|]); rewrite parse_elements_eq.
  - change (stringify_items []) with "" in *. rewrite app_empty in *.
    rewrite Hx by (done || lia). reflexivity.
  - pose proof (stringify_nonempty x) as Hlen.
    rewrite stringify_items_cons in *.
    rewrite Hx; [|lengths|done].
    rewrite skip_ws_head by done.
    replace ("," =? ",")%char with true by done.
    rewrite IH; [done|done|lengths].
Qed.

Lemma parse_members_print l :
  Forall (λ kv, reads_back (snd kv)) l →
  ∀ k x, reads_back x →
  ∀ fuel rest,
    (2 * String.length (quote k +:+ String ":" (stringify x +:+ stringify_members l
                                                +:+ String "}" rest)) + 1
     ≤ fuel)%nat →
    parse_members fuel (quote k +:+ String ":" (stringify x +:+ stringify_members l
                                                +:+ String "}" rest))
    = Read ((k, x) :: l, rest).
Proof.
  induction 1 as [|[k' y] l Hy Hl IH]; intros k x Hx fuel rest Hfuel;
    (destruct fuel as [|fuel]; [lia|]);
    rewrite quote_app in *; rewrite parse_members_eq, parse_chars_escape;
    rewrite skip_ws_head by done;
    replace (":" =? ":")%char with true by done.
  - change (stringify_members []) with "" in *. rewrite app_empty in *.
    rewrite Hx; [reflexivity|lengths|done].
  - pose proof (stringify_nonempty x) as Hlen. cbn [snd] in Hy.
    rewrite stringify_members_cons in *.
    rewrite Hx; [|lengths|done].
    rewrite skip_ws_head by done.
    replace ("," =? ",")%char with true by done.
    rewrite IH; [done|done|lengths].
Qed.

Lemma parse_value_print v : representable v = true → reads_back v.
Proof.
  induction v as [|b|z|s|l IH|l IH] using value_rect_nested;
    intros Hrep fuel rest Hfuel Hrest.
  - destruct fuel; [cbn [stringify] in Hfuel; lengths | reflexivity].
  - destruct fuel; [destruct b; cbn [stringify] in Hfuel; lengths | by destruct b].
  - destruct (show_Z_head z) as (c & r & Hz & Hc).
    cbn [stringify] in *.
    destruct fuel; [rewrite Hz in Hfuel; lengths|].
    rewrite Hz, app_cons, parse_value_number by done.
    rewrite <- app_cons, <- Hz. by apply parse_number_show.
  - destruct fuel; [cbn [stringify] in Hfuel; rewrite quote_app in Hfuel; lengths|].
    cbn [stringify]. by rewrite quote_app, parse_value_string, parse_chars_escape.
  - destruct l as [|x l].
    { destruct fuel; [cbn [stringify] in Hfuel; lengths | reflexivity]. }
    rewrite stringify_array in *.
    destruct fuel as [|fuel]; [lengths|].
    cbn [representable forallb] in Hrep. apply andb_true_iff in Hrep as [Hrx Hrl].
    apply Forall_cons in IH as [Hx Hl]. specialize (Hx Hrx).
    assert (Hl' : Forall reads_back l).
    { apply Forall_forall. intros y Hy. apply (proj1 (Forall_forall _ _) Hl y Hy).
      apply (proj1 (forallb_forall _ _) Hrl). by apply list_elem_of_In. }
    rewrite parse_value_array.
    destruct (stringify_head x) as (c & r & Hs & Hws & Hclose & _).
    rewrite Hs, app_cons, skip_ws_head, Hclose by done.
    rewrite <- app_cons, <- Hs.
    rewrite parse_elements_print; [done|done|done|].
    cbn [String.length] in Hfuel. lia.
  - destruct l as [|[k x] l].
    { destruct fuel; [cbn [stringify] in Hfuel; lengths | reflexivity]. }
    rewrite stringify_object in *.
    destruct fuel as [|fuel]; [lengths|].
    cbn [representable] in Hrep. apply andb_true_iff in Hrep as [Hkeys Hrep].
    cbn [forallb snd] in Hrep. apply andb_true_iff in Hrep as [Hrx Hrl].
    apply Forall_cons in IH as [Hx Hl]. cbn [snd] in Hx. specialize (Hx Hrx).
    assert (Hl' : Forall (λ kv, reads_back (snd kv)) l).
    { apply Forall_forall. intros y Hy. apply (proj1 (Forall_forall _ _) Hl y Hy).
      apply (proj1 (forallb_forall _ _) Hrl). by apply list_elem_of_In. }
    rewrite parse_value_object.
    rewrite quote_app, skip_ws_head by done.
    replace (dquote =? "}")%char with false by done.
    rewrite <- quote_app.
    rewrite parse_members_print; [by rewrite Hkeys|done|done|].
    cbn [String.length] in Hfuel. lia.
Qed.

Lemma app_empty_r (s : string) : s +:+ "" = s.
Proof. induction s as [|c s IH]; [done|]. by rewrite app_cons, IH. Qed.

(** [JSON.parse(JSON.stringify(v))] is [v], for every value of the data
    model. *)
Lemma JSON_parse_stringify v :
  representable v = true → JSON_parse (JSON_stringify v) = Read v.
Proof.
  intros Hrep. unfold JSON_parse, JSON_stringify.
  pose proof (parse_value_print v Hrep (S (2 * String.length (stringify v))) "")
    as Hread.
  rewrite app_empty_r in Hread. rewrite Hread; [done|lia|done].
Qed.

Lemma JSON_stringify_nonempty v : JSON_stringify v ≠ "".
Proof.
  unfold JSON_stringify. by destruct (stringify_head v) as (c & r & -> & _).
Qed.

End JsonFacts.

(* ===================================================================== *)
(** * [JSON.parse] throws exactly on what the grammar rejects *)
(* ===================================================================== *)

Module JsonGrammarFacts.
Import Js.

Lemma skip_ws_length s : (String.length (skip_ws s) ≤ String.length s)%nat.
Proof.
  induction s as [|c s IH]; [done|]. cbn [skip_ws].
  destruct (is_ws c); cbn [String.length]; lia.
Qed.

Lemma strip_length pre s r :
  strip pre s = Some r →
  (String.length r + String.length pre = String.length s)%nat.
Proof.
  revert s. induction pre as [|a pre IH]; intros s; cbn [strip].
  - intros [= ->]. cbn. lia.
  - destruct s as [|b s]; [done|]. destruct (a =? b)%char; [|done].
    intros Hs%IH. cbn [String.length]. lia.
Qed.

Lemma skip_chars_length s r :
  skip_chars s = Some r → (String.length r < String.length s)%nat.
Proof.
  remember (String.length s) as n eqn:Hn. revert s r Hn.
  induction n as [n IH] using lt_wf_ind. intros s r -> Hskip.
  destruct s as [|c s]; [done|]. cbn [skip_chars] in Hskip.
  cbn [String.length].
  destruct (c =? dquote)%char; [injection Hskip as ->; lia|].
  destruct (c =? backslash)%char.
  - destruct s as [|e s1]; [done|].
    destruct (e =? "u")%char.
    + destruct s1 as [|h1 [|h2 [|h3 [|h4 r2]]]]; try done.
      destruct (hex4 h1 h2 h3 h4); [|done].
      specialize (IH (String.length r2)). cbn [String.length] in IH.
      specialize (IH ltac:(lia) r2 r eq_refl Hskip). cbn [String.length]. lia.
    + destruct (unescape e); [|done].
      specialize (IH (String.length s1)). cbn [String.length] in IH.
      specialize (IH ltac:(lia) s1 r eq_refl Hskip). cbn [String.length]. lia.
  - destruct (nat_of_ascii c <? 32)%nat; [done|].
    specialize (IH (String.length s)). cbn [String.length] in IH.
    specialize (IH ltac:(lia) s r eq_refl Hskip). cbn [String.length]. lia.
Qed.

Lemma lex_digits_length s :
  (String.length (snd (lex_digits s)) ≤ String.length s)%nat.
Proof.
  induction s as [|c s IH]; [done|]. cbn [lex_digits].
  destruct (digit_of_char c); [|done].
  destruct (lex_digits s) as [digits r]. cbn [snd String.length] in *. lia.
Qed.

Lemma skip_digits_length s r :
  skip_digits s = Some r → (String.length r < String.length s)%nat.
Proof.
  unfold skip_digits. destruct s as [|c s]; [done|]. cbn [lex_digits].
  destruct (digit_of_char c) as [d|]; [|done].
  pose proof (lex_digits_length s) as Hl.
  destruct (lex_digits s) as [digits r']. cbn [snd String.length] in *.
  destruct (d digits); intros [= <-]; lia.
Qed.

Lemma skip_number_length s r :
  skip_number s = Some r → (String.length r < String.length s)%nat.
Proof.
  unfold skip_number.
  set (unsigned := match s with
                   | String c r => if (c =? "-")%char then r else s
                   | EmptyString => s
                   end).
  assert (Hu : (String.length unsigned ≤ String.length s)%nat).
  { subst unsigned. destruct s as [|c s]; [done|].
    destruct (c =? "-")%char; cbn [String.length]; lia. }
  clearbody unsigned.
  set (integer := match unsigned with
                  | String c r => if (c =? "0")%char then Some r
                                  else skip_digits unsigned
                  | EmptyString => None
                  end).
  assert (Hi : ∀ r1, integer = Some r1 →
                     (String.length r1 < String.length unsigned)%nat).
  { subst integer. intros r1. destruct unsigned as [|c u]; [done|].
    destruct (c =? "0")%char.
    - intros [= <-]. cbn [String.length]. lia.
    - apply skip_digits_length. }
  clearbody integer.
  set (fraction := match integer with
                   | Some (String c r as after) =>
                       if (c =? ".")%char then skip_digits r else Some after
                   | other => other
                   end).
  assert (Hf : ∀ r2, fraction = Some r2 →
                     (String.length r2 < String.length unsigned)%nat).
  { subst fraction. intros r2. destruct integer as [[|c r1]|]; [by apply Hi| |done].
    specialize (Hi _ eq_refl). cbn [String.length] in Hi.
    destruct (c =? ".")%char.
    - intros Hd%skip_digits_length. lia.
    - intros [= <-]. cbn [String.length]. lia. }
  clearbody fraction.
  destruct fraction as [[|c r2]|]; [intros [= <-]; specialize (Hf _ eq_refl); lia| |done].
  specialize (Hf _ eq_refl). cbn [String.length] in Hf.
  destruct ((c =? "e") || (c =? "E"))%char.
  - destruct r2 as [|sign r3]; [done|]. cbn [String.length] in Hf.
    destruct ((sign =? "+") || (sign =? "-"))%char;
      intros Hd%skip_digits_length; cbn [String.length] in Hd; lia.
  - intros [= <-]. cbn [String.length]. lia.
Qed.

(** What the recogniser has gone over is not empty. *)
Lemma skip_shrinks fuel :
  (∀ s r, skip_value fuel s = Read r → (String.length r < String.length s)%nat)
  ∧ (∀ s r, skip_elements fuel s = Read r → (String.length r < String.length s)%nat)
  ∧ (∀ s r, skip_members fuel s = Read r → (String.length r < String.length s)%nat).
Proof.
  induction fuel as [|fuel (IHv & IHe & IHm)]; [by split_and!|]. split_and!.
  - intros s r. cbn [skip_value].
    pose proof (skip_ws_length s) as Hws.
    destruct (skip_ws s) as [|c r0] eqn:Hs; [done|]. cbn [String.length] in Hws.
    destruct (c =? "n")%char.
    { destruct (strip _ _) eqn:Hst; [|done]. intros [= <-].
      apply strip_length in Hst. cbn [String.length] in Hst. lia. }
    destruct (c =? "t")%char.
    { destruct (strip _ _) eqn:Hst; [|done]. intros [= <-].
      apply strip_length in Hst. cbn [String.length] in Hst. lia. }
    destruct (c =? "f")%char.
    { destruct (strip _ _) eqn:Hst; [|done]. intros [= <-].
      apply strip_length in Hst. cbn [String.length] in Hst. lia. }
    destruct (c =? dquote)%char.
    { destruct (skip_chars r0) eqn:Hc; [|done]. intros [= <-].
      apply skip_chars_length in Hc. lia. }
    destruct (c =? "[")%char.
    { pose proof (skip_ws_length r0) as Hws0.
      destruct (skip_ws r0) as [|c' r'] eqn:Hs0; [done|].
      cbn [String.length] in Hws0.
      destruct (c' =? "]")%char; [intros [= <-]; lia|].
      intros He%IHe. lia. }
    destruct (c =? "{")%char.
    { pose proof (skip_ws_length r0) as Hws0.
      destruct (skip_ws r0) as [|c' r'] eqn:Hs0; [done|].
      cbn [String.length] in Hws0.
      destruct (c' =? "}")%char; [intros [= <-]; lia|].
      intros He%IHm. lia. }
    destruct (skip_number _) eqn:Hn; [|done]. intros [= <-].
    apply skip_number_length in Hn. cbn [String.length] in Hn. lia.
  - intros s r. cbn [skip_elements].
    destruct (skip_value fuel s) as [r1| |] eqn:Hv; try done.
    apply IHv in Hv. pose proof (skip_ws_length r1) as Hws.
    destruct (skip_ws r1) as [|c r'] eqn:Hs; [done|]. cbn [String.length] in Hws.
    destruct (c =? ",")%char; [intros He%IHe; lia|].
    destruct (c =? "]")%char; [intros [= <-]; lia|done].
  - intros s r. cbn [skip_members].
    pose proof (skip_ws_length s) as Hws.
    destruct (skip_ws s) as [|q r0] eqn:Hs; [done|]. cbn [String.length] in Hws.
    destruct (q =? dquote)%char; [|done].
    destruct (skip_chars r0) as [r1|] eqn:Hc; [|done].
    apply skip_chars_length in Hc. pose proof (skip_ws_length r1) as Hws1.
    destruct (skip_ws r1) as [|colon r2] eqn:Hs1; [done|].
    cbn [String.length] in Hws1.
    destruct (colon =? ":")%char; [|done].
    destruct (skip_value fuel r2) as [r3| |] eqn:Hv; try done.
    apply IHv in Hv. pose proof (skip_ws_length r3) as Hws3.
    destruct (skip_ws r3) as [|c r'] eqn:Hs3; [done|].
    cbn [String.length] in Hws3.
    destruct (c =? ",")%char; [intros He%IHm; lia|].
    destruct (c =? "}")%char; [intros [= <-]; lia|done].
Qed.

(** Two units of fuel per character are enough for the recogniser. *)
Lemma skip_enough fuel :
  (∀ s, (2 * String.length s < fuel)%nat → skip_value fuel s ≠ Unmodelled)
  ∧ (∀ s, (2 * String.length s + 1 < fuel)%nat →
          skip_elements fuel s ≠ Unmodelled)
  ∧ (∀ s, (2 * String.length s + 1 < fuel)%nat →
          skip_members fuel s ≠ Unmodelled).
Proof.
  induction fuel as [|fuel (IHv & IHe & IHm)]; [split_and!; intros; lia|].
  destruct (skip_shrinks fuel) as (Sv & Se & Sm). split_and!.
  - intros s Hfuel. cbn [skip_value].
    pose proof (skip_ws_length s) as Hws.
    destruct (skip_ws s) as [|c r0] eqn:Hs; [done|]. cbn [String.length] in Hws.
    destruct (c =? "n")%char; [by destruct (strip _ _)|].
    destruct (c =? "t")%char; [by destruct (strip _ _)|].
    destruct (c =? "f")%char; [by destruct (strip _ _)|].
    destruct (c =? dquote)%char; [by destruct (skip_chars _)|].
    destruct (c =? "[")%char.
    { destruct (skip_ws r0) as [|c' r']; [done|].
      destruct (c' =? "]")%char; [done|]. apply IHe. lia. }
    destruct (c =? "{")%char.
    { destruct (skip_ws r0) as [|c' r']; [done|].
      destruct (c' =? "}")%char; [done|]. apply IHm. lia. }
    by destruct (skip_number _).
  - intros s Hfuel. cbn [skip_elements].
    pose proof (IHv s) as Hv.
    destruct (skip_value fuel s) as [r1| |] eqn:Hr; [|done|by apply Hv; lia].
    apply Sv in Hr. pose proof (skip_ws_length r1) as Hws.
    destruct (skip_ws r1) as [|c r']; [done|]. cbn [String.length] in Hws.
    destruct (c =? ",")%char; [apply IHe; lia|].
    by destruct (c =? "]")%char.
  - intros s Hfuel. cbn [skip_members].
    pose proof (skip_ws_length s) as Hws.
    destruct (skip_ws s) as [|q r0]; [done|]. cbn [String.length] in Hws.
    destruct (q =? dquote)%char; [|done].
    destruct (skip_chars r0) as [r1|] eqn:Hc; [|done].
    apply skip_chars_length in Hc. pose proof (skip_ws_length r1) as Hws1.
    destruct (skip_ws r1) as [|colon r2]; [done|].
    cbn [String.length] in Hws1.
    destruct (colon =? ":")%char; [|done].
    pose proof (IHv r2) as Hv.
    destruct (skip_value fuel r2) as [r3| |] eqn:Hr; [|done|by apply Hv; lia].
    apply Sv in Hr. pose proof (skip_ws_length r3) as Hws3.
    destruct (skip_ws r3) as [|c r']; [done|]. cbn [String.length] in Hws3.
    destruct (c =? ",")%char; [apply IHm; lia|].
    by destruct (c =? "}")%char.
Qed.

(** [JSON_parse] decides whether [JSON.parse] throws: the answer
    [Unmodelled] is given only on text the grammar accepts, whose value
    lies beyond the data model. *)
Lemma JSON_parse_unmodelled text :
  JSON_parse text = Unmodelled →
  ∃ r, skip_value (S (2 * String.length text)) text = Read r
       ∧ skip_ws r = "".
Proof.
  unfold JSON_parse, json_text. cbn zeta.
  destruct (parse_value _ text) as [[v r]| |].
  - by destruct (skip_ws r).
  - done.
  - pose proof (proj1 (skip_enough (S (2 * String.length text))) text) as Hfuel.
    destruct (skip_value _ text) as [r| |] eqn:Hr.
    + destruct (skip_ws r) eqn:Hw; [by exists r | done].
    + done.
    + exfalso. apply Hfuel; [lia | done].
Qed.

(** Texts with a point or an exponent that are not number literals are
    rejected, as [JSON.parse] rejects them; a number literal with a
    fraction is JSON text beyond the data model. *)
Example JSON_parse_malformed_numbers :
  JSON_parse "1.2.3" = SyntaxError
  ∧ JSON_parse "2." = SyntaxError
  ∧ JSON_parse "3Easy" = SyntaxError
  ∧ JSON_parse "192.168.0.1" = SyntaxError
  ∧ JSON_parse "[1.5" = SyntaxError
  ∧ JSON_parse "1.5" = Unmodelled
  ∧ JSON_parse "[1e3, -0.5]" = Unmodelled.
Proof. vm_compute. by split_and!. Qed.

End JsonGrammarFacts.

(* ===================================================================== *)
(** * [kebabize] on the keys of the documentation *)
(* ===================================================================== *)

Module UrlHelperFacts.

Import UrlHelper.

Example kebabize_filters : kebabize "filters" = "filters".
Proof. reflexivity. Qed.

Example kebabize_userSession : kebabize "userSession" = "user-session".
Proof. reflexivity. Qed.

(** Every capital gets its hyphen, also the first and those in a row. *)
Example kebabize_capitals : kebabize "PageURL2x" = "-page-u-r-l2x".
Proof. reflexivity. Qed.

Lemma hyphenate_no_capital s :
  Forall (λ c, is_upper c = false) (list_ascii_of_string s) → hyphenate s = s.
Proof.
  induction s as [|c s IH]; [done|]. cbn [list_ascii_of_string].
  intros [Hc Hs]%Forall_cons. specialize (IH Hs). cbn [hyphenate].
  destruct s as [|d s]; rewrite Hc; [done|].
  apply Forall_cons in Hs as [Hd _]. rewrite Hd, andb_false_r. by rewrite IH.
Qed.

End UrlHelperFacts.

(* ===================================================================== *)
(** * Properties of [useUrlStorageState] *)
(* ===================================================================== *)

Module UseUrlStorageStateFacts.

Import UrlHelper UseUrlStorageState.

(** *** [URLSearchParams] *)

Lemma params_get_set name v q : params_get name (params_set name v q) = Some v.
Proof.
  induction q as [|[n x] q IH]; cbn.
  - by rewrite String.eqb_refl.
  - destruct (String.eqb n name) eqn:Hn; cbn; by rewrite Hn.
Qed.

Lemma params_delete_idem name q :
  params_delete name (params_delete name q) = params_delete name q.
Proof.
  unfold params_delete. induction q as [|[n x] q IH]; [done|]. cbn.
  destruct (String.eqb n name) eqn:Hn; cbn; [done|]. by rewrite Hn, IH.
Qed.

Lemma params_set_idem name v q :
  params_set name v (params_set name v q) = params_set name v q.
Proof.
  induction q as [|[n x] q IH]; cbn.
  - by rewrite String.eqb_refl.
  - destruct (String.eqb n name) eqn:Hn; cbn; rewrite Hn.
    + by rewrite params_delete_idem.
    + by rewrite IH.
Qed.

Lemma params_set_changes name v q :
  params_get name q = None → params_set name v q ≠ q.
Proof.
  intros Hnone Heq. pose proof (params_get_set name v q) as Hget.
  rewrite Heq in Hget. congruence.
Qed.

(** *** The world after a write and after a navigation *)

Lemma area_setItem a k v w : area a (snd (setItem a k v w)) = <[k := v]> (area a w).
Proof. by destruct a. Qed.

Lemma area_setItem_other a b k v w :
  a ≠ b → area b (snd (setItem a k v w)) = area b w.
Proof. by destruct a, b. Qed.

Lemma current_setItem a k v w : current (snd (setItem a k v w)) = current w.
Proof. by destruct a. Qed.

Lemma back_setItem a k v w : back (snd (setItem a k v w)) = back w.
Proof. by destruct a. Qed.

Lemma trace_setItem a k v w :
  trace (snd (setItem a k v w)) = trace w ++ [SetItem a k v].
Proof. by destruct a. Qed.

Lemma area_navigate a q r w : area a (snd (navigate q r w)) = area a w.
Proof. by destruct a. Qed.

Lemma storageKey_pathname p l1 l2 :
  pathname l1 = pathname l2 → storageKey p l1 = storageKey p l2.
Proof. intros Hp. unfold storageKey. by rewrite Hp. Qed.

Lemma serialize_string s : serializeState (Js.JStr s) = s.
Proof. reflexivity. Qed.

(** *** One round of effects

    For an instance whose ref holds the derived key (the path has not
    changed under it), the effects after a render amount to one
    conditional write, one conditional replace navigation and one
    conditional update of the state cell. *)
Lemma effects_run p loc i w :
  let name := kebabize (key p) in
  let a := UseStorage.storage (storageProps p loc) in
  let k := storageKey p loc in
  let v := UseStorage.value (inner i) in
  let w1 :=
    if decide (UseStorage.storedWith (inner i) = Some (k, v)) then w
    else snd (setItem a k v w) in
  let w2 :=
    if decide (urlFilledWith i = Some (v, key p, search loc)) then w1
    else if Js.truthy_opt (params_get name (search loc)) then w1
         else snd (navigate (params_set name v (search loc)) true w1) in
  let next :=
    if decide (storageSyncedWith i = Some (key p, search loc)) then v
    else syncStorage p loc v in
  UseStorage.prevKeyRef (inner i) = k →
  effects p loc i w =
  (mkBinding (UseStorage.mkInstance next k (Some (k, v)))
     (Some (v, key p, search loc)) (Some (key p, search loc)) loc v,
   w2).
Proof.
  intros name a k v w1 w2 next Href. subst w1 w2 next.
  unfold effects, bind, UseStorage.commit. fold v.
  change (UseStorage.key (storageProps p loc)) with k.
  destruct (decide (UseStorage.storedWith (inner i) = Some (k, v))) as [Hs|Hs].
  - unfold ret at 1. rewrite <- Href at 1. rewrite <- Hs.
    destruct (decide (urlFilledWith i = _)); [done|].
    unfold fillUrl. fold name.
    by destruct (Js.truthy_opt (params_get name (search loc))).
  - rewrite UseStorageFacts.storeEffect_run. cbn zeta.
    change (UseStorage.key (storageProps p loc)) with k.
    destruct (decide (UseStorage.prevKeyRef (inner i) = k)); [|done]. fold v a.
    change (UseStorage.serialize (storageProps p loc) v) with v.
    cbn [UseStorage.prevKeyRef UseStorage.storedWith].
    destruct (decide (urlFilledWith i = _)); [done|].
    unfold fillUrl. fold name.
    by destruct (Js.truthy_opt (params_get name (search loc))).
Qed.

Lemma decide_same {A} (P : Prop) `{Decision P} (x : A) :
  (if decide P then x else x) = x.
Proof. by destruct (decide P). Qed.

Lemma settle_at_rest n p r w : stale (snd r) w = false → settle n p r w = (Some r, w).
Proof. intros Hrest. destruct n; cbn [settle]; by rewrite Hrest. Qed.

Lemma settle_stale n p r w :
  stale (snd r) w = true →
  settle (S n) p r w = (let (r', w') := render p (snd r) w in settle n p r' w').
Proof. intros Hstale. cbn [settle]. by rewrite Hstale. Qed.

Lemma render_eq p i w :
  render p i w =
  (let (i', w') := effects p (current w) i w in ((state p (current w), i'), w')).
Proof. reflexivity. Qed.

Lemma state_absent p loc :
  params_get (kebabize (key p)) (search loc) = None →
  state p loc = Some (defaultValue p).
Proof. intros Hp. unfold state. by rewrite Hp. Qed.

Lemma state_present p loc u :
  params_get (kebabize (key p)) (search loc) = Some u →
  state p loc =
  if Js.truthy u
  then match Js.JSON_parse u with
       | Js.Read x => Some x
       | Js.SyntaxError => Some (Js.JStr u)
       | Js.Unmodelled => None
       end
  else Some (defaultValue p).
Proof. intros Hp. unfold state. rewrite Hp. by destruct (Js.truthy u). Qed.

(** The first render with nothing stored and no parameter. *)
Lemma mount_fresh_run p w :
  let loc := current w in
  let name := kebabize (key p) in
  let sp := storageProps p loc in
  let a := UseStorage.storage sp in
  let k := storageKey p loc in
  let d := serializeState (defaultValue p) in
  let q' := params_set name d (search loc) in
  params_get name (search loc) = None →
  area a w !! k = None →
  firstRender p w =
  ((Some (defaultValue p),
    mkBinding (UseStorage.mkInstance d k (Some (k, d)))
      (Some (d, key p, search loc)) (Some (key p, search loc)) loc d),
   mkWorld (localStorage (with_area a (<[k := d]> (area a w)) w))
     (sessionStorage (with_area a (<[k := d]> (area a w)) w))
     (mkLocation (pathname loc) q') (back w)
     (trace w ++ [GetItem a k; SetItem a k d; Navigate q' true])).
Proof.
  intros loc name sp a k d q' Hparam Hstored.
  unfold firstRender, bind, useLocation.
  pose proof (UseStorageFacts.initFromStorage_run sp UseStorage.Undefined w) as Hinit.
  cbn zeta in Hinit. fold loc sp. fold a k in Hinit.
  change (UseStorage.key sp) with k in Hinit.
  rewrite Hstored in Hinit. rewrite Hinit. clear Hinit.
  change (UseStorage.resolved (UseStorage.defaultValue sp)) with d.
  change (UseStorage.default_events (UseStorage.defaultValue sp)) with (@nil Event).
  rewrite effects_run by done. cbn zeta.
  cbn [inner UseStorage.storedWith UseStorage.value urlFilledWith storageSyncedWith].
  do 3 (case_decide; [done|]).
  fold name. rewrite Hparam. cbn [Js.truthy_opt].
  unfold syncStorage, ret. fold name. rewrite Hparam, state_absent by done.
  fold sp a k q'.
  destruct a, w; cbn; rewrite <- ?app_assoc; reflexivity.
Qed.

(** C4 (amended). With no entry under the derived key and no parameter
    [kebab(K)] in the URL: the first render returns [defaultValue]; the
    renders that follow come to rest, and then storage holds
    [serialize(defaultValue)] under the derived key, the URL carries
    [kebab(K) = serialize(defaultValue)], put there by replace navigations
    only, on the same path and with no history entry added; the current
    value is that parameter read back, which is [defaultValue] unless
    [defaultValue] is a non-empty string that is JSON text. The derived
    key is [<prefix>_<key>] for a non-empty prefix and
    [urlStorage_<pathname>_<key>] otherwise. *)
Theorem mount_fills_storage_and_url p w n :
  let loc := current w in
  let name := kebabize (key p) in
  let a := UseStorage.storage (storageProps p loc) in
  let k := storageKey p loc in
  let d := serializeState (defaultValue p) in
  let q' := params_set name d (search loc) in
  params_get name (search loc) = None →
  area a w !! k = None →
  fst (fst (firstRender p w)) = Some (defaultValue p)
  ∧ (∃ v i w',
        mounted (S n) p w = (Some (v, i), w')
        ∧ settled p i w'
        ∧ area a w' !! k = Some d
        ∧ params_get name (search (current w')) = Some d
        ∧ pathname (current w') = pathname loc
        ∧ back w' = back w
        ∧ history_length w' = history_length w
        ∧ trace w' = trace w ++ [GetItem a k; SetItem a k d; Navigate q' true]
                             ++ (if Js.truthy d then [] else [Navigate q' true])
        ∧ v = state p (current w')
        ∧ ((∀ s, defaultValue p ≠ Js.JStr s) →
           Js.representable (defaultValue p) = true →
           v = Some (defaultValue p))
        ∧ (∀ s, defaultValue p = Js.JStr s →
                s = "" ∨ Js.JSON_parse s = Js.SyntaxError →
                v = Some (defaultValue p)))
  ∧ (∀ pre, prefix p = Some pre → pre ≠ "" → k = pre +:+ "_" +:+ key p)
  ∧ (prefix p = None ∨ prefix p = Some "" →
     k = "urlStorage_" +:+ pathname loc +:+ "_" +:+ key p).
Proof.
  intros loc name a k d q' Hparam Hstored.
  pose proof (mount_fresh_run p w Hparam Hstored) as Hmount. cbn zeta in Hmount.
  fold loc name a k d q' in Hmount. subst name.
  split_and!.
  - by rewrite Hmount.
  - set (loc' := mkLocation (pathname loc) q').
    set (i1 := mkBinding (UseStorage.mkInstance d k (Some (k, d)))
                 (Some (d, key p, search loc)) (Some (key p, search loc)) loc d)
      in Hmount.
    set (w1 := mkWorld _ _ _ _ _) in Hmount.
    assert (Hk : storageKey p loc' = k) by (by apply storageKey_pathname).
    assert (Hq : q' ≠ search loc) by (by apply params_set_changes).
    assert (Hget : params_get (kebabize (key p)) q' = Some d)
      by apply params_get_set.
    set (w2 := if Js.truthy d then w1
               else snd (navigate (params_set (kebabize (key p)) d q') true w1)).
    set (i2 := mkBinding (UseStorage.mkInstance d k (Some (k, d)))
                 (Some (d, key p, q')) (Some (key p, q')) loc' d).
    assert (Hrender : render p i1 w1 = ((state p loc', i2), w2)).
    { rewrite render_eq. change (current w1) with loc'.
      rewrite effects_run by (by rewrite Hk). cbn zeta. rewrite Hk.
      cbn [inner UseStorage.storedWith UseStorage.value urlFilledWith
             storageSyncedWith search loc' i1].
      repeat case_decide; try congruence.
      rewrite Hget. cbn [Js.truthy_opt].
      unfold syncStorage. change (search loc') with q'. rewrite Hget.
      subst w2 i2. by destruct (Js.truthy d). }
    assert (Hcur : current w2 = loc').
    { subst w2. destruct (Js.truthy d); [done|].
      unfold navigate. cbn [snd current]. subst q'.
      by rewrite params_set_idem. }
    exists (state p loc'), i2, w2.
    assert (Harea : area a w2 = <[k := d]> (area a w)).
    { subst w2. destruct (Js.truthy d); rewrite ?area_navigate;
        subst w1; by destruct a. }
    split_and!.
    + unfold mounted, bind. rewrite Hmount.
      rewrite settle_stale.
      2:{ unfold stale. apply negb_true_iff, bool_decide_eq_false.
          cbn [snd seenLocation]. intros [Hc _]. apply Hq.
          by apply (f_equal search) in Hc. }
      cbn [snd]. rewrite Hrender. apply settle_at_rest.
      unfold stale. apply negb_false_iff, bool_decide_eq_true. by rewrite Hcur.
    + unfold settled. rewrite Hcur. cbn zeta.
      change (UseStorage.storage (storageProps p loc')) with a.
      change (UseStorage.key (storageProps p loc')) with (storageKey p loc').
      unfold UseStorage.at_rest.
      change (UseStorage.key (storageProps p loc')) with (storageKey p loc').
      rewrite Hk, Harea. split_and!; try done. apply lookup_insert_eq.
    + rewrite Harea. apply lookup_insert_eq.
    + by rewrite Hcur.
    + by rewrite Hcur.
    + subst w2. by destruct (Js.truthy d).
    + unfold history_length. f_equal. f_equal. subst w2. by destruct (Js.truthy d).
    + subst w2. destruct (Js.truthy d); unfold navigate; cbn [snd trace];
        subst w1 q'; cbn [trace]; rewrite ?params_set_idem;
        by rewrite <- ?app_assoc, ?app_nil_r.
    + by rewrite Hcur.
    + intros Hns Hrep. rewrite (state_present p loc' d) by done.
      destruct (Js.truthy d); [|done]. subst d.
      destruct (defaultValue p) eqn:Hd; try (by destruct (Hns s));
        cbn [serializeState]; rewrite <- Hd in *;
        by rewrite JsonFacts.JSON_parse_stringify.
    + intros s Hs Hor. rewrite (state_present p loc' d) by done.
      subst d. rewrite Hs. cbn [serializeState].
      destruct Hor as [->|Hnone]; [done|]. rewrite Hnone. by destruct (Js.truthy s).
  - intros pre Hpre Hne. subst k. unfold storageKey. rewrite Hpre.
    by destruct pre.
  - intros [Hpre|Hpre]; subst k; unfold storageKey; by rewrite Hpre.
Qed.

(** [useState(initFromStorage)] of the inner hook: the stored string when
    there is a non-empty one, else the serialized default. Storage and
    history are untouched. *)
Lemma initFromStorage_url p w :
  let sp := storageProps p (current w) in
  let r := UseStorage.initFromStorage sp UseStorage.Undefined w in
  fst r =
    match area (UseStorage.storage sp) w !! storageKey p (current w) with
    | Some s => if Js.truthy s then s else serializeState (defaultValue p)
    | None => serializeState (defaultValue p)
    end
  ∧ (∀ a, area a (snd r) = area a w)
  ∧ current (snd r) = current w
  ∧ back (snd r) = back w.
Proof.
  intros sp r. subst r.
  pose proof (UseStorageFacts.initFromStorage_run sp UseStorage.Undefined w) as Hinit.
  cbn zeta in Hinit. rewrite Hinit.
  change (UseStorage.key sp) with (storageKey p (current w)).
  destruct (area _ w !! _) as [s|]; [destruct (Js.truthy s)|];
    (split_and!; [done | by intros [] | done | done]).
Qed.

(** C3 (amended). The parameter [kebab(K)] is present in the URL with a
    non-empty value [u]. Whatever storage holds under the derived key,
    once the renders have come to rest it holds [u] there, the state cell
    of the inner hook is [u], and the location is the one the renders
    started from: the hook has not navigated. This holds for the renders
    that follow mounting, and for those that follow an external
    navigation under an instance at rest. *)
Theorem url_parameter_wins p u n :
  let name := kebabize (key p) in
  u ≠ "" →
  (∀ w,
      params_get name (search (current w)) = Some u →
      ∃ v i w',
        mounted (S n) p w = (Some (v, i), w')
        ∧ settled p i w'
        ∧ area (UseStorage.storage (storageProps p (current w))) w'
            !! storageKey p (current w) = Some u
        ∧ UseStorage.value (inner i) = u
        ∧ current w' = current w
        ∧ back w' = back w
        ∧ v = state p (current w))
  ∧ (∀ w0 i0 v0 q,
        settled p i0 w0 →
        q ≠ search (current w0) →
        params_get name q = Some u →
        let w := externalNavigation q w0 in
        ∃ v i w',
          settle (S (S n)) p (v0, i0) w = (Some (v, i), w')
          ∧ settled p i w'
          ∧ area (UseStorage.storage (storageProps p (current w))) w'
              !! storageKey p (current w) = Some u
          ∧ UseStorage.value (inner i) = u
          ∧ current w' = current w
          ∧ back w' = back w
          ∧ v = state p (current w)).
Proof.
  intros name Hu. apply UseStorageFacts.truthy_nonempty in Hu. subst name.
  (* a render under an instance whose sync effect has not seen the
     location, then at most one more *)
  assert (Hstep : ∀ w i n',
    params_get (kebabize (key p)) (search (current w)) = Some u →
    UseStorage.prevKeyRef (inner i) = storageKey p (current w) →
    storageSyncedWith i ≠ Some (key p, search (current w)) →
    (UseStorage.storedWith (inner i)
       = Some (storageKey p (current w), UseStorage.value (inner i)) →
     area (UseStorage.storage (storageProps p (current w))) w
       !! storageKey p (current w) = Some (UseStorage.value (inner i))) →
    ∃ i' w',
      (let (r', w1) := render p i w in settle (S n') p r' w1)
        = (Some (state p (current w), i'), w')
      ∧ settled p i' w'
      ∧ area (UseStorage.storage (storageProps p (current w))) w'
          !! storageKey p (current w) = Some u
      ∧ UseStorage.value (inner i') = u
      ∧ current w' = current w
      ∧ back w' = back w).
  { intros w i n' Hget Href Hsync Hstored.
    set (loc := current w) in *. set (k := storageKey p loc) in *.
    set (a := UseStorage.storage (storageProps p loc)) in *.
    set (v1 := UseStorage.value (inner i)) in *.
    rewrite render_eq. fold loc. rewrite effects_run by done. cbn zeta.
    fold k a v1. rewrite Hget. cbn [Js.truthy_opt]. rewrite Hu.
    rewrite (decide_False (P := storageSyncedWith i = _)) by done.
    unfold syncStorage. rewrite Hget, Hu. cbn [negb].
    set (w1 := if decide (UseStorage.storedWith (inner i) = Some (k, v1))
               then w else snd (setItem a k v1 w)).
    rewrite decide_same.
    set (i1 := mkBinding (UseStorage.mkInstance u k (Some (k, v1)))
                 (Some (v1, key p, search loc)) (Some (key p, search loc)) loc v1).
    assert (Hcur1 : current w1 = loc).
    { subst w1. destruct (decide _); [done|]. by rewrite current_setItem. }
    assert (Hback1 : back w1 = back w).
    { subst w1. destruct (decide _); [done|]. by rewrite back_setItem. }
    assert (Harea1 : area a w1 !! k = Some v1).
    { subst w1. destruct (decide _) as [Hs|Hs]; [by apply Hstored|].
      rewrite area_setItem. apply lookup_insert_eq. }
    destruct (decide (u = v1)) as [Heq|Hne].
    - exists i1, w1. split_and!; try done.
      + apply settle_at_rest. unfold stale.
        apply negb_false_iff, bool_decide_eq_true. by rewrite Hcur1.
      + unfold settled. rewrite Hcur1. cbn zeta. fold k a.
        unfold UseStorage.at_rest.
        change (UseStorage.key (storageProps p loc)) with k.
        subst i1. cbn. rewrite <- Heq in *. by split_and!.
      + by rewrite Heq.
    - set (w2 := snd (setItem a k u w1)).
      set (i2 := mkBinding (UseStorage.mkInstance u k (Some (k, u)))
                   (Some (u, key p, search loc)) (Some (key p, search loc)) loc u).
      assert (Hrender : render p i1 w1 = ((state p loc, i2), w2)).
      { rewrite render_eq, Hcur1. rewrite effects_run by done. cbn zeta.
        fold k a. subst i1.
        cbn [inner UseStorage.storedWith UseStorage.value urlFilledWith
               storageSyncedWith].
        repeat case_decide; try congruence.
        rewrite Hget. cbn [Js.truthy_opt]. by rewrite Hu. }
      exists i2, w2. split_and!.
      + rewrite settle_stale.
        2:{ unfold stale. apply negb_true_iff, bool_decide_eq_false.
            subst i1. cbn. intros [_ Hc]. by apply Hne. }
        cbn [snd]. rewrite Hrender. apply settle_at_rest.
        unfold stale. apply negb_false_iff, bool_decide_eq_true.
        subst w2. by rewrite current_setItem.
      + unfold settled. subst w2. rewrite current_setItem, Hcur1. cbn zeta.
        fold k a. unfold UseStorage.at_rest.
        change (UseStorage.key (storageProps p loc)) with k.
        rewrite area_setItem. subst i2. cbn. split_and!; try done.
        apply lookup_insert_eq.
      + subst w2. rewrite area_setItem. apply lookup_insert_eq.
      + done.
      + subst w2. by rewrite current_setItem.
      + subst w2. by rewrite back_setItem. }
  split.
  - intros w Hget.
    destruct (initFromStorage_url p w) as (Hv & Harea & Hcur & Hback).
    cbn zeta in *.
    unfold mounted, bind, firstRender, useLocation.
    destruct (UseStorage.initFromStorage _ _ w) as [v1 w0] eqn:Hinit.
    cbn [fst snd] in *.
    set (i0 := mkBinding (UseStorage.mkInstance v1 (storageKey p (current w)) None)
                 None None (current w) v1).
    pose proof (Hstep w0 i0 n) as Hs.
    rewrite Hcur in Hs.
    destruct Hs as (i' & w' & Hrun & Hrest & Hst & Hval & Hc & Hb);
      [done|done|done|done|].
    exists (state p (current w)), i', w'.
    rewrite render_eq, Hcur in Hrun.
    unfold bind, ret. rewrite Hinit. fold i0.
    destruct (effects p (current w) i0 w0) as [i1 w1].
    split_and!; try done. by rewrite Hb.
  - intros w0 i0 v0 q (Hseen & Hss & [Href Hdeps] & Hfill & Hsync & Hstored) Hq Hget w.
    assert (Hk : storageKey p (current w) = storageKey p (current w0))
      by (by apply storageKey_pathname).
    pose proof (Hstep w i0 n) as Hs.
    destruct Hs as (i' & w' & Hrun & Hrest & Hst & Hval & Hc & Hb).
    + done.
    + by rewrite Hk.
    + rewrite Hsync. intros Heq. apply Hq. by injection Heq.
    + intros _. rewrite Hk. exact Hstored.
    + exists (state p (current w)), i', w'. split_and!; try done.
      rewrite settle_stale; [exact Hrun|].
      unfold stale. apply negb_true_iff, bool_decide_eq_false.
      cbn [snd]. rewrite Hseen. intros [Hc' _]. apply Hq.
      by apply (f_equal search) in Hc'.
Qed.

End UseUrlStorageStateFacts.

(** *** The setter *)

Module UpdateStateFacts.

Import UrlHelper UseUrlStorageState.

(** With a storage state that is JSON text, the updater receives the
    parsed storage state, and its result is serialized into the parameter
    by a push navigation. *)
Lemma updateState_updater p loc storageState f prev w :
  Js.JSON_parse storageState = Js.Read prev →
  let q := params_set (kebabize (key p)) (serializeState (f prev)) (search loc) in
  updateState p loc storageState (Updater f) w =
  (Returned tt,
   mkWorld (localStorage w) (sessionStorage w)
     (mkLocation (pathname (current w)) q) (current w :: back w)
     (trace w ++ [CallUpdater prev; ConsoleLog (f prev); Navigate q false])).
Proof.
  intros Hparse q. unfold updateState, bind, ret, emit, navigate, record.
  rewrite Hparse. cbn. by rewrite <- !app_assoc.
Qed.

(** With a storage state that is not JSON text, [JSON.parse] throws: the
    updater is not called and nothing is navigated. *)
Lemma updateState_updater_throws p loc storageState f w :
  Js.JSON_parse storageState = Js.SyntaxError →
  updateState p loc storageState (Updater f) w = (ThrewSyntaxError, w).
Proof. intros Hparse. unfold updateState, bind, ret. by rewrite Hparse. Qed.

(** C9 on a string-typed state: after
    [useUrlStorageState({ key: 'key', defaultValue: 'default' })] has come
    to rest, the storage state is the text [default], which is not JSON;
    the setter called with an updater throws, the updater is never called
    and the URL is not touched. *)
Theorem updateState_throws_on_string_state :
  let f := λ prev, match prev with
                   | Js.JStr s => Js.JStr (s +:+ "!")
                   | other => other
                   end in
  match mounted 1 Scenarios.defaultParams (Scenarios.browser [] []) with
  | (Some (v, i), w) =>
      v = Some (Js.JStr "default")
      ∧ seenStorageState i = "default"
      ∧ seenLocation i = current w
      ∧ updateState Scenarios.defaultParams (seenLocation i) (seenStorageState i)
          (Updater f) w
        = (ThrewSyntaxError, w)
  | _ => False
  end.
Proof. vm_compute. by split_and!. Qed.

End UpdateStateFacts.

(** *** Round trips *)

Module RoundTrip.

Import UrlHelper UseUrlStorageState.

(** C8 (amended). [JSON.parse(JSON.stringify(V))] is [V] for every value
    of the data model. The inner hook of the URL binder stores strings as
    they are and reads them back as they are. A value written into the URL
    parameter by [serializeState] is read back as itself when it is not a
    string, and when it is a non-empty string that [JSON.parse] rejects. *)
Theorem serialize_round_trip :
  (∀ v, Js.representable v = true →
        Js.JSON_parse (Js.JSON_stringify v) = Js.Read v)
  ∧ (∀ p loc s,
        UseStorage.deserialize (storageProps p loc)
          (UseStorage.serialize (storageProps p loc) s) = Some s)
  ∧ (∀ p loc v,
        params_get (kebabize (key p)) (search loc) = Some (serializeState v) →
        ((∀ s, v ≠ Js.JStr s) → Js.representable v = true →
         state p loc = Some v)
        ∧ (∀ s, v = Js.JStr s → s ≠ "" → Js.JSON_parse s = Js.SyntaxError →
                state p loc = Some v)).
Proof.
  split_and!.
  - apply JsonFacts.JSON_parse_stringify.
  - done.
  - intros p loc v Hget. rewrite (UseUrlStorageStateFacts.state_present p loc _ Hget).
    split.
    + intros Hns Hrep.
      destruct v; try (by destruct (Hns s)); cbn [serializeState];
        (rewrite JsonFacts.JSON_parse_stringify by done;
         match goal with
         | |- (if Js.truthy ?t then _ else _) = _ =>
             destruct t eqn:Ht;
             [by destruct (JsonFacts.JSON_stringify_nonempty _ Ht) | done]
         end).
    + intros s -> Hne Hnone. cbn [serializeState]. rewrite Hnone.
      apply UseStorageFacts.truthy_nonempty in Hne. by rewrite Hne.
Qed.

(** An object, a plain word and a version string, which is no number
    literal, come back from the URL as they went in. *)
Lemma serialize_round_trip_witness :
  let p := Scenarios.defaultParams in
  let filters := Js.JObj [("search", Js.JStr ""); ("category", Js.JStr "all")] in
  state p (mkLocation "/" [("key", serializeState filters)]) = Some filters
  ∧ state p (mkLocation "/" [("key", serializeState (Js.JStr "fromUrl"))])
    = Some (Js.JStr "fromUrl")
  ∧ state p (mkLocation "/" [("key", serializeState (Js.JStr "1.2.3"))])
    = Some (Js.JStr "1.2.3").
Proof.
  intros p filters. split_and!.
  - refine (proj1 (proj2 (proj2 serialize_round_trip) p _ filters _) _ _).
    + reflexivity.
    + intros s. discriminate.
    + vm_compute. reflexivity.
  - refine (proj2 (proj2 (proj2 serialize_round_trip) p _ (Js.JStr "fromUrl") _)
              "fromUrl" _ _ _).
    + reflexivity.
    + reflexivity.
    + discriminate.
    + vm_compute. reflexivity.
  - refine (proj2 (proj2 (proj2 serialize_round_trip) p _ (Js.JStr "1.2.3") _)
              "1.2.3" _ _ _).
    + reflexivity.
    + reflexivity.
    + discriminate.
    + vm_compute. reflexivity.
Defined.

(** C8 fails for the URL binder on a string that is JSON text: the string
    [123] is written as [123] and read back as the number 123. *)
Lemma url_round_trip_fails_on_json_text :
  let p := Scenarios.defaultParams in
  let v := Js.JStr "123" in
  let loc := mkLocation "/" [("key", serializeState v)] in
  params_get (kebabize (key p)) (search loc) = Some (serializeState v)
  ∧ state p loc = Some (Js.JNum 123)
  ∧ state p loc ≠ Some v.
Proof. vm_compute. split_and!; try reflexivity. discriminate. Qed.

End RoundTrip.

(** *** Scenarios of use-url-storage-state.test.tsx *)

Module UseUrlStorageStateCases.

Import UrlHelper UseUrlStorageState Scenarios UseUrlStorageStateFacts.

(** "overrides state from URL to storage". *)
Lemma url_parameter_wins_witness :
  ∃ v i w',
    mounted 1 defaultParams (browser [] [("key", "fromUrl")]) = (Some (v, i), w')
    ∧ localStorage w' !! "urlStorage_/_key" = Some "fromUrl"
    ∧ v = Some (Js.JStr "fromUrl").
Proof.
  assert (Hne : "fromUrl" ≠ "") by discriminate.
  destruct (proj1 (url_parameter_wins defaultParams "fromUrl" 0 Hne)
              (browser [] [("key", "fromUrl")]) eq_refl)
    as (v & i & w' & Hrun & _ & Hstored & _ & _ & _ & Hv).
  exists v, i, w'. split_and!; [exact Hrun | exact Hstored | exact Hv].
Defined.

(** C3 fails for a parameter that is present with the empty value: the
    stored value [x] differs from it, and after the renders have come to
    rest storage still holds [x] while the parameter has been overwritten
    with [x]. *)
Lemma empty_url_parameter_loses :
  let w := browser [("urlStorage_/_key", "x")] [("key", "")] in
  params_get (kebabize (key defaultParams)) (search (current w)) = Some ""
  ∧ localStorage w !! storageKey defaultParams (current w) = Some "x"
  ∧ match mounted 1 defaultParams w with
    | (Some (v, i), w') =>
        localStorage w' !! storageKey defaultParams (current w) = Some "x"
        ∧ localStorage w' !! storageKey defaultParams (current w) ≠ Some ""
        ∧ params_get (kebabize (key defaultParams)) (search (current w'))
          = Some "x"
    | _ => False
    end.
Proof. vm_compute. split_and!; try reflexivity. discriminate. Qed.

(** "initializes state from given defaultState if URL is empty and storage
    has no relevant data for path"; and a default that is a version
    string, which [JSON.parse] rejects, comes back as itself. *)
Lemma mount_fills_storage_and_url_witness :
  let w := browser [] [("existing", "untouched")] in
  let version := mkParams "key" (Js.JStr "1.2.3") None None in
  (fst (fst (firstRender defaultParams w)) = Some (Js.JStr "default")
   ∧ ∃ v i w',
       mounted 1 defaultParams w = (Some (v, i), w')
       ∧ localStorage w' !! "urlStorage_/_key" = Some "default"
       ∧ search (current w') = [("existing", "untouched"); ("key", "default")]
       ∧ history_length w' = history_length w
       ∧ v = Some (Js.JStr "default"))
  ∧ ∃ v i w',
      mounted 1 version (browser [] []) = (Some (v, i), w')
      ∧ v = Some (Js.JStr "1.2.3").
Proof.
  intros w version. split.
  - assert (Hparam : params_get (kebabize (key defaultParams)) (search (current w))
                     = None) by reflexivity.
    assert (Hstored : area (UseStorage.storage (storageProps defaultParams (current w))) w
                        !! storageKey defaultParams (current w) = None)
      by (vm_compute; reflexivity).
    destruct (mount_fills_storage_and_url defaultParams w 0 Hparam Hstored)
      as (Hfirst & (v & i & w' & Hrun & _ & Hst & _ & _ & _ & Hlen & _ & _ & _ & Hv)
          & _ & _).
    split; [exact Hfirst|].
    exists v, i, w'.
    assert (Hw' : current w' = mkLocation "/" [("existing", "untouched"); ("key", "default")]).
    { revert Hrun. vm_compute. intros [= _ _ <-]. reflexivity. }
    split_and!; [exact Hrun | exact Hst | by rewrite Hw' | exact Hlen |].
    apply (Hv "default"); [reflexivity | right; vm_compute; reflexivity].
  - assert (Hparam : params_get (kebabize (key version))
                       (search (current (browser [] []))) = None) by reflexivity.
    assert (Hstored : area (UseStorage.storage
                              (storageProps version (current (browser [] []))))
                        (browser [] [])
                        !! storageKey version (current (browser [] [])) = None)
      by (vm_compute; reflexivity).
    destruct (mount_fills_storage_and_url version (browser [] []) 0 Hparam Hstored)
      as (_ & (v & i & w' & Hrun & _ & _ & _ & _ & _ & _ & _ & _ & _ & Hv) & _).
    exists v, i, w'. split; [exact Hrun|].
    apply (Hv "1.2.3"); [reflexivity | right; vm_compute; reflexivity].
Defined.

(** C4 fails on a default that is a string of JSON text, and on an empty
    prefix: with [defaultValue: '123'] and [prefix: ''], the value at rest
    is the number 123, not the default; and the entry is under
    [urlStorage_/_key], not under [_key]. *)
Lemma json_text_default_is_parsed :
  let p := mkParams "key" (Js.JStr "123") (Some "") None in
  let w := browser [] [] in
  params_get (kebabize (key p)) (search (current w)) = None
  ∧ localStorage w !! storageKey p (current w) = None
  ∧ match mounted 1 p w with
    | (Some (v, i), w') =>
        v = Some (Js.JNum 123)
        ∧ v ≠ Some (defaultValue p)
        ∧ localStorage w' !! ("" +:+ "_" +:+ key p) = None
        ∧ localStorage w' !! ("urlStorage_" +:+ "/" +:+ "_" +:+ key p)
          = Some "123"
    | _ => False
    end.
Proof. vm_compute. split_and!; try reflexivity. discriminate. Qed.

End UseUrlStorageStateCases.

(* ===================================================================== *)
(** * More of [useStorage]: the storing effect, the setter, live events *)
(* ===================================================================== *)

Module UseStorageMore.
Section More.

Import UseStorage UseStorageFacts.
Context {V : Type} `{EqDecision V}.
Implicit Types (p : StorageProps V) (i : Instance V) (w : World).

(** [initFromStorage] touches at most the entry of its key in its own
    storage area, and never the history. *)
Lemma initFromStorage_frame p arg w :
  let r := initFromStorage p arg w in
  (∀ a k', a ≠ storage p ∨ k' ≠ key p →
           area a (snd r) !! k' = area a w !! k')
  ∧ current (snd r) = current w
  ∧ back (snd r) = back w.
Proof.
  cbn zeta. pose proof (initFromStorage_run p arg w) as Hrun. cbn zeta in Hrun.
  destruct arg; rewrite Hrun; clear Hrun.
  1: destruct (area (storage p) w !! key p) as [raw|].
  all: try destruct (Js.truthy _); try destruct (forceInit p _);
       try destruct (deserialize p _).
  all: split_and!; try done; intros a k' Hor; try (by destruct a).
  all: destruct a, (storage p); cbn; try done;
       destruct Hor as [?|?]; try done; by rewrite lookup_delete_ne.
Qed.

(** The world after the storing effect of an instance whose ref holds
    the key. *)
Lemma commit_fresh_run p i w :
  prevKeyRef i = key p →
  storedWith i ≠ Some (key p, value i) →
  commit p i w =
  (mkInstance (value i) (key p) (Some (key p, value i)),
   snd (setItem (storage p) (key p) (serialize p (value i)) w)).
Proof.
  intros Href Hdeps. unfold commit. rewrite decide_False by done.
  rewrite storeEffect_run. cbn zeta. by rewrite decide_True.
Qed.

Lemma area_setItem_lookup a b k k' v w :
  area b (snd (setItem a k v w)) !! k' =
  if decide (b = a ∧ k' = k) then Some v else area b w !! k'.
Proof.
  destruct a, b; cbn; case_decide as Hd; try (by destruct Hd).
  all: try done.
  all: try (destruct Hd as [_ ->]; by rewrite lookup_insert_eq).
  all: rewrite lookup_insert_ne; [done|]; intros ->; by apply Hd.
Qed.

(** X1. After the first render and its effects the instance is at rest
    and the configured storage holds [serialize(value)] under the key,
    whatever it held before (nothing, an empty string, a value the
    instance adopted, one [forceInit] rejected or one [deserialize] threw
    on). No other entry of that area and nothing of the other area is
    touched, and the history is left alone. *)
Theorem mount_stores_value p w :
  let r := mount p w in
  value (fst r) = fst (initFromStorage p Undefined w)
  ∧ at_rest p (fst r)
  ∧ area (storage p) (snd r) !! key p = Some (serialize p (value (fst r)))
  ∧ (∀ a k', a ≠ storage p ∨ k' ≠ key p →
             area a (snd r) !! k' = area a w !! k')
  ∧ current (snd r) = current w
  ∧ back (snd r) = back w.
Proof.
  cbn zeta. destruct (initFromStorage_frame p Undefined w) as (Hframe & Hcur & Hback).
  cbn zeta in *. unfold mount, bind.
  destruct (initFromStorage p Undefined w) as [v w1]. cbn [fst snd] in *.
  rewrite commit_fresh_run by done. cbn [fst snd value].
  split_and!; try done.
  - rewrite area_setItem_lookup. by rewrite decide_True.
  - intros a k' Hor. rewrite area_setItem_lookup.
    rewrite decide_False by (intros [-> ->]; by destruct Hor).
    by apply Hframe.
  - by rewrite UseUrlStorageStateFacts.current_setItem.
  - by rewrite UseUrlStorageStateFacts.back_setItem.
Qed.

(** X2. The setter on an instance at rest: the instance takes the value
    and is at rest again; the render the call causes reads nothing,
    removes nothing and writes at most the entry of the key, by one
    [setItem(key, serialize(v))]; when the value differs from the one
    held, that write takes place. (Whether a value equal in content to
    the one held is written once more is React's comparison by identity:
    both outcomes are allowed for.) *)
Theorem setValue_writes_through p i v w :
  at_rest p i →
  let r := setValue p i v w in
  let write := SetItem (storage p) (key p) (serialize p v) in
  value (fst r) = v
  ∧ at_rest p (fst r)
  ∧ (trace (snd r) = trace w ∨ trace (snd r) = trace w ++ [write])
  ∧ (∀ a k', a ≠ storage p ∨ k' ≠ key p →
             area a (snd r) !! k' = area a w !! k')
  ∧ (v ≠ value i →
     trace (snd r) = trace w ++ [write]
     ∧ area (storage p) (snd r) = <[key p := serialize p v]> (area (storage p) w)).
Proof.
  intros [Href Hdeps] r write. subst r write. unfold setValue, rerender.
  destruct (decide (v = value i)) as [->|Hne].
  - unfold commit. cbn [value storedWith]. rewrite decide_True by done.
    cbn [fst snd ret value]. split_and!.
    + done.
    + by split.
    + by left.
    + done.
    + intros Hc. by destruct Hc.
  - rewrite commit_fresh_run; cbn [value prevKeyRef storedWith]; try done.
    2:{ rewrite Hdeps. congruence. }
    cbn [fst snd]. split_and!.
    + done.
    + done.
    + right. by rewrite UseUrlStorageStateFacts.trace_setItem.
    + intros a k' Hor. rewrite area_setItem_lookup.
      rewrite decide_False; [done|]. intros [-> ->]. by destruct Hor.
    + intros _. split.
      * by rewrite UseUrlStorageStateFacts.trace_setItem.
      * by rewrite UseUrlStorageStateFacts.area_setItem.
Qed.

(** X3. Events the hook ignores. With [live] off no listener is
    registered; with [live] on, an event from an area other than
    [window.localStorage], for another key, or carrying the serialized
    current value (the echo of the instance's own write) returns early.
    In each case the instance at rest and the world stay as they are: no
    read, no write, no call of [forceInit], [deserialize] or the default
    producer. *)
Theorem ignored_event_changes_nothing p i (ev : StorageEvent) w :
  at_rest p i →
  live p = false
  ∨ ev_storageArea ev ≠ Some LocalStorage
  ∨ ev_key ev ≠ Some (key p)
  ∨ ev_newValue ev = Some (serialize p (value i)) →
  dispatch p i ev w = (i, w).
Proof.
  intros Hrest [Hlive|Hguard]; unfold dispatch.
  - by rewrite Hlive.
  - destruct (live p); [|done]. unfold bind.
    rewrite storageChanged_ignored by done. by apply rerender_at_rest.
Qed.

(** The handler on an event it does not ignore, whose new value
    [deserialize] reads. *)
Lemma storageChanged_reads p i (ev : StorageEvent) w raw v :
  ev_storageArea ev = Some LocalStorage →
  ev_key ev = Some (key p) →
  ev_newValue ev = Some raw →
  raw ≠ "" →
  raw ≠ serialize p (value i) →
  forceInit p raw = false →
  deserialize p raw = Some v →
  storageChanged p i ev w =
  (mkInstance v (prevKeyRef i) (storedWith i),
   mkWorld (localStorage w) (sessionStorage w) (current w) (back w)
     (trace w ++ [CallForceInit raw; CallDeserialize raw])).
Proof.
  intros Ha Hk Hnew Hne Hecho Hf Hd. unfold storageChanged.
  rewrite (bool_decide_eq_false_2 (ev_storageArea ev ≠ Some LocalStorage))
    by (intros Hc; by apply Hc).
  rewrite (bool_decide_eq_false_2 (ev_key ev ≠ Some (key p)))
    by (intros Hc; by apply Hc).
  rewrite (bool_decide_eq_false_2 (ev_newValue ev = Some (serialize p (value i))))
    by (rewrite Hnew; congruence).
  cbn [orb]. unfold fromStorage, bind. rewrite Hnew. cbn [arg_of_nullable].
  pose proof (initFromStorage_run p (Str raw) w) as Hrun.
  cbn beta iota zeta in Hrun.
  apply truthy_nonempty in Hne. rewrite Hne, Hf, Hd in Hrun.
  by rewrite Hrun.
Qed.

(** X4. A live event of [window.localStorage] for the key with a
    non-empty new value that is not the serialized current value, that
    [forceInit] accepts and [deserialize] reads as [v]: the handler calls
    [forceInit] and [deserialize] on the new value, reads and writes no
    storage, and sets the value to [v]. The render that follows leaves
    the instance at rest with [v]; it writes at most
    [setItem(key, serialize(v))] to the configured storage, and does
    write it when [v] differs from the value held before. (Whether a [v]
    equal in content to the value held is written once more is React's
    comparison by identity: both outcomes are allowed for.) *)
Theorem live_event_adopts_value p i (ev : StorageEvent) w raw v :
  at_rest p i →
  live p = true →
  ev_storageArea ev = Some LocalStorage →
  ev_key ev = Some (key p) →
  ev_newValue ev = Some raw →
  raw ≠ "" →
  raw ≠ serialize p (value i) →
  forceInit p raw = false →
  deserialize p raw = Some v →
  let h := storageChanged p i ev w in
  let r := dispatch p i ev w in
  let write := SetItem (storage p) (key p) (serialize p v) in
  value (fst h) = v
  ∧ trace (snd h) = trace w ++ [CallForceInit raw; CallDeserialize raw]
  ∧ (∀ a, area a (snd h) = area a w)
  ∧ value (fst r) = v
  ∧ at_rest p (fst r)
  ∧ (trace (snd r) = trace (snd h) ∨ trace (snd r) = trace (snd h) ++ [write])
  ∧ (v ≠ value i →
     trace (snd r) = trace (snd h) ++ [write]
     ∧ area (storage p) (snd r) !! key p = Some (serialize p v)).
Proof.
  intros [Href Hdeps] Hlive Ha Hk Hnew Hne Hecho Hf Hd h r write.
  subst h r write.
  pose proof (storageChanged_reads p i ev w raw v Ha Hk Hnew Hne Hecho Hf Hd)
    as Hsc.
  unfold dispatch, bind. rewrite Hlive, Hsc. unfold rerender.
  cbn [fst snd value trace].
  destruct (decide (v = value i)) as [->|Hv].
  - unfold commit. cbn [value storedWith]. rewrite decide_True by done.
    cbn [fst snd ret trace value]. split_and!.
    + done.
    + done.
    + by intros [].
    + done.
    + by split.
    + by left.
    + intros Hc. by destruct Hc.
  - rewrite commit_fresh_run; cbn [value prevKeyRef storedWith]; try done.
    2:{ rewrite Hdeps. congruence. }
    cbn [fst snd]. split_and!.
    + done.
    + done.
    + by intros [].
    + done.
    + done.
    + right. by rewrite UseUrlStorageStateFacts.trace_setItem.
    + intros _. split.
      * by rewrite UseUrlStorageStateFacts.trace_setItem.
      * rewrite area_setItem_lookup. by rewrite decide_True.
Qed.

(** X5. A live event of [window.localStorage] for the key whose non-empty
    new value [deserialize] throws on ([forceInit] being false on it):
    the handler removes the entry of the key from the configured storage
    and sets the value to the resolved default. The render that follows
    writes at most [setItem(key, serialize(default))], and does write it
    when the default differs from the value held before. (Whether a
    default equal in content to the value held is written once more is
    React's comparison by identity: both outcomes are allowed for.) *)
Theorem live_event_unreadable p i (ev : StorageEvent) w raw :
  at_rest p i →
  live p = true →
  ev_storageArea ev = Some LocalStorage →
  ev_key ev = Some (key p) →
  ev_newValue ev = Some raw →
  raw ≠ "" →
  raw ≠ serialize p (value i) →
  forceInit p raw = false →
  deserialize p raw = None →
  let d := resolved (defaultValue p) in
  let h := storageChanged p i ev w in
  let r := dispatch p i ev w in
  let write := SetItem (storage p) (key p) (serialize p d) in
  value (fst h) = d
  ∧ trace (snd h) =
    trace w ++ [CallForceInit raw; CallDeserialize raw;
                RemoveItem (storage p) (key p)]
            ++ default_events (defaultValue p)
  ∧ area (storage p) (snd h) = delete (key p) (area (storage p) w)
  ∧ value (fst r) = d
  ∧ at_rest p (fst r)
  ∧ (trace (snd r) = trace (snd h) ∨ trace (snd r) = trace (snd h) ++ [write])
  ∧ (d ≠ value i →
     trace (snd r) = trace (snd h) ++ [write]
     ∧ area (storage p) (snd r) !! key p = Some (serialize p d)).
Proof.
  intros [Href Hdeps] Hlive Ha Hk Hnew Hne Hecho Hf Hd d h r write.
  subst h r write.
  set (a := storage p).
  set (w1 := with_area a (delete (key p) (area a w)) w).
  assert (Hsc : storageChanged p i ev w =
    (mkInstance d (prevKeyRef i) (storedWith i),
     mkWorld (localStorage w1) (sessionStorage w1) (current w) (back w)
       (trace w ++ [CallForceInit raw; CallDeserialize raw; RemoveItem a (key p)]
          ++ default_events (defaultValue p)))).
  { unfold storageChanged.
    rewrite (bool_decide_eq_false_2 (ev_storageArea ev ≠ Some LocalStorage))
      by (intros Hc; by apply Hc).
    rewrite (bool_decide_eq_false_2 (ev_key ev ≠ Some (key p)))
      by (intros Hc; by apply Hc).
    rewrite (bool_decide_eq_false_2 (ev_newValue ev = Some (serialize p (value i))))
      by (rewrite Hnew; congruence).
    cbn [orb]. unfold fromStorage, bind. rewrite Hnew. cbn [arg_of_nullable].
    pose proof (initFromStorage_run p (Str raw) w) as Hrun.
    cbn beta iota zeta in Hrun.
    apply truthy_nonempty in Hne. rewrite Hne, Hf, Hd in Hrun.
    by rewrite Hrun. }
  assert (Harea : area a
            (mkWorld (localStorage w1) (sessionStorage w1) (current w) (back w)
               (trace w ++ [CallForceInit raw; CallDeserialize raw;
                            RemoveItem a (key p)]
                  ++ default_events (defaultValue p)))
          = delete (key p) (area a w)).
  { subst w1. by destruct a. }
  unfold dispatch, bind. rewrite Hlive, Hsc. unfold rerender.
  cbn [fst snd value trace].
  destruct (decide (d = value i)) as [Heq|Hv].
  - unfold commit. cbn [value storedWith].
    rewrite (decide_True (P := storedWith i = Some (key p, d))) by congruence.
    cbn [fst snd ret trace value]. split_and!.
    + done.
    + done.
    + exact Harea.
    + done.
    + split; [done|]. cbn [storedWith value]. congruence.
    + by left.
    + intros Hc. by destruct Hc.
  - rewrite commit_fresh_run; cbn [value prevKeyRef storedWith]; try done.
    2:{ rewrite Hdeps. congruence. }
    cbn [fst snd]. split_and!.
    + done.
    + done.
    + exact Harea.
    + done.
    + done.
    + right. by rewrite UseUrlStorageStateFacts.trace_setItem.
    + intros _. split.
      * by rewrite UseUrlStorageStateFacts.trace_setItem.
      * rewrite area_setItem_lookup. by rewrite decide_True.
Qed.

(** X6. A stored non-empty value that [forceInit] rejects is never handed
    to [deserialize]: the first render takes the resolved default and its
    storing effect overwrites the stored entry with
    [serialize(default)]. *)
Theorem mount_forceInit_overwrites p w raw :
  area (storage p) w !! key p = Some raw →
  raw ≠ "" →
  forceInit p raw = true →
  let d := resolved (defaultValue p) in
  let r := mount p w in
  value (fst r) = d
  ∧ area (storage p) (snd r) !! key p = Some (serialize p d)
  ∧ trace (snd r) =
    trace w ++ [GetItem (storage p) (key p); CallForceInit raw]
            ++ default_events (defaultValue p)
            ++ [SetItem (storage p) (key p) (serialize p d)].
Proof.
  intros Hs Hne Hf d r. subst r.
  pose proof (initFromStorage_run p Undefined w) as Hrun. cbn zeta in Hrun.
  apply truthy_nonempty in Hne. rewrite Hs, Hne, Hf in Hrun.
  unfold mount, bind. rewrite Hrun. clear Hrun. fold d.
  rewrite commit_fresh_run by done. cbn [fst snd value].
  split_and!; try done.
  - rewrite area_setItem_lookup. by rewrite decide_True.
  - rewrite UseUrlStorageStateFacts.trace_setItem. cbn [trace].
    by rewrite <- !app_assoc.
Qed.

End More.
End UseStorageMore.

(** *** Scenarios *)

Module UseStorageMoreCases.

Import UseStorage Scenarios UseStorageFacts UseStorageMore.

(** Mounting over a stored value leaves another entry and the other area
    alone. *)
Lemma mount_stores_value_witness :
  let p := identityProps "some-key" "initial value" LocalStorage in
  let w := mkWorld {["some-key" := "stored"; "other" := "x"]}
             {["some-key" := "session"]} (mkLocation "/" []) [] [] in
  localStorage (snd (mount p w)) !! "some-key" = Some "stored"
  ∧ localStorage (snd (mount p w)) !! "other" = Some "x"
  ∧ sessionStorage (snd (mount p w)) !! "some-key" = Some "session".
Proof.
  intros p w.
  pose proof (mount_stores_value p w) as (Hv & _ & Hkey & Hframe & _).
  split_and!.
  - change (localStorage (snd (mount p w))) with (area (storage p) (snd (mount p w))).
    change "some-key" with (key p). rewrite Hkey, Hv. reflexivity.
  - refine (Hframe LocalStorage "other" _). right. discriminate.
  - refine (Hframe SessionStorage "some-key" _). left. discriminate.
Defined.

(** "works like useState", on strings. *)
Lemma setValue_writes_through_witness :
  let p := identityProps "some-key" "initial value" LocalStorage in
  let m := mount p (browser [] []) in
  let r := setValue p (fst m) "changed value" (snd m) in
  value (fst r) = "changed value"
  ∧ area LocalStorage (snd r)
    = <["some-key" := "changed value"]> (area LocalStorage (snd m)).
Proof.
  intros p m r.
  assert (Hrest : at_rest p (fst m)) by (split; reflexivity).
  pose proof (setValue_writes_through p (fst m) "changed value" (snd m) Hrest)
    as (Hv & _ & _ & _ & Hw).
  assert (Hne : "changed value" ≠ value (fst m)) by (vm_compute; discriminate).
  destruct (Hw Hne) as (_ & Harea).
  split; [exact Hv | exact Harea].
Defined.

(** "skip updating state when storage event has data that's already
    updated". *)
Lemma ignored_event_changes_nothing_witness :
  let p := identityProps "some-key" "initial value" LocalStorage in
  let m := mount p (browser [("some-key", "current value")] []) in
  let ev := storageEvent "some-key" (Some "current value") LocalStorage in
  dispatch p (fst m) ev (snd m) = (fst m, snd m).
Proof.
  intros p m ev.
  assert (Hrest : at_rest p (fst m)) by (split; reflexivity).
  refine (ignored_event_changes_nothing p (fst m) ev (snd m) Hrest _).
  right. right. right. vm_compute. reflexivity.
Defined.

(** A value written by another tab is taken over. *)
Lemma live_event_adopts_value_witness :
  let p := identityProps "some-key" "initial value" LocalStorage in
  let m := mount p (browser [("some-key", "old value")] []) in
  let ev := storageEvent "some-key" (Some "new value") LocalStorage in
  let r := dispatch p (fst m) ev (snd m) in
  value (fst r) = "new value"
  ∧ area LocalStorage (snd r) !! "some-key" = Some "new value".
Proof.
  intros p m ev.
  assert (Hrest : at_rest p (fst m)) by (split; reflexivity).
  assert (Hlive : live p = true) by reflexivity.
  assert (Harea : ev_storageArea ev = Some LocalStorage) by reflexivity.
  assert (Hkey : ev_key ev = Some (key p)) by reflexivity.
  assert (Hnew : ev_newValue ev = Some "new value") by reflexivity.
  assert (Hne : "new value" ≠ "") by discriminate.
  assert (Hecho : "new value" ≠ serialize p (value (fst m)))
    by (vm_compute; discriminate).
  assert (Hforce : forceInit p "new value" = false) by reflexivity.
  assert (Hreads : deserialize p "new value" = Some "new value") by reflexivity.
  pose proof (live_event_adopts_value p (fst m) ev (snd m) "new value"
                "new value" Hrest Hlive Harea Hkey Hnew Hne Hecho Hforce Hreads)
    as (_ & _ & _ & Hv & _ & _ & Hw).
  assert (Hdiff : "new value" ≠ value (fst m)) by (vm_compute; discriminate).
  destruct (Hw Hdiff) as (_ & Hst).
  split; [exact Hv | exact Hst].
Defined.

(** A text another tab wrote that [JSON.parse] rejects. *)
Lemma live_event_unreadable_witness :
  let p := numberProps "some-key" 0 never in
  let m := mount p (browser [("some-key", "7")] []) in
  let ev := storageEvent "some-key" (Some "{oops") LocalStorage in
  let r := dispatch p (fst m) ev (snd m) in
  value (fst m) = 7%Z
  ∧ value (fst r) = 0%Z
  ∧ area LocalStorage (snd r) !! "some-key" = Some "0".
Proof.
  intros p m ev r.
  assert (Hrest : at_rest p (fst m)) by (split; reflexivity).
  assert (Hlive : live p = true) by reflexivity.
  assert (Harea : ev_storageArea ev = Some LocalStorage) by reflexivity.
  assert (Hkey : ev_key ev = Some (key p)) by reflexivity.
  assert (Hnew : ev_newValue ev = Some "{oops") by reflexivity.
  assert (Hne : "{oops" ≠ "") by discriminate.
  assert (Hecho : "{oops" ≠ serialize p (value (fst m)))
    by (vm_compute; discriminate).
  assert (Hforce : forceInit p "{oops" = false) by reflexivity.
  assert (Hthrows : deserialize p "{oops" = None) by (vm_compute; reflexivity).
  pose proof (live_event_unreadable p (fst m) ev (snd m) "{oops" Hrest Hlive
                Harea Hkey Hnew Hne Hecho Hforce Hthrows)
    as (_ & _ & _ & Hv & _ & _ & Hw).
  assert (Hdiff : resolved (defaultValue p) ≠ value (fst m))
    by (vm_compute; discriminate).
  destruct (Hw Hdiff) as (_ & Hst).
  split_and!; [vm_compute; reflexivity | exact Hv | exact Hst].
Defined.

(** A stored version 1 under a hook that wants version 2. *)
Lemma mount_forceInit_overwrites_witness :
  let p := numberProps "some-key" 2 olderThan2 in
  let w := browser [("some-key", "1")] [] in
  value (fst (mount p w)) = 2%Z
  ∧ area LocalStorage (snd (mount p w)) !! "some-key" = Some "2".
Proof.
  intros p w.
  assert (Hstored : area (storage p) w !! key p = Some "1")
    by (vm_compute; reflexivity).
  assert (Hne : "1" ≠ "") by discriminate.
  assert (Hforce : forceInit p "1" = true) by (vm_compute; reflexivity).
  pose proof (mount_forceInit_overwrites p w "1" Hstored Hne Hforce)
    as (Hv & Hst & _).
  split; [exact Hv | exact Hst].
Defined.

End UseStorageMoreCases.

(* ===================================================================== *)
(** * More of [kebabize] *)
(* ===================================================================== *)

Module UrlHelperMore.

Import UrlHelper.

Lemma lower_char_settles c :
  is_upper (lower_char c) = false ∧ lower_char (lower_char c) = lower_char c.
Proof. destruct c as [[] [] [] [] [] [] [] []]; vm_compute; done. Qed.

Lemma lower_or_digit_not_upper c :
  is_lower_or_digit c = true → is_upper c = false.
Proof. destruct c as [[] [] [] [] [] [] [] []]; vm_compute; done. Qed.

(** The regular expression amounts to a hyphen in front of every
    capital. *)
Lemma hyphenate_chars s :
  list_ascii_of_string (hyphenate s) =
  flat_map (λ c, if is_upper c then ["-"%char; c] else [c])
    (list_ascii_of_string s).
Proof.
  enough (Hboth : ∀ s,
    list_ascii_of_string (hyphenate s) =
      flat_map (λ c, if is_upper c then ["-"%char; c] else [c])
        (list_ascii_of_string s)
    ∧ ∀ c, list_ascii_of_string (hyphenate (String c s)) =
      flat_map (λ c, if is_upper c then ["-"%char; c] else [c])
        (list_ascii_of_string (String c s))) by apply Hboth.
  clear s. induction s as [|d s [IH1 IH2]].
  - split; [done|]. intros c. cbn. by destruct (is_upper c).
  - split; [apply IH2|]. intros c.
    change (hyphenate (String c (String d s))) with
      (if is_lower_or_digit c && is_upper d
       then String c (String "-" (String d (hyphenate s)))
       else if is_upper c then String "-" (String c (hyphenate (String d s)))
       else String c (hyphenate (String d s))).
    cbn [list_ascii_of_string flat_map].
    destruct (is_lower_or_digit c) eqn:Hl; cbn [andb].
    + rewrite (lower_or_digit_not_upper c Hl).
      destruct (is_upper d) eqn:Hd.
      * cbn [list_ascii_of_string app]. by rewrite IH1.
      * cbn [list_ascii_of_string app]. rewrite IH2.
        cbn [list_ascii_of_string flat_map]. by rewrite Hd.
    + destruct (is_upper c); cbn [list_ascii_of_string app]; rewrite IH2;
        by cbn [list_ascii_of_string flat_map].
Qed.

Lemma toLowerCase_chars s :
  list_ascii_of_string (toLowerCase s) = map lower_char (list_ascii_of_string s).
Proof. induction s as [|c s IH]; [done|]. cbn. by rewrite IH. Qed.

Lemma toLowerCase_fixed s :
  Forall (λ c, lower_char c = c) (list_ascii_of_string s) → toLowerCase s = s.
Proof.
  induction s as [|c s IH]; [done|]. cbn [list_ascii_of_string].
  intros [Hc Hs]%Forall_cons. cbn. by rewrite Hc, IH.
Qed.

(** X7. [kebabize] puts a hyphen in front of every capital letter A-Z,
    the first one and those in a row included, and lowers every
    character; nothing else is added or dropped. *)
Theorem kebabize_hyphen_per_capital s :
  list_ascii_of_string (kebabize s) =
  flat_map (λ c, if is_upper c then ["-"%char; lower_char c] else [lower_char c])
    (list_ascii_of_string s).
Proof.
  unfold kebabize. rewrite toLowerCase_chars, hyphenate_chars.
  induction (list_ascii_of_string s) as [|c l IH]; [done|].
  cbn [flat_map]. rewrite map_app, IH. by destruct (is_upper c).
Qed.

(** X8. The result of [kebabize] contains no capital letter, and
    [kebabize] leaves it as it is: a key and its kebab form name the same
    URL parameter. *)
Theorem kebabize_settles s :
  Forall (λ c, is_upper c = false) (list_ascii_of_string (kebabize s))
  ∧ kebabize (kebabize s) = kebabize s.
Proof.
  assert (Hall : Forall (λ c, is_upper c = false ∧ lower_char c = c)
                   (list_ascii_of_string (kebabize s))).
  { unfold kebabize. rewrite toLowerCase_chars. apply Forall_map.
    apply Forall_true. intros c. apply lower_char_settles. }
  assert (Hup : Forall (λ c, is_upper c = false)
                  (list_ascii_of_string (kebabize s))).
  { eapply Forall_impl; [exact Hall|]. by intros c [? ?]. }
  split; [exact Hup|].
  unfold kebabize at 1. rewrite UrlHelperFacts.hyphenate_no_capital by done.
  apply toLowerCase_fixed. eapply Forall_impl; [exact Hall|]. by intros c [? ?].
Qed.

End UrlHelperMore.

(* ===================================================================== *)
(** * The storage key *)
(* ===================================================================== *)

Module StorageKeyFacts.

Import UseUrlStorageState.

Lemma string_app_inv_tail (a b c : string) : a +:+ c = b +:+ c → a = b.
Proof.
  revert b. induction a as [|x a IH]; intros [|y b] Heq.
  - done.
  - exfalso. apply (f_equal String.length) in Heq.
    rewrite JsonFacts.app_empty, JsonFacts.app_cons in Heq. cbn in Heq.
    rewrite JsonFacts.length_app in Heq. lia.
  - exfalso. apply (f_equal String.length) in Heq.
    rewrite JsonFacts.app_empty, JsonFacts.app_cons in Heq. cbn in Heq.
    rewrite JsonFacts.length_app in Heq. lia.
  - rewrite !JsonFacts.app_cons in Heq. injection Heq as -> Heq.
    by rewrite (IH b Heq).
Qed.

Lemma string_app_inv_head (a b c : string) : c +:+ a = c +:+ b → a = b.
Proof.
  induction c as [|x c IH]; rewrite ?JsonFacts.app_empty; [done|].
  rewrite !JsonFacts.app_cons. intros [= Heq]. by apply IH.
Qed.

Lemma storageKey_path_inj p l1 l2 :
  prefix p = None ∨ prefix p = Some "" →
  storageKey p l1 = storageKey p l2 → pathname l1 = pathname l2.
Proof.
  intros Hpre Heq.
  assert (Hk : ∀ l, storageKey p l = "urlStorage_" +:+ pathname l +:+ "_" +:+ key p).
  { intros l. unfold storageKey. by destruct Hpre as [->| ->]. }
  rewrite !Hk in Heq. apply string_app_inv_head in Heq.
  by apply string_app_inv_tail in Heq.
Qed.

(** X9. How the storage key depends on the path. Without a prefix, or
    with the empty prefix, one logical key gets different storage keys
    on different paths; with a non-empty prefix the storage key is the
    same on every path. *)
Theorem storageKey_per_path p l1 l2 :
  (prefix p = None ∨ prefix p = Some "" →
   pathname l1 ≠ pathname l2 → storageKey p l1 ≠ storageKey p l2)
  ∧ (∀ pre, prefix p = Some pre → pre ≠ "" →
            storageKey p l1 = pre +:+ "_" +:+ key p
            ∧ storageKey p l1 = storageKey p l2).
Proof.
  split.
  - intros Hpre Hne Heq. apply Hne. by apply (storageKey_path_inj p).
  - intros pre Hpre Hne. unfold storageKey. rewrite Hpre.
    by destruct pre.
Qed.

(** X10. The storage key does not keep path and key apart: without a
    prefix, the key [x_k] on a path and the key [k] on that path followed
    by [_x] share one storage entry. *)
Theorem storageKey_underscore_collision (path x k : string) d st :
  storageKey (mkParams (x +:+ "_" +:+ k) d None st) (mkLocation path [])
  = storageKey (mkParams k d None st) (mkLocation (path +:+ "_" +:+ x) []).
Proof.
  unfold storageKey. cbn [prefix pathname key].
  f_equal. by rewrite !JsonFacts.app_assoc_s.
Qed.

End StorageKeyFacts.

(* ===================================================================== *)
(** * More of [useUrlStorageState]: reconciliation, the setter, what is left alone *)
(* ===================================================================== *)

Module UseUrlStorageStateMore.

Import UrlHelper UseUrlStorageState UseUrlStorageStateFacts.

(** *** [URLSearchParams], other names *)

Lemma params_get_delete_other name name' q :
  name' ≠ name → params_get name' (params_delete name q) = params_get name' q.
Proof.
  intros Hne. unfold params_delete. induction q as [|[n x] q IH]; [done|].
  cbn. destruct (String.eqb n name) eqn:Hn; cbn.
  - apply String.eqb_eq in Hn as ->.
    by rewrite (proj2 (String.eqb_neq name name')).
  - by rewrite IH.
Qed.

Lemma params_get_set_other name name' v q :
  name' ≠ name → params_get name' (params_set name v q) = params_get name' q.
Proof.
  intros Hne. induction q as [|[n x] q IH]; cbn.
  - by rewrite (proj2 (String.eqb_neq name name')).
  - destruct (String.eqb n name) eqn:Hn; cbn.
    + apply String.eqb_eq in Hn as ->.
      rewrite (proj2 (String.eqb_neq name name')) by done.
      by apply params_get_delete_other.
    + by rewrite IH.
Qed.

Lemma params_set_differs name v q :
  params_get name q ≠ Some v → params_set name v q ≠ q.
Proof.
  intros Hne Heq. apply Hne. rewrite <- Heq. apply params_get_set.
Qed.

(** *** The world after one round of effects *)

Lemma leaves_alone_refl p w : leaves_alone p w w.
Proof. by split_and!. Qed.

Lemma leaves_alone_trans p w1 w2 w3 :
  leaves_alone p w1 w2 → leaves_alone p w2 w3 → leaves_alone p w1 w3.
Proof.
  intros (Ha & Hp & Hb & Hq) (Ha' & Hp' & Hb' & Hq'). cbn zeta in *.
  assert (Hk : storageKey p (current w2) = storageKey p (current w1))
    by (by apply storageKey_pathname).
  rewrite Hk in Ha'.
  split_and!.
  - intros b k' Hor. rewrite <- (Ha b k' Hor). by apply Ha'.
  - congruence.
  - congruence.
  - intros name' Hn. rewrite <- (Hq name' Hn). by apply Hq'.
Qed.

(** One render of an instance whose ref holds the derived key. *)
Lemma render_leaves_alone p i w :
  UseStorage.prevKeyRef (inner i) = storageKey p (current w) →
  leaves_alone p w (snd (render p i w))
  ∧ UseStorage.prevKeyRef (inner (snd (fst (render p i w))))
    = storageKey p (current (snd (render p i w))).
Proof.
  intros Href. rewrite render_eq, effects_run by done. cbn zeta.
  cbn [fst snd inner UseStorage.prevKeyRef].
  set (a := UseStorage.storage (storageProps p (current w))).
  set (k := storageKey p (current w)).
  set (v := UseStorage.value (inner i)).
  set (w1 := if decide (UseStorage.storedWith (inner i) = Some (k, v)) then w
             else snd (setItem a k v w)).
  assert (H1 : leaves_alone p w w1).
  { subst w1. destruct (decide _); [apply leaves_alone_refl|].
    split_and!; cbn zeta; rewrite ?current_setItem, ?back_setItem; try done.
    intros b k' Hor. rewrite UseStorageMore.area_setItem_lookup.
    rewrite decide_False; [done|]. intros [-> ->]. by destruct Hor. }
  set (w2 := if decide (urlFilledWith i = Some (v, key p, search (current w)))
             then w1
             else if Js.truthy_opt (params_get (kebabize (key p)) (search (current w)))
                  then w1
                  else snd (navigate (params_set (kebabize (key p)) v
                                        (search (current w))) true w1)).
  assert (Hcur1 : current w1 = current w).
  { subst w1. destruct (decide _); [done|]. by rewrite current_setItem. }
  assert (H2 : leaves_alone p w1 w2).
  { subst w2. clearbody w1.
    destruct (decide (urlFilledWith i = _)); [apply leaves_alone_refl|].
    destruct (Js.truthy_opt _); [apply leaves_alone_refl|].
    split_and!; cbn zeta.
    - intros b k' _. by rewrite area_navigate.
    - done.
    - done.
    - intros name' Hn. unfold navigate. cbn [snd current search].
      rewrite Hcur1. by apply params_get_set_other. }
  split; [by eapply leaves_alone_trans|].
  apply storageKey_pathname.
  destruct H1 as (_ & Hp1 & _), H2 as (_ & Hp2 & _). congruence.
Qed.

Lemma settle_leaves_alone fuel p r w :
  UseStorage.prevKeyRef (inner (snd r)) = storageKey p (current w) →
  leaves_alone p w (snd (settle fuel p r w)).
Proof.
  revert r w. induction fuel as [|fuel IH]; intros r w Href; cbn [settle];
    destruct (stale (snd r) w); try apply leaves_alone_refl.
  destruct (render_leaves_alone p (snd r) w Href) as [Hframe Href'].
  destruct (render p (snd r) w) as [r' w'] eqn:Hr. cbn [fst snd] in *.
  eapply leaves_alone_trans; [exact Hframe|]. by apply IH.
Qed.

(** X11. Whatever the URL and storage hold when the hook mounts, and
    however many renders follow, the hook touches no storage entry but
    the one under the derived key in the configured area, keeps the
    path, never pushes a history entry (it navigates with [replace]
    only) and leaves every other query parameter as it found it. *)
Theorem mounted_leaves_alone fuel p w :
  leaves_alone p w (snd (mounted fuel p w)).
Proof.
  unfold mounted, firstRender, bind, useLocation, ret.
  destruct (initFromStorage_url p w) as (_ & Harea & Hcur & Hback).
  cbn zeta in *.
  destruct (UseStorage.initFromStorage _ _ w) as [v1 w0]. cbn [fst snd] in *.
  set (i0 := mkBinding (UseStorage.mkInstance v1 (storageKey p (current w)) None)
               None None (current w) v1).
  assert (H0 : leaves_alone p w w0).
  { split_and!; cbn zeta; [intros b k' _; by rewrite Harea | congruence..]. }
  pose proof (render_leaves_alone p i0 w0) as Hr.
  rewrite render_eq, Hcur in Hr.
  destruct (effects p (current w) i0 w0) as [i1 w1]. cbn [fst snd] in Hr.
  destruct Hr as [H1 Href]; [done|].
  eapply leaves_alone_trans; [exact H0|].
  eapply leaves_alone_trans; [exact H1|].
  by apply settle_leaves_alone.
Qed.

(** X12. Idempotence: rendering a settled instance again changes
    neither the instance nor the world, so no storage write and no
    navigation is issued; and the renders that follow a settled instance
    are none. *)
Theorem render_settled p i w n v :
  settled p i w →
  render p i w = ((state p (current w), i), w)
  ∧ settle n p (v, i) w = (Some (v, i), w).
Proof.
  intros (Hseen & Hss & [Href Hdeps] & Hfill & Hsync & Hst). split.
  - rewrite render_eq, effects_run by done. cbn zeta.
    change (UseStorage.key (storageProps p (current w)))
      with (storageKey p (current w)) in *.
    rewrite (decide_True (P := UseStorage.storedWith (inner i) = _)) by done.
    rewrite (decide_True (P := urlFilledWith i = _)) by done.
    rewrite (decide_True (P := storageSyncedWith i = _)) by done.
    destruct i as [[v' k' sw] uf ss sl sst]. cbn in *. by subst.
  - apply settle_at_rest. unfold stale.
    apply negb_false_iff, bool_decide_eq_true. cbn [snd].
    by rewrite Hseen, Hss.
Qed.

(** The first render and its effects. *)
Lemma firstRender_run p w :
  let loc := current w in
  let name := kebabize (key p) in
  let a := UseStorage.storage (storageProps p loc) in
  let k := storageKey p loc in
  let init := UseStorage.initFromStorage (storageProps p loc)
                UseStorage.Undefined w in
  let v1 := fst init in
  let w1 := snd (setItem a k v1 (snd init)) in
  firstRender p w =
  ((state p loc,
    mkBinding (UseStorage.mkInstance (syncStorage p loc v1) k (Some (k, v1)))
      (Some (v1, key p, search loc)) (Some (key p, search loc)) loc v1),
   if Js.truthy_opt (params_get name (search loc)) then w1
   else snd (navigate (params_set name v1 (search loc)) true w1)).
Proof.
  intros loc name a k init v1 w1. subst v1 w1 init.
  unfold firstRender, bind, useLocation, ret. fold loc.
  destruct (UseStorage.initFromStorage _ _ w) as [v1 w0]. cbn [fst snd].
  rewrite effects_run by done. cbn zeta. fold name a k.
  cbn [inner UseStorage.storedWith UseStorage.value urlFilledWith
         storageSyncedWith].
  rewrite (decide_False (P := None = Some (k, v1))) by done.
  rewrite (decide_False (P := None = Some (v1, key p, search loc))) by done.
  by rewrite (decide_False (P := None = Some (key p, search loc))) by done.
Qed.

(** X13. Mounting always comes to rest, after at most one further
    render, wherever it starts. At rest, the storage entry under the
    derived key, the URL parameter and the state cell agree: on the URL
    parameter when the URL had a non-empty one, else on the stored string
    when there was a non-empty one, else on the serialized default. The
    value returned is the parameter read back. *)
Theorem mount_reconciles p w n :
  let name := kebabize (key p) in
  let a := UseStorage.storage (storageProps p (current w)) in
  let k := storageKey p (current w) in
  let fromStorage :=
    match area a w !! k with
    | Some s => if Js.truthy s then s else serializeState (defaultValue p)
    | None => serializeState (defaultValue p)
    end in
  let chosen :=
    match params_get name (search (current w)) with
    | Some u => if Js.truthy u then u else fromStorage
    | None => fromStorage
    end in
  ∃ v i w',
    mounted (S n) p w = (Some (v, i), w')
    ∧ settled p i w'
    ∧ UseStorage.value (inner i) = chosen
    ∧ area a w' !! k = Some chosen
    ∧ params_get name (search (current w')) = Some chosen
    ∧ v = state p (current w').
Proof.
  intros name a k fromStorage chosen.
  destruct (initFromStorage_url p w) as (Hv1 & Harea & Hcur & Hback).
  pose proof (firstRender_run p w) as Hfirst.
  cbn zeta in *. fold name a k fromStorage in Hv1, Hfirst.
  destruct (UseStorage.initFromStorage _ _ w) as [v1 w0] eqn:Hinit.
  cbn [fst snd] in *. subst v1.
  set (loc := current w) in *.
  set (v1 := fromStorage) in *.
  set (w1 := snd (setItem a k v1 w0)) in *.
  assert (Hcur1 : current w1 = loc) by (subst w1; by rewrite current_setItem).
  assert (Harea1 : area a w1 !! k = Some v1).
  { subst w1. rewrite area_setItem. apply lookup_insert_eq. }
  assert (Hsettled : ∀ (x : string) (q : Query) (w' : World),
    current w' = mkLocation (pathname loc) q →
    area a w' !! k = Some x →
    settled p
      (mkBinding (UseStorage.mkInstance x k (Some (k, x)))
         (Some (x, key p, q)) (Some (key p, q)) (mkLocation (pathname loc) q) x)
      w').
  { intros x q w' Hc Hst. unfold settled. rewrite Hc. cbn zeta.
    change (UseStorage.storage (storageProps p (mkLocation (pathname loc) q)))
      with a.
    unfold UseStorage.at_rest.
    change (UseStorage.key (storageProps p (mkLocation (pathname loc) q)))
      with (storageKey p (mkLocation (pathname loc) q)).
    rewrite (storageKey_pathname p (mkLocation (pathname loc) q) loc) by done.
    fold k. cbn. by split_and!. }
  assert (Hloc : loc = mkLocation (pathname loc) (search loc)) by (by destruct loc).
  assert (Hfill : Js.truthy_opt (params_get name (search loc)) = false →
    ∃ v i w',
      settle (S n) p
        (state p loc,
         mkBinding (UseStorage.mkInstance v1 k (Some (k, v1)))
           (Some (v1, key p, search loc)) (Some (key p, search loc)) loc v1)
        (snd (navigate (params_set name v1 (search loc)) true w1))
      = (Some (v, i), w')
      ∧ settled p i w'
      ∧ UseStorage.value (inner i) = v1
      ∧ area a w' !! k = Some v1
      ∧ params_get name (search (current w')) = Some v1
      ∧ v = state p (current w')).
  { intros Hfalsy.
    set (q1 := params_set name v1 (search loc)).
    set (loc1 := mkLocation (pathname loc) q1).
    set (wA := snd (navigate q1 true w1)).
    set (iA := mkBinding (UseStorage.mkInstance v1 k (Some (k, v1)))
                 (Some (v1, key p, search loc)) (Some (key p, search loc)) loc v1).
    assert (HcurA : current wA = loc1).
    { subst wA loc1. unfold navigate. cbn [snd current]. by rewrite Hcur1. }
    assert (HareaA : area a wA !! k = Some v1)
      by (subst wA; by rewrite area_navigate).
    assert (Hget1 : params_get name q1 = Some v1) by apply params_get_set.
    destruct (decide (q1 = search loc)) as [Hsame|Hq].
    - (* the replace navigation changed nothing *)
      exists (state p loc), iA, wA.
      assert (Hl : loc1 = loc) by (subst loc1; rewrite Hsame; by destruct loc).
      split_and!.
      + apply settle_at_rest. unfold stale.
        apply negb_false_iff, bool_decide_eq_true. cbn [snd].
        by rewrite HcurA, Hl.
      + subst iA. rewrite Hloc at 3. rewrite <- Hsame.
        apply Hsettled; [by rewrite HcurA|done].
      + done.
      + done.
      + by rewrite HcurA.
      + by rewrite HcurA, Hl.
    - set (w2 := if Js.truthy v1 then wA
                 else snd (navigate (params_set name v1 q1) true wA)).
      set (i2 := mkBinding (UseStorage.mkInstance v1 k (Some (k, v1)))
                   (Some (v1, key p, q1)) (Some (key p, q1)) loc1 v1).
      assert (Hk1 : storageKey p loc1 = k) by (by apply storageKey_pathname).
      assert (Hrender : render p iA wA = ((state p loc1, i2), w2)).
      { rewrite render_eq, HcurA. rewrite effects_run by (by rewrite Hk1).
        cbn zeta. rewrite Hk1. fold name. subst iA.
        cbn [inner UseStorage.storedWith UseStorage.value urlFilledWith
               storageSyncedWith search loc1].
        repeat case_decide; try congruence.
        rewrite Hget1. cbn [Js.truthy_opt].
        unfold syncStorage. fold name. change (search loc1) with q1.
        rewrite Hget1. subst w2 i2. by destruct (Js.truthy v1). }
      assert (Hcur2 : current w2 = loc1).
      { subst w2. destruct (Js.truthy v1); [done|].
        unfold navigate. cbn [snd current]. rewrite HcurA. subst loc1 q1.
        cbn [pathname]. by rewrite params_set_idem. }
      assert (Harea2 : area a w2 !! k = Some v1).
      { subst w2. destruct (Js.truthy v1); by rewrite ?area_navigate. }
      exists (state p loc1), i2, w2. split_and!.
      + rewrite settle_stale.
        2:{ unfold stale. apply negb_true_iff, bool_decide_eq_false.
            cbn [snd]. rewrite HcurA. subst iA. cbn [seenLocation].
            intros [Hc _]. apply Hq. by apply (f_equal search) in Hc. }
        cbn [snd]. rewrite Hrender. apply settle_at_rest.
        unfold stale. apply negb_false_iff, bool_decide_eq_true.
        by rewrite Hcur2.
      + subst i2 loc1. apply Hsettled; [by rewrite Hcur2|done].
      + done.
      + done.
      + by rewrite Hcur2.
      + by rewrite Hcur2. }
  unfold mounted, bind. rewrite Hfirst. clear Hfirst.
  unfold syncStorage. fold name.
  destruct (params_get name (search loc)) as [u|] eqn:Hget;
    [destruct (Js.truthy u) eqn:Hu|]; cbn [Js.truthy_opt negb]; rewrite ?Hu;
    cbn [negb]; subst chosen.
  - (* a non-empty parameter: the state cell takes it *)
    set (i1 := mkBinding (UseStorage.mkInstance u k (Some (k, v1)))
                 (Some (v1, key p, search loc)) (Some (key p, search loc)) loc v1).
    destruct (decide (u = v1)) as [Heq|Hne].
    + exists (state p loc), i1, w1. split_and!.
      * apply settle_at_rest. unfold stale.
        apply negb_false_iff, bool_decide_eq_true. by rewrite Hcur1.
      * subst i1. rewrite Heq. rewrite Hloc at 3.
        apply Hsettled; [by rewrite Hcur1|done].
      * done.
      * by rewrite Heq.
      * by rewrite Hcur1.
      * by rewrite Hcur1.
    + set (w2 := snd (setItem a k u w1)).
      set (i2 := mkBinding (UseStorage.mkInstance u k (Some (k, u)))
                   (Some (u, key p, search loc)) (Some (key p, search loc)) loc u).
      assert (Hrender : render p i1 w1 = ((state p loc, i2), w2)).
      { rewrite render_eq, Hcur1. rewrite effects_run by done. cbn zeta.
        fold name a k. subst i1.
        cbn [inner UseStorage.storedWith UseStorage.value urlFilledWith
               storageSyncedWith].
        repeat case_decide; try congruence.
        rewrite Hget. cbn [Js.truthy_opt]. by rewrite Hu. }
      assert (Hcur2 : current w2 = loc)
        by (subst w2; by rewrite current_setItem).
      assert (Harea2 : area a w2 !! k = Some u).
      { subst w2. rewrite area_setItem. apply lookup_insert_eq. }
      exists (state p loc), i2, w2. split_and!.
      * rewrite settle_stale.
        2:{ unfold stale. apply negb_true_iff, bool_decide_eq_false.
            subst i1. cbn. intros [_ Hc]. by apply Hne. }
        cbn [snd]. rewrite Hrender. apply settle_at_rest.
        unfold stale. apply negb_false_iff, bool_decide_eq_true.
        by rewrite Hcur2.
      * subst i2. rewrite Hloc at 3.
        apply Hsettled; [by rewrite Hcur2|done].
      * done.
      * done.
      * by rewrite Hcur2.
      * by rewrite Hcur2.
  - (* an empty parameter: the URL is filled from the state cell *)
    by apply Hfill.
  - (* no parameter: the same *)
    by apply Hfill.
Qed.

(** A render of an instance whose sync effect has not seen the location,
    the parameter being present and not empty, then at most one more:
    the state cell and the storage entry take the parameter, and the
    hook does not navigate. *)
Lemma render_adopts_parameter p u w i n :
  Js.truthy u = true →
  params_get (kebabize (key p)) (search (current w)) = Some u →
  UseStorage.prevKeyRef (inner i) = storageKey p (current w) →
  storageSyncedWith i ≠ Some (key p, search (current w)) →
  (UseStorage.storedWith (inner i)
     = Some (storageKey p (current w), UseStorage.value (inner i)) →
   area (UseStorage.storage (storageProps p (current w))) w
     !! storageKey p (current w) = Some (UseStorage.value (inner i))) →
  ∃ i' w',
    (let (r', w1) := render p i w in settle (S n) p r' w1)
      = (Some (state p (current w), i'), w')
    ∧ settled p i' w'
    ∧ area (UseStorage.storage (storageProps p (current w))) w'
        !! storageKey p (current w) = Some u
    ∧ UseStorage.value (inner i') = u
    ∧ current w' = current w
    ∧ back w' = back w
    ∧ (∀ b k', b ≠ UseStorage.storage (storageProps p (current w))
               ∨ k' ≠ storageKey p (current w) →
               area b w' !! k' = area b w !! k').
Proof.
  intros Hu Hget Href Hsync Hstored.
  set (loc := current w) in *. set (k := storageKey p loc) in *.
  set (a := UseStorage.storage (storageProps p loc)) in *.
  set (v1 := UseStorage.value (inner i)) in *.
  rewrite render_eq. fold loc. rewrite effects_run by done. cbn zeta.
  fold k a v1. rewrite Hget. cbn [Js.truthy_opt]. rewrite Hu.
  rewrite (decide_False (P := storageSyncedWith i = _)) by done.
  unfold syncStorage. rewrite Hget, Hu. cbn [negb].
  set (w1 := if decide (UseStorage.storedWith (inner i) = Some (k, v1))
             then w else snd (setItem a k v1 w)).
  rewrite decide_same.
  set (i1 := mkBinding (UseStorage.mkInstance u k (Some (k, v1)))
               (Some (v1, key p, search loc)) (Some (key p, search loc)) loc v1).
  assert (Hcur1 : current w1 = loc).
  { subst w1. destruct (decide _); [done|]. by rewrite current_setItem. }
  assert (Hback1 : back w1 = back w).
  { subst w1. destruct (decide _); [done|]. by rewrite back_setItem. }
  assert (Harea1 : area a w1 !! k = Some v1).
  { subst w1. destruct (decide _) as [Hs|Hs]; [by apply Hstored|].
    rewrite area_setItem. apply lookup_insert_eq. }
  assert (Hframe1 : ∀ b k', b ≠ a ∨ k' ≠ k → area b w1 !! k' = area b w !! k').
  { intros b k' Hor. subst w1. destruct (decide _); [done|].
    rewrite UseStorageMore.area_setItem_lookup. rewrite decide_False; [done|].
    intros [-> ->]. by destruct Hor. }
  destruct (decide (u = v1)) as [Heq|Hne].
  - exists i1, w1. split_and!; try done.
    + apply settle_at_rest. unfold stale.
      apply negb_false_iff, bool_decide_eq_true. by rewrite Hcur1.
    + unfold settled. rewrite Hcur1. cbn zeta. fold k a.
      unfold UseStorage.at_rest.
      change (UseStorage.key (storageProps p loc)) with k.
      subst i1. cbn. rewrite <- Heq in *. by split_and!.
    + by rewrite Heq.
  - set (w2 := snd (setItem a k u w1)).
    set (i2 := mkBinding (UseStorage.mkInstance u k (Some (k, u)))
                 (Some (u, key p, search loc)) (Some (key p, search loc)) loc u).
    assert (Hrender : render p i1 w1 = ((state p loc, i2), w2)).
    { rewrite render_eq, Hcur1. rewrite effects_run by done. cbn zeta.
      fold k a. subst i1.
      cbn [inner UseStorage.storedWith UseStorage.value urlFilledWith
             storageSyncedWith].
      repeat case_decide; try congruence.
      rewrite Hget. cbn [Js.truthy_opt]. by rewrite Hu. }
    exists i2, w2. split_and!.
    + rewrite settle_stale.
      2:{ unfold stale. apply negb_true_iff, bool_decide_eq_false.
          subst i1. cbn. intros [_ Hc]. by apply Hne. }
      cbn [snd]. rewrite Hrender. apply settle_at_rest.
      unfold stale. apply negb_false_iff, bool_decide_eq_true.
      subst w2. by rewrite current_setItem.
    + unfold settled. subst w2. rewrite current_setItem, Hcur1. cbn zeta.
      fold k a. unfold UseStorage.at_rest.
      change (UseStorage.key (storageProps p loc)) with k.
      rewrite area_setItem. subst i2. cbn. split_and!; try done.
      apply lookup_insert_eq.
    + subst w2. rewrite area_setItem. apply lookup_insert_eq.
    + done.
    + subst w2. by rewrite current_setItem.
    + subst w2. by rewrite back_setItem.
    + intros b k' Hor. subst w2. rewrite UseStorageMore.area_setItem_lookup.
      rewrite decide_False by (intros [-> ->]; by destruct Hor).
      by apply Hframe1.
Qed.

(** What a returning call of the setter does: one push navigation, after
    the call of the updater if there is one. *)
Lemma updateState_returns p loc storageState action v w :
  action = NewValue v
  ∨ (∃ f prev, action = Updater f
               ∧ Js.JSON_parse storageState = Js.Read prev ∧ v = f prev) →
  let q := params_set (kebabize (key p)) (serializeState v) (search loc) in
  ∃ called,
    updateState p loc storageState action w =
    (Returned tt,
     mkWorld (localStorage w) (sessionStorage w)
       (mkLocation (pathname (current w)) q) (current w :: back w)
       (trace w ++ called ++ [ConsoleLog v; Navigate q false]))
    ∧ (action = NewValue v → called = []).
Proof.
  intros [->|(f & prev & -> & Hparse & ->)] q.
  - exists []. split; [|done].
    unfold updateState, bind, ret, emit, navigate, record. cbn.
    by rewrite <- !app_assoc.
  - exists [CallUpdater prev]. split; [|done].
    by rewrite (UpdateStateFacts.updateState_updater p loc storageState f prev w).
Qed.

(** X14. The setter of a settled instance, called with a value, or with
    an updater when the storage state is JSON text, whose serialized
    result [u] is not empty and is not what the URL parameter holds: the
    call itself only pushes one history entry carrying [u] in the
    parameter, without touching storage; the renders that follow come to
    rest with [u] in the state cell and in storage under the derived key,
    without navigating again. A value that is not a string comes back as
    the returned state. *)
Theorem setter_reaches_url_then_storage p i w0 v0 action v n :
  let name := kebabize (key p) in
  let a := UseStorage.storage (storageProps p (current w0)) in
  let k := storageKey p (current w0) in
  let u := serializeState v in
  let q := params_set name u (search (current w0)) in
  settled p i w0 →
  action = NewValue v
  ∨ (∃ f prev, action = Updater f
               ∧ Js.JSON_parse (seenStorageState i) = Js.Read prev
               ∧ v = f prev) →
  u ≠ "" →
  params_get name (search (current w0)) ≠ Some u →
  ∃ w1 v' i' w',
    updateState p (seenLocation i) (seenStorageState i) action w0
      = (Returned tt, w1)
    ∧ (∀ b, area b w1 = area b w0)
    ∧ current w1 = mkLocation (pathname (current w0)) q
    ∧ back w1 = current w0 :: back w0
    ∧ settle (S (S n)) p (v0, i) w1 = (Some (v', i'), w')
    ∧ settled p i' w'
    ∧ UseStorage.value (inner i') = u
    ∧ area a w' !! k = Some u
    ∧ (∀ b k', b ≠ a ∨ k' ≠ k → area b w' !! k' = area b w0 !! k')
    ∧ current w' = current w1
    ∧ back w' = current w0 :: back w0
    ∧ v' = state p (current w')
    ∧ ((∀ s, v ≠ Js.JStr s) → Js.representable v = true → v' = Some v).
Proof.
  intros name a k u q (Hseen & Hss & [Href Hdeps] & Hfill & Hsync & Hstored)
    Haction Hu Hcur.
  destruct (updateState_returns p (seenLocation i) (seenStorageState i)
              action v w0 Haction) as (called & Hcall & _).
  cbn zeta in Hcall. rewrite Hseen in Hcall. fold name u q in Hcall.
  set (w1 := mkWorld _ _ _ _ _) in Hcall.
  assert (Hq : q ≠ search (current w0)) by (by apply params_set_differs).
  assert (Hk : storageKey p (current w1) = k) by (by apply storageKey_pathname).
  assert (Harea : ∀ b, area b w1 = area b w0) by (by intros []).
  apply UseStorageFacts.truthy_nonempty in Hu.
  destruct (render_adopts_parameter p u w1 i n Hu)
    as (i' & w' & Hrun & Hrest & Hst & Hval & Hc & Hb & Hframe).
  - apply params_get_set.
  - by rewrite Hk.
  - rewrite Hsync. intros Heq. apply Hq. by injection Heq.
  - intros _. rewrite Hk, Harea. exact Hstored.
  - exists w1, (state p (current w1)), i', w'.
    rewrite Hk in Hst, Hframe.
    assert (Hget : params_get (kebabize (key p)) (search (current w1)) = Some u)
      by apply params_get_set.
    split_and!.
    + rewrite Hseen. exact Hcall.
    + exact Harea.
    + done.
    + done.
    + rewrite settle_stale; [exact Hrun|].
      unfold stale. apply negb_true_iff, bool_decide_eq_false.
      cbn [snd]. rewrite Hseen. intros [Hc' _]. apply Hq.
      by apply (f_equal search) in Hc'.
    + exact Hrest.
    + exact Hval.
    + exact Hst.
    + intros b k' Hor. rewrite <- Harea. by apply Hframe.
    + exact Hc.
    + by rewrite Hb.
    + by rewrite Hc.
    + intros Hns Hrep. rewrite (state_present p (current w1) u Hget), Hu.
      subst u. destruct v; try (by destruct (Hns s)); cbn [serializeState];
        by rewrite JsonFacts.JSON_parse_stringify.
Qed.

(** A stale instance with a non-empty state cell that finds the
    parameter missing or empty: its fill effect puts the state cell into
    the URL by a replace navigation, and the next render is at rest. *)
Lemma settle_refills_parameter p i w v0 n :
  let name := kebabize (key p) in
  let a := UseStorage.storage (storageProps p (current w)) in
  let k := storageKey p (current w) in
  let old := UseStorage.value (inner i) in
  Js.truthy old = true →
  Js.truthy_opt (params_get name (search (current w))) = false →
  UseStorage.prevKeyRef (inner i) = k →
  UseStorage.storedWith (inner i) = Some (k, old) →
  area a w !! k = Some old →
  urlFilledWith i ≠ Some (old, key p, search (current w)) →
  seenLocation i ≠ current w →
  ∃ v' i' w',
    settle (S (S n)) p (v0, i) w = (Some (v', i'), w')
    ∧ settled p i' w'
    ∧ UseStorage.value (inner i') = old
    ∧ current w' = mkLocation (pathname (current w))
                     (params_set name old (search (current w)))
    ∧ (∀ b, area b w' = area b w)
    ∧ back w' = back w
    ∧ v' = state p (current w').
Proof.
  intros name a k old Hold Hfalsy Href Hdeps Hstored Hfill Hseen.
  set (loc1 := current w) in *. set (q1 := search loc1) in *.
  set (q2 := params_set name old q1).
  set (loc2 := mkLocation (pathname loc1) q2).
  assert (Hget2 : params_get name q2 = Some old) by apply params_get_set.
  assert (Hq2 : q2 ≠ q1).
  { apply params_set_differs. intros Hc. rewrite Hc in Hfalsy.
    cbn in Hfalsy. congruence. }
  assert (Hk2 : storageKey p loc2 = k) by (by apply storageKey_pathname).
  assert (Hsync : syncStorage p loc1 old = old).
  { unfold syncStorage. fold name q1.
    destruct (params_get name q1) as [u|]; [|done].
    cbn in Hfalsy. by rewrite Hfalsy. }
  set (wA := snd (navigate q2 true w)).
  set (iA := mkBinding (UseStorage.mkInstance old k (Some (k, old)))
               (Some (old, key p, q1)) (Some (key p, q1)) loc1 old).
  assert (Hrender1 : render p i w = ((state p loc1, iA), wA)).
  { rewrite render_eq. fold loc1. rewrite effects_run by done. cbn zeta.
    fold name k old q1.
    rewrite (decide_True (P := UseStorage.storedWith (inner i) = _)) by done.
    rewrite (decide_False (P := urlFilledWith i = _)) by done.
    rewrite Hfalsy, Hsync. by rewrite decide_same. }
  set (i2 := mkBinding (UseStorage.mkInstance old k (Some (k, old)))
               (Some (old, key p, q2)) (Some (key p, q2)) loc2 old).
  assert (HcurA : current wA = loc2) by done.
  assert (Hrender2 : render p iA wA = ((state p loc2, i2), wA)).
  { rewrite render_eq, HcurA. rewrite effects_run by (by rewrite Hk2).
    cbn zeta. rewrite Hk2. fold name. subst iA.
    cbn [inner UseStorage.storedWith UseStorage.value urlFilledWith
           storageSyncedWith search loc2].
    rewrite (decide_True (P := Some (k, old) = Some (k, old))) by done.
    rewrite (decide_False (P := Some (old, key p, q1) = Some (old, key p, q2)))
      by (intros [= Heq]; by apply Hq2).
    rewrite (decide_False (P := Some (key p, q1) = Some (key p, q2)))
      by (intros [= Heq]; by apply Hq2).
    rewrite Hget2. cbn [Js.truthy_opt]. rewrite Hold.
    unfold syncStorage. fold name. change (search loc2) with q2.
    by rewrite Hget2, Hold. }
  exists (state p loc2), i2, wA. split_and!.
  - rewrite settle_stale.
    2:{ unfold stale. apply negb_true_iff, bool_decide_eq_false.
        cbn [snd]. intros [Hc _]. by apply Hseen. }
    cbn [snd]. rewrite Hrender1. rewrite settle_stale.
    2:{ unfold stale. apply negb_true_iff, bool_decide_eq_false.
        cbn [snd]. intros [Hc _]. apply Hq2.
        by apply (f_equal search) in Hc. }
    cbn [snd]. rewrite Hrender2. apply settle_at_rest.
    unfold stale. apply negb_false_iff, bool_decide_eq_true. by cbn.
  - unfold settled. rewrite HcurA. cbn zeta.
    change (UseStorage.storage (storageProps p loc2)) with a.
    unfold UseStorage.at_rest.
    change (UseStorage.key (storageProps p loc2)) with (storageKey p loc2).
    rewrite Hk2. subst i2. cbn. split_and!; try done;
      subst wA; by rewrite area_navigate.
  - done.
  - done.
  - intros b. subst wA. by rewrite area_navigate.
  - done.
  - done.
Qed.

(** X15. Setting the state to the empty string does not stick. The
    setter pushes an entry whose parameter is empty; the fill effect of
    the next render takes the empty parameter for a missing one and
    replaces it with the storage state, and the sync effect ignores it.
    At rest the state cell, storage and the parameter hold the old value
    again; one history entry has been added. *)
Theorem setter_empty_string_reverts p i w0 v0 n :
  let name := kebabize (key p) in
  let old := UseStorage.value (inner i) in
  settled p i w0 →
  old ≠ "" →
  params_get name (search (current w0)) ≠ Some "" →
  ∃ w1 v' i' w',
    updateState p (seenLocation i) (seenStorageState i)
      (NewValue (Js.JStr "")) w0 = (Returned tt, w1)
    ∧ params_get name (search (current w1)) = Some ""
    ∧ settle (S (S n)) p (v0, i) w1 = (Some (v', i'), w')
    ∧ settled p i' w'
    ∧ UseStorage.value (inner i') = old
    ∧ params_get name (search (current w')) = Some old
    ∧ (∀ b, area b w' = area b w0)
    ∧ back w' = current w0 :: back w0
    ∧ v' = state p (current w').
Proof.
  intros name old (Hseen & Hss & [Href Hdeps] & Hfill & Hsync & Hstored)
    Hold Hcur.
  set (loc0 := current w0) in *.
  set (k := storageKey p loc0) in *.
  set (a := UseStorage.storage (storageProps p loc0)) in *.
  change (UseStorage.key (storageProps p loc0)) with k in *.
  fold old in Hdeps, Hfill, Hstored, Hss.
  set (q1 := params_set name "" (search loc0)).
  set (loc1 := mkLocation (pathname loc0) q1).
  set (w1 := mkWorld (localStorage w0) (sessionStorage w0) loc1
               (loc0 :: back w0)
               (trace w0 ++ [ConsoleLog (Js.JStr ""); Navigate q1 false])).
  assert (Hcall : updateState p (seenLocation i) (seenStorageState i)
                    (NewValue (Js.JStr "")) w0 = (Returned tt, w1)).
  { rewrite Hseen. unfold updateState, bind, ret, emit, navigate, record.
    cbn. by rewrite <- !app_assoc. }
  assert (Hget1 : params_get name q1 = Some "") by apply params_get_set.
  assert (Hq1 : q1 ≠ search loc0) by (by apply params_set_differs).
  assert (Hk1 : storageKey p loc1 = k) by (by apply storageKey_pathname).
  assert (Hsame : ∀ b, area b w1 = area b w0) by (by intros []).
  apply UseStorageFacts.truthy_nonempty in Hold.
  destruct (settle_refills_parameter p i w1 v0 n)
    as (v' & i' & w' & Hrun & Hrest & Hval & Hc & Harea & Hback & Hv).
  - exact Hold.
  - change (search (current w1)) with q1. fold name. by rewrite Hget1.
  - change (current w1) with loc1. by rewrite Hk1.
  - change (current w1) with loc1. by rewrite Hk1.
  - change (current w1) with loc1. rewrite Hk1.
    change (UseStorage.storage (storageProps p loc1)) with a.
    by rewrite (Hsame a).
  - rewrite Hfill. intros [= Heq]. by apply Hq1.
  - rewrite Hseen. intros Heq. apply Hq1. by apply (f_equal search) in Heq.
  - exists w1, v', i', w'. split_and!.
    + exact Hcall.
    + exact Hget1.
    + exact Hrun.
    + exact Hrest.
    + exact Hval.
    + rewrite Hc. apply params_get_set.
    + intros b. by rewrite Harea.
    + exact Hback.
    + exact Hv.
Qed.

(** X16. The parameter disappears from the URL under a settled instance
    whose state is not empty (the user edits the address or follows a
    link without it): the hook puts the state cell back into the URL by
    a replace navigation, touches no storage entry and adds no history
    entry of its own. *)
Theorem missing_parameter_is_refilled p i w0 v0 q n :
  let name := kebabize (key p) in
  let old := UseStorage.value (inner i) in
  settled p i w0 →
  old ≠ "" →
  q ≠ search (current w0) →
  params_get name q = None ∨ params_get name q = Some "" →
  let w := externalNavigation q w0 in
  ∃ v' i' w',
    settle (S (S n)) p (v0, i) w = (Some (v', i'), w')
    ∧ settled p i' w'
    ∧ UseStorage.value (inner i') = old
    ∧ search (current w') = params_set name old q
    ∧ params_get name (search (current w')) = Some old
    ∧ (∀ b, area b w' = area b w0)
    ∧ back w' = back w
    ∧ v' = state p (current w').
Proof.
  intros name old (Hseen & Hss & [Href Hdeps] & Hfill & Hsync & Hstored)
    Hold Hq Hparam w.
  set (loc0 := current w0) in *.
  set (k := storageKey p loc0) in *.
  set (a := UseStorage.storage (storageProps p loc0)) in *.
  change (UseStorage.key (storageProps p loc0)) with k in *.
  fold old in Hdeps, Hfill, Hstored, Hss.
  set (loc1 := mkLocation (pathname loc0) q).
  assert (Hk1 : storageKey p loc1 = k) by (by apply storageKey_pathname).
  assert (Hsame : ∀ b, area b w = area b w0) by (by intros []).
  apply UseStorageFacts.truthy_nonempty in Hold.
  destruct (settle_refills_parameter p i w v0 n)
    as (v' & i' & w' & Hrun & Hrest & Hval & Hc & Harea & Hback & Hv).
  - exact Hold.
  - change (search (current w)) with q. fold name.
    by destruct Hparam as [-> | ->].
  - change (current w) with loc1. by rewrite Hk1.
  - change (current w) with loc1. by rewrite Hk1.
  - change (current w) with loc1. rewrite Hk1.
    change (UseStorage.storage (storageProps p loc1)) with a.
    by rewrite (Hsame a).
  - rewrite Hfill. intros [= Heq]. by apply Hq.
  - rewrite Hseen. intros Heq. apply Hq. by apply (f_equal search) in Heq.
  - exists v', i', w'. split_and!.
    + exact Hrun.
    + exact Hrest.
    + exact Hval.
    + by rewrite Hc.
    + rewrite Hc. apply params_get_set.
    + intros b. by rewrite Harea.
    + exact Hback.
    + exact Hv.
Qed.

(** X17. Every returning call of the setter pushes exactly one history
    entry, also when the value is the one the URL already carries; the
    call writes nothing to storage, keeps the path and every other query
    parameter, and sets the hook's parameter to the serialized value. *)
Theorem setter_always_pushes p loc storageState action v w :
  action = NewValue v
  ∨ (∃ f prev, action = Updater f
               ∧ Js.JSON_parse storageState = Js.Read prev ∧ v = f prev) →
  let name := kebabize (key p) in
  let r := updateState p loc storageState action w in
  fst r = Returned tt
  ∧ back (snd r) = current w :: back w
  ∧ history_length (snd r) = S (history_length w)
  ∧ (∀ b, area b (snd r) = area b w)
  ∧ pathname (current (snd r)) = pathname (current w)
  ∧ params_get name (search (current (snd r))) = Some (serializeState v)
  ∧ (∀ name', name' ≠ name →
              params_get name' (search (current (snd r)))
              = params_get name' (search loc)).
Proof.
  intros Haction name r. subst r.
  destruct (updateState_returns p loc storageState action v w Haction)
    as (called & -> & _).
  cbn [fst snd back current search pathname]. fold name. split_and!.
  - done.
  - done.
  - done.
  - by intros [].
  - done.
  - apply params_get_set.
  - intros name' Hn. by apply params_get_set_other.
Qed.

(** X18. Two different states that are not strings never share a
    serialized text, so the URL parameter and the storage entry tell
    them apart. *)
Theorem serializeState_separates v1 v2 :
  (∀ s, v1 ≠ Js.JStr s) → (∀ s, v2 ≠ Js.JStr s) →
  Js.representable v1 = true → Js.representable v2 = true →
  v1 ≠ v2 →
  serializeState v1 ≠ serializeState v2.
Proof.
  intros Hs1 Hs2 Hr1 Hr2 Hne Heq. apply Hne.
  assert (H1 : serializeState v1 = Js.JSON_stringify v1)
    by (destruct v1; try done; by destruct (Hs1 s)).
  assert (H2 : serializeState v2 = Js.JSON_stringify v2)
    by (destruct v2; try done; by destruct (Hs2 s)).
  rewrite H1, H2 in Heq.
  pose proof (JsonFacts.JSON_parse_stringify v1 Hr1) as Hp1.
  pose proof (JsonFacts.JSON_parse_stringify v2 Hr2) as Hp2.
  rewrite Heq, Hp2 in Hp1. by injection Hp1.
Qed.

(** X19. A mounted instance that sees the path change (no prefix): the
    derived key changes with the path, so the storing effect removes the
    entry of the old path and writes the state cell, which still holds
    the old path's value, under the new path's key; with no parameter in
    the new URL the value is put there too. The value the instance had
    on the old path is carried to the new one, and the old path's entry
    is lost. *)
Theorem path_change_moves_entry p i w0 v0 target n :
  let name := kebabize (key p) in
  let a := UseStorage.storage (storageProps p (current w0)) in
  let old := UseStorage.value (inner i) in
  settled p i w0 →
  prefix p = None ∨ prefix p = Some "" →
  pathname target ≠ pathname (current w0) →
  params_get name (search (current w0)) = Some old →
  params_get name (search target) = None →
  old ≠ "" →
  ∃ v' i' w',
    settle (S (S n)) p (v0, i) (externalVisit target w0) = (Some (v', i'), w')
    ∧ settled p i' w'
    ∧ UseStorage.value (inner i') = old
    ∧ area a w' !! storageKey p (current w0) = None
    ∧ area a w' !! storageKey p target = Some old
    ∧ pathname (current w') = pathname target
    ∧ params_get name (search (current w')) = Some old.
Proof.
  intros name a old (Hseen & Hss & [Href Hdeps] & Hfill & Hsync & Hstored)
    Hpre Hpath Hurl Hnone Hold.
  set (loc0 := current w0) in *.
  set (k0 := storageKey p loc0) in *.
  change (UseStorage.storage (storageProps p loc0)) with a in Hstored.
  change (UseStorage.key (storageProps p loc0)) with k0 in *.
  fold old in Hdeps, Hfill, Hstored, Hss.
  set (k1 := storageKey p target).
  assert (Hk : k0 ≠ k1).
  { intros Heq. apply Hpath. symmetry.
    by apply (StorageKeyFacts.storageKey_path_inj p loc0 target Hpre). }
  assert (Hqt : search target ≠ search loc0).
  { intros Heq. rewrite Heq in Hnone. congruence. }
  set (w := externalVisit target w0).
  set (q1 := params_set name old (search target)).
  set (loc1 := mkLocation (pathname target) q1).
  assert (Hget1 : params_get name q1 = Some old) by apply params_get_set.
  assert (Hq1 : q1 ≠ search target) by (by apply params_set_changes).
  assert (Hk1 : storageKey p loc1 = k1) by (by apply storageKey_pathname).
  apply UseStorageFacts.truthy_nonempty in Hold.
  (* the storing effect of the first render under the new path *)
  set (wS := snd (setItem a k1 old (snd (removeItem a k0 w)))).
  set (wA := snd (navigate q1 true wS)).
  set (iA := mkBinding (UseStorage.mkInstance old k1 (Some (k1, old)))
               (Some (old, key p, search target)) (Some (key p, search target))
               target old).
  assert (Hrender1 : render p i w = ((state p target, iA), wA)).
  { rewrite render_eq. change (current w) with target.
    unfold effects, bind, UseStorage.commit.
    change (UseStorage.key (storageProps p target)) with k1.
    fold old.
    rewrite (decide_False (P := UseStorage.storedWith (inner i) = _))
      by (rewrite Hdeps; intros [= Heq]; by apply Hk).
    rewrite UseStorageFacts.storeEffect_run. cbn zeta.
    change (UseStorage.key (storageProps p target)) with k1.
    rewrite (decide_False (P := UseStorage.prevKeyRef (inner i) = k1))
      by (rewrite Href; exact Hk).
    rewrite Href. fold old.
    change (UseStorage.storage (storageProps p target)) with a.
    change (UseStorage.serialize (storageProps p target) old) with old.
    rewrite (decide_False (P := urlFilledWith i = _))
      by (rewrite Hfill; intros [= Heq]; by apply Hqt).
    rewrite (decide_False (P := storageSyncedWith i = _))
      by (rewrite Hsync; intros [= Heq]; by apply Hqt).
    unfold fillUrl, syncStorage. fold name. rewrite Hnone.
    cbn [Js.truthy_opt negb]. unfold ret. reflexivity. }
  assert (HcurA : current wA = loc1).
  { subst wA wS. unfold navigate. cbn [snd current].
    by rewrite current_setItem; destruct a. }
  set (i2 := mkBinding (UseStorage.mkInstance old k1 (Some (k1, old)))
               (Some (old, key p, q1)) (Some (key p, q1)) loc1 old).
  assert (Hrender2 : render p iA wA = ((state p loc1, i2), wA)).
  { rewrite render_eq, HcurA. rewrite effects_run by (by rewrite Hk1).
    cbn zeta. rewrite Hk1. fold name. subst iA.
    cbn [inner UseStorage.storedWith UseStorage.value urlFilledWith
           storageSyncedWith search loc1].
    rewrite (decide_True (P := Some (k1, old) = Some (k1, old))) by done.
    rewrite (decide_False
               (P := Some (old, key p, search target) = Some (old, key p, q1)))
      by (intros [= Heq]; by apply Hq1).
    rewrite (decide_False (P := Some (key p, search target) = Some (key p, q1)))
      by (intros [= Heq]; by apply Hq1).
    rewrite Hget1. cbn [Js.truthy_opt]. rewrite Hold.
    unfold syncStorage. fold name. change (search loc1) with q1.
    by rewrite Hget1, Hold. }
  assert (HareaA : ∀ k', area a wA !! k' =
            if decide (k' = k1) then Some old
            else if decide (k' = k0) then None else area a w0 !! k').
  { intros k'. subst wA wS. rewrite area_navigate, area_setItem.
    destruct (decide (k' = k1)) as [->|Hn1]; [apply lookup_insert_eq|].
    rewrite lookup_insert_ne by done.
    unfold removeItem. cbn [snd].
    rewrite UseStorageFacts.area_record, UseStorageFacts.area_with_area.
    destruct (decide (k' = k0)) as [->|Hn0]; [apply lookup_delete_eq|].
    rewrite lookup_delete_ne by done. by destruct a. }
  exists (state p loc1), i2, wA. split_and!.
  - rewrite settle_stale.
    2:{ unfold stale. apply negb_true_iff, bool_decide_eq_false.
        cbn [snd]. rewrite Hseen. intros [Hc _]. apply Hpath.
        by rewrite <- Hc. }
    cbn [snd]. rewrite Hrender1. rewrite settle_stale.
    2:{ unfold stale. apply negb_true_iff, bool_decide_eq_false.
        cbn [snd]. rewrite HcurA. intros [Hc _]. apply Hq1.
        by apply (f_equal search) in Hc. }
    cbn [snd]. rewrite Hrender2. apply settle_at_rest.
    unfold stale. apply negb_false_iff, bool_decide_eq_true.
    by rewrite HcurA.
  - unfold settled. rewrite HcurA. cbn zeta.
    change (UseStorage.storage (storageProps p loc1)) with a.
    unfold UseStorage.at_rest.
    change (UseStorage.key (storageProps p loc1)) with (storageKey p loc1).
    rewrite Hk1. subst i2. cbn. split_and!; try done;
      rewrite HareaA; by rewrite decide_True.
  - done.
  - rewrite HareaA. rewrite decide_False by done. by rewrite decide_True.
  - rewrite HareaA. by rewrite decide_True.
  - by rewrite HcurA.
  - by rewrite HcurA.
Qed.

End UseUrlStorageStateMore.

(** *** Scenarios *)

Module UseUrlStorageStateMoreCases.

Import UrlHelper UseUrlStorageState Scenarios UseUrlStorageStateFacts
  UseUrlStorageStateMore StorageKeyFacts.

(** The keys of "updates the state for the current path only", and of
    "applies prefix to storage key correctly". *)
Lemma storageKey_per_path_witness :
  let p := mkParams "data" (Js.JStr "/path1") None None in
  let prefixed := mkParams "key" (Js.JStr "default") (Some "customPrefix") None in
  storageKey p (mkLocation "/path1" []) ≠ storageKey p (mkLocation "/path2" [])
  ∧ storageKey prefixed (mkLocation "/path1" []) = "customPrefix_key"
  ∧ storageKey prefixed (mkLocation "/path1" [])
    = storageKey prefixed (mkLocation "/path2" []).
Proof.
  intros p prefixed.
  assert (Hnone : prefix p = None ∨ prefix p = Some "") by (left; reflexivity).
  assert (Hpre : prefix prefixed = Some "customPrefix") by reflexivity.
  assert (Hne : "customPrefix" ≠ "") by discriminate.
  assert (Hpath : pathname (mkLocation "/path1" []) ≠ pathname (mkLocation "/path2" []))
    by discriminate.
  split_and!.
  - exact (proj1 (storageKey_per_path p (mkLocation "/path1" [])
                    (mkLocation "/path2" [])) Hnone Hpath).
  - exact (proj1 (proj2 (storageKey_per_path prefixed (mkLocation "/path1" [])
                           (mkLocation "/path2" []))
                    "customPrefix" Hpre Hne)).
  - exact (proj2 (proj2 (storageKey_per_path prefixed (mkLocation "/path1" [])
                           (mkLocation "/path2" []))
                    "customPrefix" Hpre Hne)).
Defined.

(** The parameter [existing] and the entries of other keys are as they
    were after mounting. *)
Lemma mounted_leaves_alone_witness :
  let w := browser [("other", "x")] [("existing", "untouched")] in
  let w' := snd (mounted 1 defaultParams w) in
  localStorage w' !! "other" = Some "x"
  ∧ params_get "existing" (search (current w')) = Some "untouched"
  ∧ back w' = [].
Proof.
  intros w w'.
  pose proof (mounted_leaves_alone 1 defaultParams w) as (Harea & _ & Hback & Hq).
  split_and!.
  - refine (Harea LocalStorage "other" _). right. discriminate.
  - refine (Hq "existing" _). discriminate.
  - exact Hback.
Defined.

Lemma resting_settled :
  settled defaultParams (restingBinding defaultParams "/")
    (restingWorld defaultParams "/").
Proof. vm_compute. by split_and!. Defined.

(** Rendering the instance at rest after mounting. *)
Lemma render_settled_witness :
  let p := defaultParams in
  render p (restingBinding p "/") (restingWorld p "/")
  = ((Some (Js.JStr "default"), restingBinding p "/"), restingWorld p "/").
Proof.
  intros p.
  exact (proj1 (render_settled p (restingBinding p "/") (restingWorld p "/") 0
                  None resting_settled)).
Defined.

(** "initializes state from storage if URL is empty, and loads to url
    params". *)
Lemma mount_reconciles_witness :
  ∃ v i w',
    mounted 1 defaultParams (browser [("urlStorage_/_key", "fromStorage")] [])
      = (Some (v, i), w')
    ∧ localStorage w' !! "urlStorage_/_key" = Some "fromStorage"
    ∧ params_get "key" (search (current w')) = Some "fromStorage".
Proof.
  destruct (mount_reconciles defaultParams
              (browser [("urlStorage_/_key", "fromStorage")] []) 0)
    as (v & i & w' & Hrun & _ & _ & Hst & Hq & _).
  exists v, i, w'. split_and!; [exact Hrun | exact Hst | exact Hq].
Defined.

(** "updates state and URL correctly". *)
Lemma setter_reaches_url_then_storage_witness :
  let p := objectParams in
  let newData := Js.JObj [("test", Js.JStr "updatedValue");
                          ("optional", Js.JStr "newField")] in
  let i := restingBinding p "/" in
  let w0 := restingWorld p "/" in
  ∃ w1 v' i' w',
    updateState p (seenLocation i) (seenStorageState i) (NewValue newData) w0
      = (Returned tt, w1)
    ∧ settle 2 p (Some (defaultValue p), i) w1 = (Some (v', i'), w')
    ∧ v' = Some newData
    ∧ localStorage w' !! "urlStorage_/_key" = Some (Js.JSON_stringify newData)
    ∧ history_length w' = 2%nat.
Proof.
  intros p newData i w0.
  assert (Hrest : settled p i w0) by (vm_compute; by split_and!).
  assert (Haction : NewValue newData = NewValue newData
                    ∨ ∃ f prev, NewValue newData = Updater f
                                ∧ Js.JSON_parse (seenStorageState i) = Js.Read prev
                                ∧ newData = f prev) by (left; reflexivity).
  assert (Hu : serializeState newData ≠ "") by (vm_compute; discriminate).
  assert (Hcur : params_get (kebabize (key p)) (search (current w0))
                 ≠ Some (serializeState newData)) by (vm_compute; discriminate).
  destruct (setter_reaches_url_then_storage p i w0 (Some (defaultValue p))
              (NewValue newData) newData 0 Hrest Haction Hu Hcur)
    as (w1 & v' & i' & w' & Hcall & _ & _ & _ & Hrun & _ & _ & Hst & _ & _
        & Hback & _ & Hv).
  exists w1, v', i', w'. split_and!.
  - exact Hcall.
  - exact Hrun.
  - apply Hv; [intros s; discriminate | vm_compute; reflexivity].
  - exact Hst.
  - unfold history_length. rewrite Hback. reflexivity.
Defined.

(** Setting the empty string on the string-typed state of the tests. *)
Lemma setter_empty_string_reverts_witness :
  let p := defaultParams in
  let i := restingBinding p "/" in
  let w0 := restingWorld p "/" in
  ∃ w1 v' i' w',
    updateState p (seenLocation i) (seenStorageState i) (NewValue (Js.JStr "")) w0
      = (Returned tt, w1)
    ∧ settle 2 p (Some (Js.JStr "default"), i) w1 = (Some (v', i'), w')
    ∧ params_get "key" (search (current w')) = Some "default"
    ∧ localStorage w' = localStorage w0.
Proof.
  intros p i w0.
  assert (Hold : UseStorage.value (inner i) ≠ "") by (vm_compute; discriminate).
  assert (Hcur : params_get (kebabize (key p)) (search (current w0)) ≠ Some "")
    by (vm_compute; discriminate).
  destruct (setter_empty_string_reverts p i w0 (Some (Js.JStr "default")) 0
              resting_settled Hold Hcur)
    as (w1 & v' & i' & w' & Hcall & _ & Hrun & _ & _ & Hq & Harea & _).
  exists w1, v', i', w'.
  split_and!; [exact Hcall | exact Hrun | exact Hq | exact (Harea LocalStorage)].
Defined.

(** [PathComponent] of the tests without its [key]: the instance of
    [/path1] is kept when the user follows the link to [/path2]. *)
Lemma path_change_moves_entry_witness :
  let p := mkParams "data" (Js.JStr "/path1") None None in
  let i := restingBinding p "/path1" in
  let w0 := restingWorld p "/path1" in
  ∃ v' i' w',
    settle 2 p (Some (Js.JStr "/path1"), i)
      (externalVisit (mkLocation "/path2" []) w0) = (Some (v', i'), w')
    ∧ localStorage w' !! "urlStorage_/path1_data" = None
    ∧ localStorage w' !! "urlStorage_/path2_data" = Some "/path1".
Proof.
  intros p i w0.
  assert (Hrest : settled p i w0) by (vm_compute; by split_and!).
  assert (Hpre : prefix p = None ∨ prefix p = Some "") by (left; reflexivity).
  assert (Hpath : pathname (mkLocation "/path2" []) ≠ pathname (current w0))
    by (vm_compute; discriminate).
  assert (Hurl : params_get (kebabize (key p)) (search (current w0))
                 = Some (UseStorage.value (inner i))) by reflexivity.
  assert (Hnone : params_get (kebabize (key p)) (search (mkLocation "/path2" []))
                  = None) by reflexivity.
  assert (Hold : UseStorage.value (inner i) ≠ "") by (vm_compute; discriminate).
  destruct (path_change_moves_entry p i w0 (Some (Js.JStr "/path1"))
              (mkLocation "/path2" []) 0 Hrest Hpre Hpath Hurl Hnone Hold)
    as (v' & i' & w' & Hrun & _ & _ & Hgone & Hnew & _).
  exists v', i', w'. split_and!; [exact Hrun | exact Hgone | exact Hnew].
Defined.

(** The user strips the query from the address of the settled page. *)
Lemma missing_parameter_is_refilled_witness :
  let p := defaultParams in
  let i := restingBinding p "/" in
  let w0 := restingWorld p "/" in
  ∃ v' i' w',
    settle 2 p (Some (Js.JStr "default"), i) (externalNavigation [] w0)
      = (Some (v', i'), w')
    ∧ search (current w') = [("key", "default")]
    ∧ history_length w' = 2%nat.
Proof.
  intros p i w0.
  assert (Hold : UseStorage.value (inner i) ≠ "") by (vm_compute; discriminate).
  assert (Hq : [] ≠ search (current w0)) by (vm_compute; discriminate).
  assert (Hparam : params_get (kebabize (key p)) [] = None
                   ∨ params_get (kebabize (key p)) [] = Some "")
    by (left; reflexivity).
  destruct (missing_parameter_is_refilled p i w0 (Some (Js.JStr "default")) []
              0 resting_settled Hold Hq Hparam)
    as (v' & i' & w' & Hrun & _ & _ & Hsearch & _ & _ & Hback & _).
  exists v', i', w'. split_and!; [exact Hrun | exact Hsearch |].
  unfold history_length. rewrite Hback. reflexivity.
Defined.

(** Setting the value the URL already carries still adds an entry. *)
Lemma setter_always_pushes_witness :
  let p := defaultParams in
  let w0 := restingWorld p "/" in
  let r := updateState p (current w0) "default" (NewValue (Js.JStr "default")) w0 in
  current (snd r) = current w0
  ∧ history_length (snd r) = 2%nat.
Proof.
  intros p w0 r.
  assert (Haction : NewValue (Js.JStr "default") = NewValue (Js.JStr "default")
                    ∨ ∃ f prev, NewValue (Js.JStr "default") = Updater f
                                ∧ Js.JSON_parse "default" = Js.Read prev
                                ∧ Js.JStr "default" = f prev)
    by (left; reflexivity).
  pose proof (setter_always_pushes p (current w0) "default"
                (NewValue (Js.JStr "default")) (Js.JStr "default") w0 Haction)
    as (_ & _ & Hlen & _).
  split; [vm_compute; reflexivity | exact Hlen].
Defined.

(** The numbers 1 and 2, and an object and an array. *)
Lemma serializeState_separates_witness :
  serializeState (Js.JNum 1) ≠ serializeState (Js.JNum 2)
  ∧ serializeState (Js.JObj []) ≠ serializeState (Js.JArr []).
Proof.
  split.
  - refine (serializeState_separates (Js.JNum 1) (Js.JNum 2) _ _ _ _ _).
    + intros s. discriminate.
    + intros s. discriminate.
    + vm_compute. reflexivity.
    + vm_compute. reflexivity.
    + discriminate.
  - refine (serializeState_separates (Js.JObj []) (Js.JArr []) _ _ _ _ _).
    + intros s. discriminate.
    + intros s. discriminate.
    + reflexivity.
    + reflexivity.
    + discriminate.
Defined.

End UseUrlStorageStateMoreCases.
